(** * GAO bid-protest harvester: a shallow embedding of [gao_bid_protests.py]

    The development follows the Python module top to bottom:
    text as lists of Unicode code points, a backtracking matcher for the
    fragment of [re] the module uses, the text normaliser and the section
    segmenter, then the acquisition layer and the driver loop as state
    passing over an explicit world (network script, log, file system). *)

From Stdlib Require Import String Ascii.
From Stdlib Require Import NArith ZArith Bool Arith Lia List.
From Stdlib Require DecimalString.
Import ListNotations.

Set Implicit Arguments.

(* ================================================================= *)
(** ** Text *)

(** A Python [str] is a sequence of code points. *)
Definition char := N.
Definition text := list char.

(** A Python string literal: the escapes [\n], [\r] and [\t] (a
    backslash, code 92, and a letter) stand for the characters 10, 13
    and 9. *)
Fixpoint unescape (l : text) : text :=
  match l with
  | c :: r =>
      match r with
      | d :: r' =>
          if (c =? 92)%N && (d =? 110)%N then 10%N :: unescape r'
          else if (c =? 92)%N && (d =? 114)%N then 13%N :: unescape r'
          else if (c =? 92)%N && (d =? 116)%N then 9%N :: unescape r'
          else c :: unescape r
      | [] => [c]
      end
  | [] => []
  end.

Definition py (s : string) : text :=
  unescape (map N_of_ascii (list_ascii_of_string s)).
Arguments py s%_string.

Definition text_eq_dec : forall a b : text, {a = b} + {a <> b} :=
  list_eq_dec N.eq_dec.

Definition text_eqb (a b : text) : bool :=
  if text_eq_dec a b then true else false.

(** Truthiness of a [str], list or dict: [not x] holds of the empty one
    only. *)
Definition is_empty {A} (s : list A) : bool :=
  match s with [] => true | _ => false end.

Definition between (lo hi c : char) : bool := ((lo <=? c) && (c <=? hi))%N.
Arguments between (lo hi c)%_N.

Definition NL : char := 10%N.
Definition CR : char := 13%N.
Definition is_nl (c : char) : bool := (c =? NL)%N.

(** [str.isspace] on one code point, which is also what [\s] tests in a
    [str] pattern. *)
Definition is_space (c : char) : bool :=
  between 9 13 c || between 28 32 c || (c =? 133)%N || (c =? 160)%N
  || (c =? 5760)%N || between 8192 8202 c || (c =? 8232)%N || (c =? 8233)%N
  || (c =? 8239)%N || (c =? 8287)%N || (c =? 12288)%N.

Definition is_ascii_upper (c : char) : bool := between 65 90 c.
Definition is_ascii_lower (c : char) : bool := between 97 122 c.
Definition is_ascii_digit (c : char) : bool := between 48 57 c.

Definition ascii_lower (c : char) : char :=
  if is_ascii_upper c then (c + 32)%N else c.
Definition ascii_upper (c : char) : char :=
  if is_ascii_lower c then (c - 32)%N else c.

(** The Unicode character database is not part of the module: above the
    ASCII range its classification is taken as given. *)
Class Unicode := {
  uni_alnum : char -> bool;     (* [str.isalnum] of a code point above 127 *)
  uni_decimal : char -> bool;   (* [str.isdecimal] of a code point above 127 *)
  uni_upper : char -> text      (* [str.upper] of a code point above 127 *)
}.

(** A database that knows no letter or digit outside ASCII; it is enough
    to run the functions on ASCII text. *)
Definition ascii_tables : Unicode :=
  {| uni_alnum := fun _ => false;
     uni_decimal := fun _ => false;
     uni_upper := fun c => [c] |}.

Section Classes.
Context {U : Unicode}.

(** [\d] and [\w] of a [str] pattern. *)
Definition is_digit (c : char) : bool :=
  if (c <? 128)%N then is_ascii_digit c else uni_decimal c.

Definition is_word (c : char) : bool :=
  if (c <? 128)%N
  then is_ascii_upper c || is_ascii_lower c || is_ascii_digit c || (c =? 95)%N
  else uni_alnum c.

Definition upper_char (c : char) : text :=
  if (c <? 128)%N then [ascii_upper c] else uni_upper c.

(** [str.upper] *)
Definition upper (s : text) : text := flat_map upper_char s.

End Classes.

(** [str.lstrip], [str.rstrip], [str.strip] without argument. *)
Fixpoint lstrip (s : text) : text :=
  match s with
  | c :: s' => if is_space c then lstrip s' else s
  | [] => []
  end.

Definition rstrip (s : text) : text := rev (lstrip (rev s)).
Definition strip (s : text) : text := rstrip (lstrip s).

(** [s.split("\n")] and ["\n".join(ls)] *)
Fixpoint split_nl (s : text) : list text :=
  match s with
  | [] => [[]]
  | c :: s' =>
      if is_nl c then [] :: split_nl s'
      else match split_nl s' with
           | l :: ls => (c :: l) :: ls
           | [] => [[c]]
           end
  end.

Fixpoint join_nl (ls : list text) : text :=
  match ls with
  | [] => []
  | [l] => l
  | l :: ls' => l ++ NL :: join_nl ls'
  end.

(** [needle in s] and [s.startswith(p)] *)
Fixpoint startswith (p s : text) : bool :=
  match p, s with
  | [], _ => true
  | a :: p', b :: s' => (a =? b)%N && startswith p' s'
  | _ :: _, [] => false
  end.

Fixpoint contains (needle s : text) : bool :=
  startswith needle s ||
  match s with
  | [] => false
  | _ :: s' => contains needle s'
  end.

(** [s[a:b]] for [0 <= a <= b] *)
Definition slice (a b : nat) (s : text) : text := firstn (b - a) (skipn a s).

(* ================================================================= *)
(** ** Dictionaries

    A Python [dict] keeps its keys in insertion order, and the segmenter
    sorts the items of one: an association list without repeated keys. *)

Definition dict (V : Type) := list (text * V).

Fixpoint dict_get {V} (k : text) (d : dict V) : option V :=
  match d with
  | [] => None
  | (k', v) :: d' => if text_eqb k k' then Some v else dict_get k d'
  end.

(** [d[k] = v] *)
Fixpoint dict_set {V} (k : text) (v : V) (d : dict V) : dict V :=
  match d with
  | [] => [(k, v)]
  | (k', v') :: d' =>
      if text_eqb k k' then (k', v) :: d' else (k', v') :: dict_set k v d'
  end.

(** [d.setdefault(k, v)] *)
Definition dict_setdefault {V} (k : text) (v : V) (d : dict V) : dict V :=
  match dict_get k d with
  | Some _ => d
  | None => dict_set k v d
  end.

(** [d.update(e)] *)
Definition dict_update {V} (d e : dict V) : dict V :=
  fold_left (fun acc kv => dict_set (fst kv) (snd kv) acc) e d.

(* ================================================================= *)
(** ** The fragment of [re] the module uses

    Python's matcher is a backtracking one: alternatives are tried left to
    right, repetitions are greedy and give characters back one at a time.
    Every repetition in the module's patterns is over a set of single
    characters, and the only groups are optional ones. *)

Inductive regex :=
| Eps
| Any (p : char -> bool)                        (* one character of a set *)
| Bol (multiline : bool)                        (* ^ *)
| Eol (multiline : bool)                        (* $ *)
| WordB                                         (* \b *)
| Seq (r1 r2 : regex)
| Alt (r1 r2 : regex)                           (* r1|r2 *)
| Opt (r : regex)                               (* (r)? *)
| Rep (p : char -> bool) (lo : nat) (hi : option nat).   (* [set]{lo,hi} *)

(** A position in the subject is a zipper: the characters before it,
    nearest first, and the characters from it on. *)
Definition at_bol (ml : bool) (pre : text) : bool :=
  match pre with
  | [] => true
  | c :: _ => ml && is_nl c
  end.

Definition at_eol (ml : bool) (s : text) : bool :=
  match s with
  | [] => true
  | c :: s' => is_nl c && (ml || is_empty s')
  end.

Definition room (hi : option nat) : bool :=
  match hi with Some O => false | _ => true end.

Definition less (hi : option nat) : option nat := option_map pred hi.

Section Matcher.
Context {U : Unicode}.

Definition head_is_word (s : text) : bool :=
  match s with c :: _ => is_word c | [] => false end.

Definition at_wordb (pre s : text) : bool :=
  xorb (head_is_word pre) (head_is_word s).

Section Engine.
Variable R : Type.

Fixpoint m_rep (p : char -> bool) (lo : nat) (hi : option nat)
    (k : text -> text -> option R) (pre s : text) {struct s} : option R :=
  let stop := match lo with O => k pre s | S _ => None end in
  match s with
  | c :: s' =>
      if p c && room hi
      then match m_rep p (pred lo) (less hi) k (c :: pre) s' with
           | Some r => Some r
           | None => stop
           end
      else stop
  | [] => stop
  end.

Fixpoint mt (r : regex) (k : text -> text -> option R) (pre s : text)
    {struct r} : option R :=
  match r with
  | Eps => k pre s
  | Any p =>
      match s with
      | c :: s' => if p c then k (c :: pre) s' else None
      | [] => None
      end
  | Bol ml => if at_bol ml pre then k pre s else None
  | Eol ml => if at_eol ml s then k pre s else None
  | WordB => if at_wordb pre s then k pre s else None
  | Seq r1 r2 => mt r1 (mt r2 k) pre s
  | Alt r1 r2 =>
      match mt r1 k pre s with
      | Some x => Some x
      | None => mt r2 k pre s
      end
  | Opt r1 =>
      match mt r1 k pre s with
      | Some x => Some x
      | None => k pre s
      end
  | Rep p lo hi => m_rep p lo hi k pre s
  end.

End Engine.

(** The match at one position, as the number of characters it spans. *)
Definition match_at (r : regex) (pre s : text) : option nat :=
  mt r (fun pre' _ => Some (length pre' - length pre)) pre s.

Record rmatch := { m_start : nat; m_end : nat; group0 : text }.

Definition mk_match (pre s : text) (len : nat) : rmatch :=
  {| m_start := length pre;
     m_end := length pre + len;
     group0 := firstn len s |}.

(** [re.search]: the leftmost position with a match. *)
Fixpoint search_from (r : regex) (pre s : text) {struct s} : option rmatch :=
  match match_at r pre s with
  | Some len => Some (mk_match pre s len)
  | None =>
      match s with
      | c :: s' => search_from r (c :: pre) s'
      | [] => None
      end
  end.

Definition re_search (r : regex) (s : text) : option rmatch :=
  search_from r [] s.

(** [re.finditer]: matches left to right, each search resuming where the
    previous match ended.  [skip] counts the characters of the previous
    match that are still to be passed.  After an empty match the scan
    moves one character on; no pattern of the module matches the empty
    string. *)
Fixpoint finditer_from (r : regex) (skip : nat) (pre s : text) {struct s}
    : list rmatch :=
  match skip with
  | S n =>
      match s with
      | c :: s' => finditer_from r n (c :: pre) s'
      | [] => []
      end
  | O =>
      match match_at r pre s with
      | Some len =>
          mk_match pre s len ::
          match s with
          | c :: s' => finditer_from r (len - 1) (c :: pre) s'
          | [] => []
          end
      | None =>
          match s with
          | c :: s' => finditer_from r 0 (c :: pre) s'
          | [] => []
          end
      end
  end.

Definition re_finditer (r : regex) (s : text) : list rmatch :=
  finditer_from r 0 [] s.

(** [re.sub] with the replacement given as a function of the matched
    text.  Matching always looks at the original subject. *)
Fixpoint sub_from (r : regex) (repl : text -> text) (skip : nat)
    (pre s : text) {struct s} : text :=
  match skip with
  | S n =>
      match s with
      | c :: s' => sub_from r repl n (c :: pre) s'
      | [] => []
      end
  | O =>
      match match_at r pre s with
      | Some len =>
          repl (firstn len s) ++
          match s with
          | c :: s' =>
              (if len =? 0 then [c] else []) ++
              sub_from r repl (len - 1) (c :: pre) s'
          | [] => []
          end
      | None =>
          match s with
          | c :: s' => c :: sub_from r repl 0 (c :: pre) s'
          | [] => []
          end
      end
  end.

Definition re_sub (r : regex) (repl : text -> text) (s : text) : text :=
  sub_from r repl 0 [] s.

End Matcher.

(** Pattern builders. *)
Definition chr (x : char) : regex := Any (N.eqb x).

Fixpoint lit (s : text) : regex :=
  match s with
  | [] => Eps
  | [c] => chr c
  | c :: s' => Seq (chr c) (lit s')
  end.

(** A literal character under [re.IGNORECASE]: the subject character
    matches when its lowercase is the pattern's, and [i] and [s] also
    match dotless i and long s. *)
Definition ci_eq (x c : char) : bool :=
  let lx := ascii_lower x in
  (ascii_lower c =? lx)%N
  || ((lx =? 105)%N && ((c =? 304)%N || (c =? 305)%N))
  || ((lx =? 115)%N && (c =? 383)%N)
  || ((lx =? 107)%N && (c =? 8490)%N).

Definition chr_i (x : char) : regex := Any (ci_eq x).

Fixpoint lit_i (s : text) : regex :=
  match s with
  | [] => Eps
  | [c] => chr_i c
  | c :: s' => Seq (chr_i c) (lit_i s')
  end.

Fixpoint seqs (rs : list regex) : regex :=
  match rs with
  | [] => Eps
  | [r] => r
  | r :: rs' => Seq r (seqs rs')
  end.

(** ["|".join(...)]: the alternatives in priority order. *)
Fixpoint alts (rs : list regex) : regex :=
  match rs with
  | [] => Eps
  | [r] => r
  | r :: rs' => Alt r (alts rs')
  end.

Definition c_ (a : ascii) : char := N_of_ascii a.
Arguments c_ a%_char.

Definition is_some {A} (o : option A) : bool :=
  match o with Some _ => true | None => false end.

(* ================================================================= *)
(** ** Text Normalizer *)

Section Normalizer.
Context {U : Unicode}.

(** [[\x00-\x08\x0B\x0C\x0E-\x1F]] *)
Definition control_class (c : char) : bool :=
  between 0 8 c || (c =? 11)%N || (c =? 12)%N || between 14 31 c.

Definition sanitize_for_excel (s : option text) : text :=
  match s with
  | None => []
  | Some s => re_sub (Any control_class) (fun _ => []) s
  end.

Definition sanitize_for_json (s : option text) : text :=
  match s with
  | None => []
  | Some s => re_sub (Any control_class) (fun _ => []) s
  end.

(** [(\w)-\n(\w)]; its two groups are the first and the fourth character
    of a match, which is what the template [\1\2] puts back. *)
Definition dehyphen_rx : regex :=
  seqs [Any is_word; chr (c_ "-"); chr NL; Any is_word].

Definition groups_1_2 (m : text) : text := firstn 1 m ++ firstn 1 (skipn 3 m).

(** [\n{3,}] *)
Definition newlines_rx : regex := Rep is_nl 3 None.

Definition remove_cr (txt : text) : text :=
  filter (fun c => negb (c =? CR)%N) txt.

Definition normalize_text (txt : text) : text :=
  if is_empty txt then []
  else
    let txt := remove_cr txt in
    let txt := re_sub dehyphen_rx groups_1_2 txt in
    let txt := re_sub newlines_rx (fun _ => [NL; NL]) txt in
    strip txt.

(** The boilerplate patterns, compiled with [re.IGNORECASE]; the last
    source string is itself three alternatives. *)
Definition not_nl (c : char) : bool := negb (is_nl c).

Definition spaces : regex := Rep is_space 0 None.

Definition drop_patterns : list regex :=
  [ seqs [Bol false; lit_i (py "441 G St. N.W."); Eol false];
    seqs [Bol false; lit_i (py "Washington, DC"); WordB;
          Rep not_nl 0 None; Eol false];
    seqs [Bol false; lit_i (py "Comptroller General"); WordB;
          Rep not_nl 0 None; Eol false];
    seqs [Bol false; lit_i (py "of the United States"); Eol false];
    seqs [Bol false; chr_i (c_ "U"); Opt (chr (c_ ".")); chr_i (c_ "S");
          Opt (chr (c_ "."));
          lit_i (py " Government Accountability Office"); Eol false];
    seqs [Bol false; lit_i (py "www.gao.gov"); Eol false];
    seqs [Bol false; lit_i (py "Page"); Rep is_space 1 None;
          Rep is_digit 1 None; spaces; Eol false];
    seqs [Bol false; lit_i (py "B-"); Rep is_digit 4 (Some 7);
          Opt (Seq (chr (c_ ".")) (Rep is_digit 1 None)); spaces; Eol false];
    seqs [Bol false; spaces; Rep (N.eqb (c_ "~")) 1 None; spaces; Eol false];
    seqs [Bol false; spaces; Rep (N.eqb 8211%N) 1 None; spaces; Eol false];
    seqs [Bol false; spaces; Rep (N.eqb (c_ "-")) 2 None; spaces; Eol false] ].

Definition drop_rx : regex := alts drop_patterns.

(** [\n\s*B-\d{4,7}(\.\d+)?\s*\n] *)
Definition docket_rx : regex :=
  seqs [chr NL; spaces; lit (py "B-"); Rep is_digit 4 (Some 7);
        Opt (Seq (chr (c_ ".")) (Rep is_digit 1 None)); spaces; chr NL].

Definition dropped (l : text) : bool := is_some (re_search drop_rx l).

Definition clean_report_text (txt : text) : text :=
  if is_empty txt then []
  else
    let lines := map rstrip (split_nl txt) in
    let kept := filter (fun l => negb (dropped l)) lines in
    let txt2 := join_nl kept in
    let txt2 := re_sub docket_rx (fun _ => [NL]) txt2 in
    normalize_text txt2.

(* ================================================================= *)
(** ** Section Segmenter *)

Definition KNOWN_ORDER : list text :=
  [ py "DIGEST"; py "BACKGROUND"; py "DISCUSSION"; py "DECISION";
    py "CONCLUSION"; py "RECOMMENDATION"; py "CONCLUSIONS";
    py "RECOMMENDATIONS" ].

(** [[A-Z0-9]] and [[A-Z0-9\s’'()/\-,.:;]] *)
Definition caps_first (c : char) : bool := is_ascii_upper c || is_ascii_digit c.

Definition caps_rest (c : char) : bool :=
  is_ascii_upper c || is_ascii_digit c || is_space c
  || (c =? 8217)%N || (c =? c_ "'")%N || (c =? c_ "(")%N || (c =? c_ ")")%N
  || (c =? c_ "/")%N || (c =? c_ "-")%N || (c =? c_ ",")%N || (c =? c_ ".")%N
  || (c =? c_ ":")%N || (c =? c_ ";")%N.

(** [(?m)^(?P<cap>[A-Z0-9][A-Z0-9\s’'()/\-,.:;]{3,40})$]; the group [cap]
    is the whole match. *)
Definition CAPS_LINE : regex :=
  seqs [Bol true; Any caps_first; Rep caps_rest 3 (Some 40); Eol true].

(** [(?m)^{re.escape(h)}\s*$] *)
Definition known_rx (h : text) : regex :=
  seqs [Bol true; lit h; spaces; Eol true].

Definition artifact : text := py "U N I T E D  S T A T E S".

Definition known_positions (ft : text) : dict nat :=
  fold_left
    (fun fp h =>
       match re_search (known_rx h) ft with
       | Some m => dict_set h (m_start m) fp
       | None => fp
       end)
    KNOWN_ORDER [].

(** The test of the second loop on one match of [CAPS_LINE]. *)
Definition caps_ok (cap : text) : bool :=
  text_eqb (upper cap) cap && negb (text_eqb cap artifact).

(** The generic candidates, in the order the second loop meets them. *)
Definition caps_candidates (ft : text) : list (text * nat) :=
  filter (fun c => caps_ok (fst c))
    (map (fun m => (strip (group0 m), m_start m)) (re_finditer CAPS_LINE ft)).

Definition record_candidates (cs : list (text * nat)) (fp : dict nat)
    : dict nat :=
  fold_left (fun fp c => dict_setdefault (fst c) (snd c) fp) cs fp.

Definition found_positions (ft : text) : dict nat :=
  record_candidates (caps_candidates ft) (known_positions ft).

(** [sorted(items, key=lambda kv: kv[1])]; Python's sort is stable. *)
Fixpoint insert_by_pos (x : text * nat) (l : list (text * nat))
    : list (text * nat) :=
  match l with
  | [] => [x]
  | y :: l' => if snd x <=? snd y then x :: l else y :: insert_by_pos x l'
  end.

Fixpoint sorted_by_pos (l : list (text * nat)) : list (text * nat) :=
  match l with
  | [] => []
  | x :: l' => insert_by_pos x (sorted_by_pos l')
  end.

(** ["(?m)^(" + "|".join(re.escape(h) for h in ordered) + r")\s*$"] *)
Definition sections_rx (ordered : list text) : regex :=
  seqs [Bol true; alts (map lit ordered); spaces; Eol true].

Definition marks (ft : text) (ordered : list text)
    : list (text * nat * nat) :=
  map (fun m => (strip (group0 m), m_start m, m_end m))
      (re_finditer (sections_rx ordered) ft).

(** The last loop: the body of a mark runs to the start of the next mark,
    or to the end of the text. *)
Fixpoint bodies (ft : text) (ms : list (text * nat * nat)) (out : dict text)
    : dict text :=
  match ms with
  | [] => out
  | (name, _, en) :: rest =>
      let stop :=
        match rest with
        | (_, st', _) :: _ => st'
        | [] => length ft
        end in
      bodies ft rest (dict_set name (strip (slice en stop ft)) out)
  end.

Definition split_sections (full_text : text) : dict text :=
  let ft := normalize_text full_text in
  if is_empty ft then []
  else
    let fp := found_positions ft in
    if is_empty fp then [(py "Full Report Text", ft)]
    else
      let ordered := map fst (sorted_by_pos fp) in
      bodies ft (marks ft ordered) [].

End Normalizer.

(* ================================================================= *)
(** ** Pages, records and the world

    What the module reads from a parsed page ([BeautifulSoup] tree). *)

Record Anchor := {
  href : text;        (* a.get("href", "") *)
  a_text : text       (* a.get_text(strip=True) *)
}.

Record Soup := {
  (** the [<a>] elements carrying an [href] attribute, in document order,
      of [<main>] when the page has one and of the whole page otherwise *)
  main_anchors : list Anchor;
  (** the [href] ([""] when it has none) of the anchor found by
      [select_one("a[rel='next']")] or else by the search for "Next" *)
  next_anchor : option text;
  (** [h1.get_text(strip=True)] of the first [<h1>] *)
  h1 : option text;
  (** [(select_one("main") or soup).get_text(" ", strip=True)] *)
  main_text : text;
  (** the text [extract_expanded_decision_text] picks from the tree *)
  decision_text : text
}.

Record Base := {
  url : text;
  title : text;
  file_number : text;
  date : text
}.

Record DecisionRecord := {
  base : Base;
  pdf_pages : option nat;
  full_text : text;
  sections : dict text
}.

Record Response := {
  status_code : Z;
  page : Soup;              (* BeautifulSoup(r.text, "lxml") *)
  set_cookies : dict text
}.

(** One GET either comes back with a response or raises a transport
    error (a [requests.RequestException]). *)
Inductive outcome :=
| Replied (r : Response)
| Failed (msg : text).

Inductive exn :=
| RequestException (msg : text)
| PermissionError (path : text)
| StopIteration
| KeyboardInterrupt.

(** [except Exception] catches every class but the interrupt. *)
Definition is_Exception (e : exn) : bool :=
  match e with
  | KeyboardInterrupt => false
  | _ => true
  end.

Record Session := {
  headers : dict text;
  cookies : dict text
}.

Record Request := {
  rq_url : text;
  rq_headers : dict text    (* the session's headers under the call's own *)
}.

Inductive log_line :=
| WARN_status (u : text) (code : Z)
| WARN_after_rebuild (u : text) (code : Z)
| WARN_request_failed (u : text) (e : exn)
| WARN_skipping_page (u : text)
| INFO_no_links
| INFO_upto (upto : Z)
| WARN_excel_locked (e : exn)
| WARN_interrupted
| WARN_unexpected (e : exn)
| WARN_final_locked (e : exn)
| OK_csv (path : text) (rows : nat)
| OK_xlsx (path : text) (items : nat).

Record Meta := {
  meta_file_number : text;
  meta_title : text;
  meta_date : text;
  meta_pdf_pages : option nat;
  meta_url : text;
  meta_sections : dict text
}.

Record upload_row := {
  protest_id : text;
  file_metadata : Meta;     (* before json.dumps *)
  file_content : text
}.

Record master_row := {
  x_file_number : text;
  x_title : text;
  x_date : text;
  x_pdf_pages : option nat; (* [None] for the empty cell *)
  x_url : text;
  x_sections : list text    (* one cell per name of KNOWN_ORDER_PREF *)
}.

(** What [write_outputs] hands to the writers of a file: the rows of the
    CSV, or the rows of the Master sheet of the workbook and, in the
    order they are written, the name, the column title and the text of
    every item sheet.  Column widths, frozen panes and cell alignment
    are left out. *)
Inductive content :=
| Csv (rows : list upload_row)
| Xlsx (master : list master_row) (sheets : list (text * text * text)).

Record World := {
  session : Session;        (* the one session the run shares *)
  net : list outcome;       (* what the coming GET requests will meet *)
  dice : list nat;          (* the coming draws of random.choice *)
  sent : list Request;      (* requests issued, oldest first *)
  log : list log_line;      (* lines printed, oldest first *)
  files : dict content
}.

Definition with_session (s : Session) (w : World) : World :=
  {| session := s; net := net w; dice := dice w; sent := sent w;
     log := log w; files := files w |}.
Definition with_net (n : list outcome) (w : World) : World :=
  {| session := session w; net := n; dice := dice w; sent := sent w;
     log := log w; files := files w |}.
Definition with_dice (d : list nat) (w : World) : World :=
  {| session := session w; net := net w; dice := d; sent := sent w;
     log := log w; files := files w |}.
Definition with_sent (q : list Request) (w : World) : World :=
  {| session := session w; net := net w; dice := dice w; sent := q;
     log := log w; files := files w |}.
Definition with_log (l : list log_line) (w : World) : World :=
  {| session := session w; net := net w; dice := dice w; sent := sent w;
     log := l; files := files w |}.
Definition with_files (f : dict content) (w : World) : World :=
  {| session := session w; net := net w; dice := dice w; sent := sent w;
     log := log w; files := f |}.

(** State and exceptions. *)
Definition M (S A : Type) : Type := S -> (A + exn) * S.

Definition ret {S A} (a : A) : M S A := fun s => (inl a, s).

Definition bind {S A B} (m : M S A) (k : A -> M S B) : M S B :=
  fun s =>
    match m s with
    | (inl a, s') => k a s'
    | (inr e, s') => (inr e, s')
    end.

Definition raise {S A} (e : exn) : M S A := fun s => (inr e, s).

(** [try: m  except <classes> as e: h e] *)
Definition try_except {S A} (m : M S A) (catches : exn -> bool)
    (h : exn -> M S A) : M S A :=
  fun s =>
    match m s with
    | (inl a, s') => (inl a, s')
    | (inr e, s') => if catches e then h e s' else (inr e, s')
    end.

(** [try: m  finally: f] *)
Definition try_finally {S A} (m : M S A) (f : M S unit) : M S A :=
  fun s =>
    match m s with
    | (r, s') =>
        match f s' with
        | (inl _, s'') => (r, s'')
        | (inr e, s'') => (inr e, s'')
        end
    end.

Definition gets {S A} (f : S -> A) : M S A := fun s => (inl (f s), s).
Definition modify {S} (f : S -> S) : M S unit := fun s => (inl tt, f s).

Notation "x <- m ;; k" := (bind m (fun x => k))
  (at level 61, m at next level, right associativity).
Notation "m ;;; k" := (bind m (fun _ => k))
  (at level 61, right associativity).

(* ================================================================= *)
(** ** Acquisition layer

    [time.sleep] and [human_sleep] only pass time and are left out. *)

Definition print (l : log_line) : M World unit :=
  modify (fun w => with_log (log w ++ [l]) w).

Definition _UAS : list text :=
  [ py "Mozilla/5.0 (Windows NT 10.0; Win64; x64) AppleWebKit/537.36 (KHTML, like Gecko) Chrome/122.0.0.0 Safari/537.36";
    py "Mozilla/5.0 (Windows NT 10.0; Win64; x64; rv:121.0) Gecko/20100101 Firefox/121.0";
    py "Mozilla/5.0 (Macintosh; Intel Mac OS X 13_6) AppleWebKit/605.1.15 (KHTML, like Gecko) Version/17.2 Safari/605.1.15";
    py "Mozilla/5.0 (X11; Linux x86_64) AppleWebKit/537.36 (KHTML, like Gecko) Chrome/121.0.6167.85 Safari/537.36" ].

(** [random.choice(_UAS)]: the next draw picks the entry. *)
Definition _rand_ua : M World text :=
  fun w =>
    match dice w with
    | d :: ds => (inl (nth (d mod 4) _UAS []), with_dice ds w)
    | [] => (inl (nth 0 _UAS []), w)
    end.

(** [s.get(u, headers=hdrs, timeout=...)] on a session [s]: the request
    goes out with the session's headers under the call's own; a response
    leaves its cookies in the session.  The retries a mounted adapter
    makes on its own happen inside this one call. *)
Definition get_with (s : Session) (u : text) (hdrs : dict text)
    : M World (Response * Session) :=
  fun w =>
    let rq := {| rq_url := u; rq_headers := dict_update (headers s) hdrs |} in
    let w1 := with_sent (sent w ++ [rq]) w in
    match net w with
    | Replied r :: rest =>
        (inl (r, {| headers := headers s;
                    cookies := dict_update (cookies s) (set_cookies r) |}),
         with_net rest w1)
    | Failed msg :: rest => (inr (RequestException msg), with_net rest w1)
    | [] => (inr (RequestException []), w1)
    end.

(** The same call on the shared session. *)
Definition session_get (u : text) (hdrs : dict text) : M World Response :=
  s <- gets session ;;
  rs <- get_with s u hdrs ;;
  modify (with_session (snd rs)) ;;;
  ret (fst rs).

(** The headers [build_session] sets.  The headers a fresh session of
    either library starts with are among these keys, so the update
    leaves this mapping. *)
Definition base_headers (ua : text) : dict text :=
  dict_update []
    [ (py "User-Agent", ua);
      (py "Accept",
       py "text/html,application/xhtml+xml,application/xml;q=0.9,*/*;q=0.8");
      (py "Accept-Language", py "en-US,en;q=0.9");
      (py "Accept-Encoding", py "gzip, deflate, br");
      (py "Connection", py "keep-alive");
      (py "Upgrade-Insecure-Requests", py "1");
      (py "Sec-Fetch-Dest", py "document");
      (py "Sec-Fetch-Mode", py "navigate");
      (py "Sec-Fetch-Site", py "same-origin");
      (py "Sec-Fetch-User", py "?1") ].

(** One warm-up request of [build_session]; its failure is swallowed. *)
Definition warm_up (s : Session) (u : text) : M World Session :=
  try_except (rs <- get_with s u [] ;; ret (snd rs))
             is_Exception
             (fun _ => ret s).

Definition build_session : M World Session :=
  ua <- _rand_ua ;;
  let s := {| headers := base_headers ua; cookies := [] |} in
  s <- warm_up s (py "https://www.gao.gov/") ;;
  s <- warm_up s (py "https://www.gao.gov/search") ;;
  ret s.

Definition _fetch (u : text) : M World Response :=
  let hdrs :=
    if contains (py "/search") u
    then [(py "Referer", py "https://www.gao.gov/")]
    else if contains (py "/products/") u
         then [(py "Referer", py "https://www.gao.gov/search")]
         else [] in
  session_get u hdrs.

Definition set_user_agent (ua : text) : M World unit :=
  modify (fun w =>
    with_session {| headers := dict_set (py "User-Agent") ua (headers (session w));
                    cookies := cookies (session w) |} w).

(** [session.cookies = new_session.cookies];
    [session.headers.update(new_session.headers)] *)
Definition adopt (new_session : Session) : M World unit :=
  modify (fun w =>
    with_session {| headers := dict_update (headers (session w))
                                           (headers new_session);
                    cookies := cookies new_session |} w).

Definition get_html (u : text) : M World (option Soup) :=
  try_except
    (r <- _fetch u ;;
     if (status_code r =? 200)%Z then ret (Some (page r))
     else if (status_code r =? 403)%Z then
       ua <- _rand_ua ;;
       set_user_agent ua ;;;
       r2 <- _fetch u ;;
       if (status_code r2 =? 200)%Z then ret (Some (page r2))
       else
         new_session <- build_session ;;
         rs <- get_with new_session u [] ;;
         let r3 := fst rs in
         if (status_code r3 =? 200)%Z then
           adopt (snd rs) ;;;
           ret (Some (page r3))
         else
           print (WARN_after_rebuild u (status_code r3)) ;;;
           ret None
     else
       print (WARN_status u (status_code r)) ;;;
       ret None)
    is_Exception
    (fun e => print (WARN_request_failed u e) ;;; ret None).

(* ================================================================= *)
(** ** Crawler *)

Definition origin : text := py "https://www.gao.gov".

Definition absolute (h : text) : text :=
  if startswith (py "/") h then origin ++ h else h.

Definition mem (x : text) (l : list text) : bool := existsb (text_eqb x) l.

(** The loop of [collect_result_links_from_page]; [seen] is a set, of
    which only membership is asked. *)
Fixpoint collect_loop (anchors : list Anchor) (links seen : list text)
    : list text :=
  match anchors with
  | [] => links
  | a :: rest =>
      let h := href a in
      let t := a_text a in
      if negb (is_empty h) && contains (py "/products/") h
         && negb (is_empty t) && negb (mem h seen)
      then
        let h := absolute h in
        collect_loop rest (links ++ [h]) (h :: seen)
      else collect_loop rest links seen
  end.

(** [main.select("a[href*='/products/']")] *)
Definition select_products (soup : Soup) : list Anchor :=
  filter (fun a => contains (py "/products/") (href a)) (main_anchors soup).

Definition collect_result_links_from_page (soup : Soup) : list text :=
  collect_loop (select_products soup) [] [].

Definition get_next_page (soup : Soup) : option text :=
  match next_anchor soup with
  | None => None
  | Some h => if is_empty h then None else Some (absolute h)
  end.

(* ================================================================= *)
(** ** Document Extractor *)

Section Extractor.
Context {U : Unicode}.

(** [B-\d{4,7}(?:\.\d+)?] *)
Definition file_rx : regex :=
  seqs [lit (py "B-"); Rep is_digit 4 (Some 7);
        Opt (Seq (chr (c_ ".")) (Rep is_digit 1 None))].

(** [(Jan|Feb|...|Sep|Sept|...|Dec)\s+\d{1,2},\s+\d{4}] *)
Definition date_rx : regex :=
  seqs [alts (map lit [py "Jan"; py "Feb"; py "Mar"; py "Apr"; py "May";
                       py "Jun"; py "Jul"; py "Aug"; py "Sep"; py "Sept";
                       py "Oct"; py "Nov"; py "Dec"]);
        Rep is_space 1 None; Rep is_digit 1 (Some 2); chr (c_ ",");
        Rep is_space 1 None; Rep is_digit 4 (Some 4)].

Definition group0_or_empty (m : option rmatch) : text :=
  match m with Some m => group0 m | None => [] end.

Definition get_title_file_date_from_doc (soup : Soup) : text * text * text :=
  let title := match h1 soup with Some t => t | None => [] end in
  let file_no := group0_or_empty (re_search file_rx (main_text soup)) in
  let date := group0_or_empty (re_search date_rx (main_text soup)) in
  (title, file_no, date).

Definition extract_expanded_decision_text (soup : Soup) : text :=
  decision_text soup.

Definition scrape_item_with_bs (u : text) : M World DecisionRecord :=
  soup <- get_html u ;;
  match soup with
  | None =>
      ret {| base := {| url := u; title := []; file_number := []; date := [] |};
             pdf_pages := None;
             full_text := [];
             sections := [] |}
  | Some soup =>
      let '(title, file_no, date) := get_title_file_date_from_doc soup in
      let raw := extract_expanded_decision_text soup in
      let cleaned := clean_report_text raw in
      let sections := split_sections cleaned in
      ret {| base := {| url := u; title := title; file_number := file_no;
                        date := date |};
             pdf_pages := None;
             full_text := normalize_text cleaned;
             sections := sections |}
  end.

End Extractor.

(* ================================================================= *)
(** ** Output collaborators and the Pipeline Driver *)

(** [os.path.splitext] (POSIX flavour): the extension starts at the last
    dot of the last path component, leading dots apart. *)
Fixpoint rfind_from (c : char) (s : text) (i : Z) (last : Z) : Z :=
  match s with
  | [] => last
  | x :: s' => rfind_from c s' (i + 1)%Z (if (x =? c)%N then i else last)
  end.

Definition rfind (c : char) (s : text) : Z := rfind_from c s 0%Z (-1)%Z.

Definition splitext (p : text) : text * text :=
  let sepIndex := rfind (c_ "/") p in
  let dotIndex := rfind (c_ ".") p in
  if (sepIndex <? dotIndex)%Z
     && negb (forallb (N.eqb (c_ "."))
                (slice (Z.to_nat (sepIndex + 1)) (Z.to_nat dotIndex) p))
  then (firstn (Z.to_nat dotIndex) p, skipn (Z.to_nat dotIndex) p)
  else (p, []).

(** [f"{base}_partial{ext}"] *)
Definition partial_name (out_xlsx : text) : text :=
  let '(b, ext) := splitext out_xlsx in b ++ py "_partial" ++ ext.

Record Driver := {
  world : World;
  records : list DecisionRecord;
  processed : Z
}.

Definition lift {A} (m : M World A) : M Driver A :=
  fun d =>
    match m (world d) with
    | (r, w') =>
        (r, {| world := w'; records := records d; processed := processed d |})
    end.

Inductive loop_end := Finished | OutOfFuel.

Section Driver.
Context {U : Unicode}.

(** The paths another process holds open: writing one of them raises
    [PermissionError]. *)
Variable locked : text -> bool.

Definition KNOWN_ORDER_PREF : list text :=
  [ py "DIGEST"; py "BACKGROUND"; py "DISCUSSION"; py "DECISION";
    py "CONCLUSION"; py "RECOMMENDATION" ].

Definition get_or_empty (k : text) (d : dict text) : text :=
  match dict_get k d with Some v => v | None => [] end.

Definition sections_clean (secs : dict text) : dict text :=
  map (fun kv => (fst kv, sanitize_for_json (Some (snd kv))))
    (filter
       (fun kv => negb (is_empty (snd kv)) && negb (is_empty (strip (snd kv)))
                  && negb (text_eqb (fst kv) (py "Full Report Text")))
       secs).

Definition upload_row_of (r : DecisionRecord) : upload_row :=
  {| protest_id := [];
     file_metadata :=
       {| meta_file_number := file_number (base r);
          meta_title := title (base r);
          meta_date := date (base r);
          meta_pdf_pages := pdf_pages r;
          meta_url := url (base r);
          meta_sections := sections_clean (sections r) |};
     file_content := sanitize_for_json (Some (full_text r)) |}.

Definition master_row_of (r : DecisionRecord) : master_row :=
  {| x_file_number := sanitize_for_excel (Some (file_number (base r)));
     x_title := sanitize_for_excel (Some (title (base r)));
     x_date := sanitize_for_excel (Some (date (base r)));
     x_pdf_pages := match pdf_pages r with Some O => None | p => p end;
     x_url := url (base r);
     x_sections :=
       map (fun k => sanitize_for_excel (Some (get_or_empty k (sections r))))
           KNOWN_ORDER_PREF |}.

Definition csv_of (rs : list DecisionRecord) : content :=
  Csv (map upload_row_of rs).

(** [a or b] on strings *)
Definition or_else (a b : text) : text := if is_empty a then b else a.

(** [f"Item {idx}"] *)
Definition item_name (idx : nat) : text :=
  py "Item " ++ py (DecimalString.NilEmpty.string_of_uint (Nat.to_uint idx)).

(** [[\\/*?:\[\]]] *)
Definition sheet_class (c : char) : bool :=
  (c =? 92)%N || (c =? c_ "/")%N || (c =? c_ "*")%N || (c =? c_ "?")%N
  || (c =? c_ ":")%N || (c =? c_ "[")%N || (c =? c_ "]")%N.

Definition sheet_name_of (row : master_row) (idx : nat) : text :=
  or_else
    (firstn 31
       (re_sub (Any sheet_class) (fun _ => py "_")
          (or_else (x_file_number row)
             (or_else (x_title row) (item_name idx)))))
    (item_name idx).

(** The dashes of the title are U+2013. *)
Definition col_title_of (row : master_row) (sheet_name : text) : text :=
  py "GAO Bid Protest Decision " ++ [8211%N] ++ py " "
  ++ or_else (x_title row) (or_else (x_file_number row) sheet_name)
  ++ py " " ++ [8211%N] ++ py " Complete Text".

(** [sheet_map], from [enumerate(records, idx)] on. *)
Fixpoint sheet_map (idx : nat) (rs : list DecisionRecord)
    : list (text * text * text) :=
  match rs with
  | [] => []
  | r :: rest =>
      let row := master_row_of r in
      let sheet_name := sheet_name_of row idx in
      (sheet_name, col_title_of row sheet_name,
       sanitize_for_excel (Some (full_text r)))
      :: sheet_map (S idx) rest
  end.

Definition xlsx_of (rs : list DecisionRecord) : content :=
  Xlsx (map master_row_of rs) (sheet_map 1 rs).

Definition write_file (path : text) (c : content) : M World unit :=
  fun w =>
    if locked path then (inr (PermissionError path), w)
    else (inl tt, with_files (dict_set path c (files w)) w).

Definition write_outputs (rs : list DecisionRecord) (out_csv out_xlsx : text)
    : M World unit :=
  write_file out_csv (csv_of rs) ;;;
  print (OK_csv out_csv (length rs)) ;;;
  if is_empty out_xlsx then ret tt
  else
    write_file out_xlsx (xlsx_of rs) ;;;
    print (OK_xlsx out_xlsx (length rs)).

Definition is_PermissionError (e : exn) : bool :=
  match e with PermissionError _ => true | _ => false end.

(** [try: write_outputs(...)  except PermissionError: ... fallback] *)
Definition flush (warn : exn -> log_line) (out_csv out_xlsx : text)
    : M Driver unit :=
  rs <- gets records ;;
  lift (try_except (write_outputs rs out_csv out_xlsx)
          is_PermissionError
          (fun pe =>
             print (warn pe) ;;;
             write_outputs rs out_csv (partial_name out_xlsx))).

(** The body of the [for] loop after the budget test. *)
Definition process_url (out_csv out_xlsx : text) (u : text) : M Driver unit :=
  rec <- lift (scrape_item_with_bs u) ;;
  modify (fun d => {| world := world d;
                      records := records d ++ [rec];
                      processed := processed d |}) ;;;
  modify (fun d => {| world := world d;
                      records := records d;
                      processed := (processed d + 1)%Z |}) ;;;
  flush WARN_excel_locked out_csv out_xlsx.

Definition budget_reached (upto p : Z) : bool :=
  negb (upto =? 0)%Z && (upto <=? p)%Z.

Fixpoint for_links (out_csv out_xlsx : text) (upto : Z) (links : list text)
    : M Driver unit :=
  match links with
  | [] => ret tt
  | u :: rest =>
      p <- gets processed ;;
      if budget_reached upto p then
        lift (print (INFO_upto upto)) ;;;
        raise StopIteration
      else
        process_url out_csv out_xlsx u ;;;
        for_links out_csv out_xlsx upto rest
  end.

(** The [while page_url:] loop; the fuel bounds the number of index
    pages visited. *)
Fixpoint pages (fuel : nat) (out_csv out_xlsx : text) (max_pages upto : Z)
    (page_url : text) (page_num : Z) : M Driver loop_end :=
  match fuel with
  | O => ret OutOfFuel
  | S fuel' =>
      if is_empty page_url then ret Finished
      else
        soup <- lift (get_html page_url) ;;
        match soup with
        | None =>
            lift (print (WARN_skipping_page page_url)) ;;;
            ret Finished
        | Some soup =>
            let links := collect_result_links_from_page soup in
            if is_empty links then
              lift (print INFO_no_links) ;;;
              ret Finished
            else
              for_links out_csv out_xlsx upto links ;;;
              let page_num := (page_num + 1)%Z in
              if negb (max_pages =? 0)%Z && (max_pages <? page_num)%Z
              then ret Finished
              else
                match get_next_page soup with
                | None => ret Finished
                | Some nxt =>
                    pages fuel' out_csv out_xlsx max_pages upto nxt page_num
                end
        end
  end.

(** The three [except] clauses of [run], first match first. *)
Definition run_handler (e : exn) : M Driver loop_end :=
  match e with
  | StopIteration => ret Finished
  | KeyboardInterrupt => lift (print WARN_interrupted) ;;; ret Finished
  | _ => lift (print (WARN_unexpected e)) ;;; ret Finished
  end.

Definition run_from (fuel : nat) (search_url out_csv out_xlsx : text)
    (max_pages upto : Z) : M Driver loop_end :=
  s <- lift build_session ;;
  lift (modify (with_session s)) ;;;
  try_finally
    (try_except
       (pages fuel out_csv out_xlsx max_pages upto search_url 1%Z)
       (fun _ => true)
       run_handler)
    (flush WARN_final_locked out_csv out_xlsx).

(** [run]: the local variables start empty. *)
Definition run (fuel : nat) (search_url out_csv out_xlsx : text)
    (max_pages upto : Z) (w : World) : (loop_end + exn) * Driver :=
  run_from fuel search_url out_csv out_xlsx max_pages upto
    {| world := w; records := []; processed := 0%Z |}.

End Driver.

(* ================================================================= *)
(** ** Vocabulary of the statements

    Definitions the properties below are stated with: none of them is
    part of the module. *)

(** The characters the sanitizers keep: everything but the C0 controls
    other than tab, line feed and carriage return. *)
Definition kept_char (c : char) : bool :=
  negb (c <? 32)%N || (c =? 9)%N || (c =? 10)%N || (c =? 13)%N.

(** Leading characters of a set. *)
Fixpoint lead (p : char -> bool) (s : text) : nat :=
  match s with
  | c :: s' => if p c then S (lead p s') else 0
  | [] => 0
  end.

(** No three newlines in a row from any position on. *)
Fixpoint no3 (s : text) : bool :=
  match s with
  | [] => true
  | _ :: s' => (lead is_nl s <? 3) && no3 s'
  end.

Definition named {V} (k : text) (c : text * V) : bool := text_eqb k (fst c).

(** The names and bodies the last loop writes, in order. *)
Fixpoint mark_bodies (ft : text) (ms : list (text * nat * nat))
    : list (text * text) :=
  match ms with
  | [] => []
  | (name, _, en) :: rest =>
      let stop :=
        match rest with
        | (_, st', _) :: _ => st'
        | [] => length ft
        end in
      (name, strip (slice en stop ft)) :: mark_bodies ft rest
  end.


(** A stretch of heading characters: the characters [CAPS_LINE] takes,
    the first of them an uppercase letter or a digit. *)
Definition heading_like (m : text) : bool :=
  match m with
  | c :: _ => caps_first c && forallb caps_rest m
  | [] => false
  end.

(** Some stretch of heading characters runs from a line start of [a] to
    the end of [a]; [pre] is what stands before [a], nearest first. *)
Fixpoint heading_run (pre a : text) : bool :=
  match a with
  | [] => false
  | c :: a' => (at_bol true pre && heading_like a) || heading_run (c :: pre) a'
  end.

(** A "Page N" footer and a bare docket-number line, as the spec names
    them. *)
Definition page_footer (l : text) : Prop :=
  exists ds, ds <> [] /\ forallb is_ascii_digit ds = true
             /\ l = py "Page " ++ ds.

Definition bare_docket (l : text) : Prop :=
  exists ds, 4 <= length ds <= 7 /\ forallb is_ascii_digit ds = true
             /\ l = py "B-" ++ ds.

(** [l] is the first line of [t]. *)
Definition first_line_is (l t : text) : Prop :=
  t = l \/ exists r, t = l ++ NL :: r.

Definition DISCUSSION : text := [68; 73; 83; 67; 85; 83; 83; 73; 79; 78]%N.

(** The page with the same relative link twice. *)
Definition page_with_repeated_link : Soup :=
  {| main_anchors :=
       [ {| href := py "/products/b-423001"; a_text := py "B-423001" |};
         {| href := py "/products/b-423001"; a_text := py "B-423001" |} ];
     next_anchor := None;
     h1 := None;
     main_text := [];
     decision_text := [] |}.

(** The user agent the next draw picks. *)
Definition next_ua (ds : list nat) : text :=
  match ds with
  | d :: _ => nth (d mod 4) _UAS []
  | [] => nth 0 _UAS []
  end.

(** The cookies a request leaves, if it is answered. *)
Definition cookies_of (o : outcome) : dict text :=
  match o with
  | Replied r => set_cookies r
  | Failed _ => []
  end.





(** The state in which the loop of [run] starts. *)
Definition started (w : World) : Driver :=
  snd ((s <- lift build_session ;; lift (modify (with_session s)))
         {| world := w; records := []; processed := 0%Z |}).

Definition unlocked : text -> bool := fun _ => false.

Definition blank_session : Session := {| headers := []; cookies := [] |}.

Definition document (body : text) : Soup :=
  {| main_anchors := []; next_anchor := None; h1 := Some (py "Decision");
     main_text := py "Decision B-423001 Jan 5, 2024"; decision_text := body |}.

Definition index_page (links : list text) (next : option text) : Soup :=
  {| main_anchors := map (fun h => {| href := h; a_text := py "Decision" |}) links;
     next_anchor := next; h1 := None; main_text := []; decision_text := [] |}.

Definition answered (s : Soup) : outcome :=
  Replied {| status_code := 200; page := s; set_cookies := [] |}.

(** A network that is down. *)
Definition offline : World :=
  {| session := blank_session; net := [Failed []]; dice := []; sent := [];
     log := []; files := [] |}.

(** Two index pages of five documents each, after the two warm-up
    requests. *)
Definition two_pages : World :=
  {| session := blank_session;
     net :=
       [ answered (document []); answered (document []);
         answered (index_page
                     [py "/products/b-1"; py "/products/b-2"; py "/products/b-3";
                      py "/products/b-4"; py "/products/b-5"]
                     (Some (py "/search?page=1"))) ]
       ++ repeat (answered (document (py "DIGEST\nDenied."))) 5
       ++ [ answered (index_page
                        [py "/products/b-6"; py "/products/b-7";
                         py "/products/b-8"; py "/products/b-9";
                         py "/products/b-10"]
                        None) ]
       ++ repeat (answered (document (py "DIGEST\nSustained."))) 5;
     dice := []; sent := []; log := []; files := [] |}.

(** A text as [normalize_text] leaves it: no carriage return, no three
    newlines in a row, no white space at either end. *)
Definition tidy (t : text) : Prop :=
  Forall (fun c => c <> CR) t
  /\ (forall a b, t <> a ++ NL :: NL :: NL :: b)
  /\ strip t = t.

(** [v] is a contiguous piece of [t]. *)
Definition piece_of (v t : text) : Prop := exists a b, t = a ++ v ++ b.

(** The pages [build_session] warms a session up with. *)
Definition warm_urls : list text :=
  [py "https://www.gao.gov/"; py "https://www.gao.gov/search"].

(** The month abbreviations of the date pattern. *)
Definition month_names : list text :=
  [py "Jan"; py "Feb"; py "Mar"; py "Apr"; py "May"; py "Jun"; py "Jul";
   py "Aug"; py "Sep"; py "Sept"; py "Oct"; py "Nov"; py "Dec"].


Section Vocabulary.
Context {U : Unicode}.

(** A word character that is not white space. *)
Definition word_char (c : char) : bool := is_word c && negb (is_space c).

Definition collapse (pre s : text) : text :=
  sub_from newlines_rx (fun _ => [NL; NL]) 0 pre s.

(** The known headings found, in the order of the first loop. *)
Definition hits (ft : text) (hs : list text) : list (text * nat) :=
  flat_map
    (fun h =>
       match re_search (known_rx h) ft with
       | Some m => [(h, m_start m)]
       | None => []
       end)
    hs.

Definition known_hits (ft : text) : list (text * nat) := hits ft KNOWN_ORDER.


(** [clean_report_text] from the lines on. *)
Definition clean_lines (ls : list text) : text :=
  normalize_text
    (re_sub docket_rx (fun _ => [NL])
       (join_nl (filter (fun l => negb (dropped l)) (map rstrip ls)))).

(** The lines [clean_report_text] keeps. *)
Definition kept_lines (txt : text) : list text :=
  filter (fun l => negb (dropped l)) (map rstrip (split_nl txt)).

(** [split_sections] after the normalisation. *)
Definition segment (ft : text) : dict text :=
  if is_empty ft then []
  else
    let fp := found_positions ft in
    if is_empty fp then [(py "Full Report Text", ft)]
    else bodies ft (marks ft (map fst (sorted_by_pos fp))) [].

Variable locked : text -> bool.
Variables out_csv out_xlsx : text.
Variable max_pages : Z.

(** What follows the [for] loop on one index page. *)
Definition after_links (fuel : nat) (upto : Z) (soup : Soup) (page_num : Z)
    : M Driver loop_end :=
  if negb (max_pages =? 0)%Z && (max_pages <? page_num + 1)%Z
  then ret Finished
  else
    match get_next_page soup with
    | None => ret Finished
    | Some nxt => pages locked fuel out_csv out_xlsx max_pages upto nxt (page_num + 1)%Z
    end.

End Vocabulary.

(* ================================================================= *)
(** * Properties *)

(** ** Text and dictionaries *)

Lemma text_eqb_eq (a b : text) : text_eqb a b = true <-> a = b.
Proof. unfold text_eqb; destruct (text_eq_dec a b); split; congruence. Qed.

Lemma text_eqb_refl (a : text) : text_eqb a a = true.
Proof. now apply text_eqb_eq. Qed.

Lemma text_eqb_neq (a b : text) : text_eqb a b = false <-> a <> b.
Proof. unfold text_eqb; destruct (text_eq_dec a b); split; congruence. Qed.

Lemma is_empty_true {A} (s : list A) : is_empty s = true <-> s = [].
Proof. destruct s; simpl; split; congruence. Qed.

Lemma is_empty_false {A} (s : list A) : is_empty s = false <-> s <> [].
Proof. destruct s; simpl; split; congruence. Qed.

Lemma lstrip_suffix (s : text) : exists l, s = l ++ lstrip s.
Proof.
  induction s as [|c s IH]; simpl.
  - now exists [].
  - destruct (is_space c).
    + destruct IH as [l Hl]. exists (c :: l). simpl. now f_equal.
    + now exists [].
Qed.

Lemma rstrip_prefix (s : text) : exists r, s = rstrip s ++ r.
Proof.
  unfold rstrip. destruct (lstrip_suffix (rev s)) as [l Hl].
  exists (rev l). rewrite <- rev_app_distr, <- Hl. now rewrite rev_involutive.
Qed.

Lemma lstrip_suffix_spaces (s : text) :
  exists l, s = l ++ lstrip s /\ forallb is_space l = true.
Proof.
  induction s as [|c s IH]; simpl.
  - now exists [].
  - destruct (is_space c) eqn:E.
    + destruct IH as (l & Hl & Hs). exists (c :: l). simpl.
      rewrite E, Hs. split; [now f_equal | reflexivity].
    + now exists [].
Qed.

Lemma rstrip_prefix_spaces (s : text) :
  exists r, s = rstrip s ++ r /\ forallb is_space r = true.
Proof.
  unfold rstrip. destruct (lstrip_suffix_spaces (rev s)) as (l & Hl & Hs).
  exists (rev l). split.
  - rewrite <- rev_app_distr, <- Hl. now rewrite rev_involutive.
  - rewrite forallb_forall in *. intros c Hc. apply Hs. now apply in_rev.
Qed.

Lemma strip_infix (s : text) : exists l r, s = l ++ strip s ++ r.
Proof.
  unfold strip. destruct (lstrip_suffix s) as [l Hl].
  destruct (rstrip_prefix (lstrip s)) as [r Hr].
  exists l, r. now rewrite <- Hr.
Qed.

Lemma strip_Forall (P : char -> Prop) (s : text) :
  Forall P s -> Forall P (strip s).
Proof.
  intros H. destruct (strip_infix s) as (l & r & E). rewrite E in H.
  apply Forall_app in H as [_ H]. now apply Forall_app in H as [H _].
Qed.

Lemma lstrip_length (s : text) : length (lstrip s) <= length s.
Proof.
  destruct (lstrip_suffix s) as [l E]. rewrite E at 2. rewrite length_app. lia.
Qed.

Lemma lstrip_idem (s : text) : lstrip (lstrip s) = lstrip s.
Proof.
  induction s as [|c s IH]; simpl; auto.
  destruct (is_space c) eqn:E; auto. simpl. now rewrite E.
Qed.

Lemma lstrip_snoc (a : text) (c : char) :
  is_space c = false -> lstrip (a ++ [c]) = lstrip a ++ [c].
Proof.
  intros H. induction a as [|x a IH]; simpl.
  - now rewrite H.
  - destruct (is_space x); auto.
Qed.

Lemma rstrip_cons_word (c : char) (w : text) :
  is_space c = false -> rstrip (c :: w) = c :: rstrip w.
Proof.
  intros H. unfold rstrip. simpl rev. rewrite lstrip_snoc by assumption.
  rewrite rev_app_distr. reflexivity.
Qed.

Lemma rstrip_app_word (a w : text) :
  forallb (fun c => negb (is_space c)) a = true ->
  rstrip (a ++ w) = a ++ rstrip w.
Proof.
  induction a as [|c a IH]; simpl; intros H; auto.
  apply andb_true_iff in H as [Hc Ha].
  rewrite rstrip_cons_word by (now destruct (is_space c)).
  now rewrite IH.
Qed.

Lemma lstrip_all_space (s : text) :
  forallb is_space s = true -> lstrip s = [].
Proof.
  induction s as [|c s IH]; simpl; auto.
  intros H. apply andb_true_iff in H as [Hc Hs]. rewrite Hc. auto.
Qed.

Lemma rstrip_all_space (s : text) :
  forallb is_space s = true -> rstrip s = [].
Proof.
  intros H. unfold rstrip. rewrite lstrip_all_space; auto.
  rewrite forallb_forall in *. intros c Hc. apply H. now apply in_rev.
Qed.

Lemma lstrip_fixed_head (c : char) (w : text) :
  lstrip (c :: w) = c :: w -> is_space c = false.
Proof.
  simpl. destruct (is_space c); auto. intros E.
  pose proof (lstrip_length w) as L. rewrite E in L. simpl in L. lia.
Qed.

Lemma lstrip_rstrip (w : text) : lstrip w = w -> lstrip (rstrip w) = rstrip w.
Proof.
  destruct w as [|c w]; intros H.
  - reflexivity.
  - apply lstrip_fixed_head in H. rewrite rstrip_cons_word by assumption.
    simpl. now rewrite H.
Qed.

Lemma rstrip_idem (w : text) : rstrip (rstrip w) = rstrip w.
Proof. unfold rstrip. now rewrite rev_involutive, lstrip_idem. Qed.

Lemma strip_idem (s : text) : strip (strip s) = strip s.
Proof.
  unfold strip. rewrite lstrip_rstrip by apply lstrip_idem. apply rstrip_idem.
Qed.

Lemma lead_le_length p s : lead p s <= length s.
Proof. induction s as [|c s IH]; simpl; [lia | destruct (p c); lia]. Qed.

Lemma lead_skipn p s : lead p (skipn (lead p s) s) = 0.
Proof.
  induction s as [|c s IH]; simpl; auto.
  destruct (p c) eqn:E; simpl; auto. now rewrite E.
Qed.

Lemma lead_app_ge p a b : lead p a <= lead p (a ++ b).
Proof. induction a as [|c a IH]; simpl; [lia | destruct (p c); lia]. Qed.

Lemma lead_firstn p s : forallb p (firstn (lead p s) s) = true.
Proof.
  induction s as [|c s IH]; simpl; auto.
  destruct (p c) eqn:E; simpl; auto. now rewrite E.
Qed.

(** ** The matcher *)

Section MatcherFacts.
Context {U : Unicode}.

Lemma sub_from_cons0 r repl pre c s :
  sub_from r repl 0 pre (c :: s) =
  match match_at r pre (c :: s) with
  | Some len =>
      repl (firstn len (c :: s)) ++
      (if len =? 0 then [c] else []) ++ sub_from r repl (len - 1) (c :: pre) s
  | None => c :: sub_from r repl 0 (c :: pre) s
  end.
Proof. reflexivity. Qed.

Lemma sub_from_nil0 r repl pre :
  sub_from r repl 0 pre [] =
  match match_at r pre [] with
  | Some len => repl (firstn len []) ++ []
  | None => []
  end.
Proof. reflexivity. Qed.

Lemma finditer_from_cons0 r pre c s :
  finditer_from r 0 pre (c :: s) =
  match match_at r pre (c :: s) with
  | Some len => mk_match pre (c :: s) len :: finditer_from r (len - 1) (c :: pre) s
  | None => finditer_from r 0 (c :: pre) s
  end.
Proof. reflexivity. Qed.

Lemma match_at_any p pre c s :
  match_at (Any p) pre (c :: s) = if p c then Some 1 else None.
Proof.
  unfold match_at. cbn [mt]. destruct (p c); auto. f_equal.
  cbn [length]. lia.
Qed.

Lemma match_at_any_nil p pre : match_at (Any p) pre [] = None.
Proof. reflexivity. Qed.

(** Deleting the characters of a set is a filter. *)
Lemma sub_any_delete p s :
  forall pre, sub_from (Any p) (fun _ => []) 0 pre s
              = filter (fun c => negb (p c)) s.
Proof.
  induction s as [|c s IH]; intros pre.
  - reflexivity.
  - rewrite sub_from_cons0, match_at_any. simpl.
    destruct (p c); simpl; now rewrite IH.
Qed.

(** Where the pattern matches nowhere, substitution changes nothing. *)
Lemma sub_no_match r repl s :
  forall pre, search_from r pre s = None -> sub_from r repl 0 pre s = s.
Proof.
  induction s as [|c s IH]; intros pre H.
  - rewrite sub_from_nil0. simpl in H.
    destruct (match_at r pre []); [discriminate | reflexivity].
  - rewrite sub_from_cons0. simpl in H.
    destruct (match_at r pre (c :: s)); [discriminate |].
    f_equal. now apply IH.
Qed.

Lemma firstn_Forall (P : char -> Prop) n (s : text) :
  Forall P s -> Forall P (firstn n s).
Proof.
  intros H. rewrite <- (firstn_skipn n s) in H.
  now apply Forall_app in H as [H _].
Qed.

(** Substitution only keeps characters of the subject or writes
    characters of the replacement. *)
Lemma sub_Forall (P : char -> Prop) r repl :
  (forall m, Forall P m -> Forall P (repl m)) ->
  forall s skip pre, Forall P s -> Forall P (sub_from r repl skip pre s).
Proof.
  intros Hrepl. induction s as [|c s IH]; intros skip pre H.
  - destruct skip; simpl; auto.
    destruct (match_at r pre []); auto.
    rewrite app_nil_r. apply Hrepl. destruct n; simpl; auto.
  - inversion H as [|? ? Hc Hs]; subst. destruct skip.
    + rewrite sub_from_cons0.
      destruct (match_at r pre (c :: s)) as [len|].
      * apply Forall_app; split.
        -- apply Hrepl. now apply firstn_Forall.
        -- apply Forall_app; split; [destruct (len =? 0); auto | now apply IH].
      * constructor; auto.
    + simpl. now apply IH.
Qed.

(** Passing the rest of a match. *)
Lemma sub_skip r repl :
  forall n s pre, n <= length s ->
    sub_from r repl n pre s
    = sub_from r repl 0 (rev (firstn n s) ++ pre) (skipn n s).
Proof.
  induction n as [|n IH]; intros s pre H.
  - reflexivity.
  - destruct s as [|c s]; simpl in H; [lia |].
    simpl. rewrite IH by lia. now rewrite <- app_assoc.
Qed.

(** A greedy unbounded repetition at the end of a pattern takes the whole
    run. *)
Lemma m_rep_unbounded_len (p : char -> bool) (pre0 s : text) :
  forall lo pre,
    m_rep p lo None
      (fun (pre' _ : text) => Some (length pre' - length pre0)) pre s
    = if lo <=? lead p s
      then Some (length pre + lead p s - length pre0)
      else None.
Proof.
  induction s as [|c s IH]; intros lo pre.
  - cbn [m_rep lead]. destruct lo; cbn [Nat.leb]; try reflexivity.
    f_equal. lia.
  - cbn [m_rep lead room andb]. destruct (p c) eqn:E; cbn [andb].
    + rewrite IH. cbn [length].
      destruct lo as [|lo]; cbn [pred Nat.leb].
      * f_equal. lia.
      * destruct (lo <=? lead p s) eqn:L; try reflexivity. f_equal. lia.
    + destruct lo; cbn [Nat.leb]; try reflexivity. f_equal. lia.
Qed.

End MatcherFacts.

(** ** Output sanitizers *)

Ltac ncases :=
  repeat (match goal with
          | |- context [(?a <=? ?b)%N] => destruct (N.leb_spec a b)
          | |- context [(?a <? ?b)%N] => destruct (N.ltb_spec a b)
          | |- context [(?a =? ?b)%N] => destruct (N.eqb_spec a b)
          end; try lia);
  simpl; try reflexivity; try lia.

Lemma control_class_kept (c : char) : negb (control_class c) = kept_char c.
Proof. unfold control_class, kept_char, between. ncases. Qed.

Section SanitizerFacts.
Context {U : Unicode}.

(** C10. The two sanitizers return the same string on every input; on
    [None] it is the empty string, and on a string it is that string
    without its C0 control characters other than tab (9), line feed (10)
    and carriage return (13), every other character staying in place. *)
Theorem sanitizers_agree_and_keep_layout (s : option text) :
  sanitize_for_json s = sanitize_for_excel s
  /\ sanitize_for_excel s
     = match s with
       | None => []
       | Some t => filter kept_char t
       end.
Proof.
  split; [reflexivity |].
  destruct s as [t|]; [| reflexivity].
  unfold sanitize_for_excel, re_sub. rewrite sub_any_delete.
  apply filter_ext. intros c. apply control_class_kept.
Qed.

End SanitizerFacts.

(** ** Normalisation *)

Lemma no3_app_r a b : no3 (a ++ b) = true -> no3 b = true.
Proof.
  induction a as [|c a IH]; auto.
  cbn [app no3]. intros H. apply andb_true_iff in H as [_ H]. auto.
Qed.

Lemma no3_app_l a b : no3 (a ++ b) = true -> no3 a = true.
Proof.
  induction a as [|c a IH]; auto.
  change ((c :: a) ++ b) with (c :: a ++ b).
  cbn [no3]. intros H. apply andb_true_iff in H as [H1 H2].
  apply andb_true_iff; split; auto.
  apply Nat.ltb_lt in H1. apply Nat.ltb_lt.
  pose proof (lead_app_ge is_nl (c :: a) b). simpl app in *. lia.
Qed.

Lemma no3_strip s : no3 s = true -> no3 (strip s) = true.
Proof.
  intros H. destruct (strip_infix s) as (l & r & E). rewrite E in H.
  apply no3_app_r in H. now apply no3_app_l in H.
Qed.

Section NormalizerFacts.
Context {U : Unicode}.

Lemma match_at_newlines pre s :
  match_at newlines_rx pre s
  = if 3 <=? lead is_nl s then Some (lead is_nl s) else None.
Proof.
  unfold match_at, newlines_rx. cbn [mt].
  rewrite m_rep_unbounded_len.
  destruct (3 <=? lead is_nl s); auto. f_equal. lia.
Qed.

Lemma no3_search s :
  forall pre, no3 s = true -> search_from newlines_rx pre s = None.
Proof.
  induction s as [|c s IH]; intros pre H.
  - cbn [search_from]. now rewrite match_at_newlines.
  - cbn [search_from]. rewrite match_at_newlines.
    cbn [no3] in H. apply andb_true_iff in H as [H1 H2].
    apply Nat.ltb_lt in H1.
    destruct (Nat.leb_spec 3 (lead is_nl (c :: s))); [lia |].
    now apply IH.
Qed.

Lemma collapse_shape n :
  forall s pre, length s <= n ->
    lead is_nl (collapse pre s) = Nat.min (lead is_nl s) 2
    /\ no3 (collapse pre s) = true.
Proof.
  induction n as [|n IH]; intros s pre L.
  - destruct s; [| simpl in L; lia].
    unfold collapse. rewrite sub_from_nil0, match_at_newlines. now simpl.
  - destruct s as [|c s].
    { unfold collapse. rewrite sub_from_nil0, match_at_newlines. now simpl. }
    simpl in L. unfold collapse. rewrite sub_from_cons0, match_at_newlines.
    destruct (Nat.leb_spec 3 (lead is_nl (c :: s))) as [H3|H3].
    + assert (Hc : is_nl c = true).
      { cbn [lead] in H3. destruct (is_nl c); [reflexivity | lia]. }
      assert (E : lead is_nl (c :: s) = S (lead is_nl s))
        by (cbn [lead]; now rewrite Hc).
      rewrite E. cbn [Nat.eqb app Nat.sub]. rewrite Nat.sub_0_r.
      rewrite sub_skip by apply lead_le_length.
      pose proof (lead_le_length is_nl s) as Ll.
      destruct (IH (skipn (lead is_nl s) s)
                   (rev (firstn (lead is_nl s) s) ++ c :: pre)) as [A B].
      { rewrite length_skipn. lia. }
      fold (collapse (rev (firstn (lead is_nl s) s) ++ c :: pre)
                     (skipn (lead is_nl s) s)).
      rewrite lead_skipn in A. simpl in A.
      split.
      * cbn [lead]. change (is_nl NL) with true. cbv iota. rewrite A. lia.
      * cbn [no3 lead]. change (is_nl NL) with true. cbv iota.
        rewrite A, B. reflexivity.
    + destruct (IH s (c :: pre)) as [A B]; [lia |].
      fold (collapse (c :: pre) s).
      cbn [lead] in H3 |- *. cbn [no3 lead].
      destruct (is_nl c).
      * rewrite A, B. split; [lia |].
        apply andb_true_iff; split; auto. apply Nat.ltb_lt. lia.
      * split; auto.
Qed.

Lemma remove_cr_fixed s :
  Forall (fun c => c <> CR) s -> remove_cr s = s.
Proof.
  induction 1 as [|c s Hc _ IH]; simpl; auto.
  destruct (N.eqb_spec c CR); [contradiction |]. simpl. now rewrite IH.
Qed.

Lemma remove_cr_clean s : Forall (fun c => c <> CR) (remove_cr s).
Proof.
  unfold remove_cr. apply Forall_forall. intros c Hc.
  apply filter_In in Hc as [_ Hc]. destruct (N.eqb_spec c CR); auto.
  discriminate.
Qed.

Lemma groups_1_2_Forall (P : char -> Prop) m :
  Forall P m -> Forall P (groups_1_2 m).
Proof.
  intros H. unfold groups_1_2. apply Forall_app; split.
  - now apply firstn_Forall.
  - apply firstn_Forall. rewrite <- (firstn_skipn 3 m) in H.
    now apply Forall_app in H as [_ H].
Qed.

(** What [normalize_text] returns has no carriage return, no run of three
    newlines, and no white space at either end. *)
Lemma normalize_text_no_cr x : Forall (fun c => c <> CR) (normalize_text x).
Proof.
  unfold normalize_text. destruct (is_empty x); [constructor |].
  apply strip_Forall. unfold re_sub.
  apply sub_Forall.
  { intros _ _. repeat constructor; discriminate. }
  apply sub_Forall; [apply groups_1_2_Forall | apply remove_cr_clean].
Qed.

Lemma normalize_text_no3 x : no3 (normalize_text x) = true.
Proof.
  unfold normalize_text. destruct (is_empty x); [reflexivity |].
  apply no3_strip. unfold re_sub.
  eapply (collapse_shape (n := length _)). reflexivity.
Qed.

Lemma normalize_text_stripped x : strip (normalize_text x) = normalize_text x.
Proof.
  unfold normalize_text. destruct (is_empty x); [reflexivity |].
  apply strip_idem.
Qed.

(** A text is left alone by [normalize_text] when it has no carriage
    return, no break to heal, no run of three newlines and no white space
    at its ends. *)
Lemma normalize_text_fixed y :
  Forall (fun c => c <> CR) y ->
  re_search dehyphen_rx y = None ->
  no3 y = true ->
  strip y = y ->
  normalize_text y = y.
Proof.
  intros Hcr Hd H3 Hs. unfold normalize_text.
  destruct (is_empty y) eqn:E; [apply is_empty_true in E; now subst |].
  rewrite remove_cr_fixed by assumption.
  unfold re_sub. rewrite (sub_no_match dehyphen_rx groups_1_2 y []) by exact Hd.
  rewrite sub_no_match by (now apply no3_search).
  exact Hs.
Qed.

Lemma normalize_text_twice_example :
  normalize_text (py "a-\nb-\nc") = py "ab-\nc"
  /\ normalize_text (py "ab-\nc") = py "abc".
Proof. split; vm_compute; reflexivity. Qed.

(** C1 (amended). Normalising a normalised text changes nothing, provided
    the normalised text holds no word character, hyphen, newline, word
    character in a row, that is no break the single pass left behind. *)
Theorem normalize_text_idempotent_when_healed (x : text) :
  re_search dehyphen_rx (normalize_text x) = None ->
  normalize_text (normalize_text x) = normalize_text x.
Proof.
  intros H. apply normalize_text_fixed.
  - apply normalize_text_no_cr.
  - exact H.
  - apply normalize_text_no3.
  - apply normalize_text_stripped.
Qed.

End NormalizerFacts.

Section NormalizerWitness.
Local Existing Instance ascii_tables.

(** C1, witness: ["a-\nb"] heals to ["ab"]. *)
Lemma normalize_text_idempotent_when_healed_witness :
  re_search dehyphen_rx (normalize_text (py "a-\nb")) = None
  /\ normalize_text (normalize_text (py "a-\nb")) = normalize_text (py "a-\nb").
Proof.
  split.
  - vm_compute. reflexivity.
  - apply normalize_text_idempotent_when_healed.
    vm_compute. reflexivity.
Defined.

End NormalizerWitness.

(** C1, counterexample: on ["a-\nb-\nc"] the first pass heals only the
    first break, the [b] it consumed being the word character the second
    break needs: [normalize_text] gives ["ab-\nc"], and ["abc"] when
    applied again. *)
Lemma normalize_text_not_idempotent :
  ~ (forall (U : Unicode) (x : text),
        normalize_text (normalize_text x) = normalize_text x).
Proof.
  intros H. specialize (H ascii_tables (py "a-\nb-\nc")).
  destruct (normalize_text_twice_example (U := ascii_tables)) as [E1 E2].
  rewrite E1, E2 in H. vm_compute in H. discriminate H.
Qed.

(** ** Dictionaries *)

Lemma dict_get_set_same {V} k (v : V) d : dict_get k (dict_set k v d) = Some v.
Proof.
  induction d as [|[k' v'] d IH]; simpl.
  - now rewrite text_eqb_refl.
  - destruct (text_eqb k k') eqn:E; simpl; rewrite E; auto.
Qed.

Lemma dict_get_set_other {V} k k' (v : V) d :
  k <> k' -> dict_get k (dict_set k' v d) = dict_get k d.
Proof.
  intros N. apply text_eqb_neq in N.
  induction d as [|[k2 v2] d IH]; simpl.
  - now rewrite N.
  - destruct (text_eqb k' k2) eqn:E; simpl.
    + apply text_eqb_eq in E. subst k2. now rewrite N.
    + destruct (text_eqb k k2); auto.
Qed.

Lemma dict_set_new {V} k (v : V) d :
  dict_get k d = None -> dict_set k v d = d ++ [(k, v)].
Proof.
  induction d as [|[k' v'] d IH]; simpl; intros H; auto.
  destruct (text_eqb k k'); [discriminate |]. now rewrite IH.
Qed.

Lemma dict_get_set_some {V} k k' (v : V) d :
  dict_get k d <> None -> dict_get k (dict_set k' v d) <> None.
Proof.
  intros H. destruct (text_eq_dec k k') as [->|N].
  - rewrite dict_get_set_same. discriminate.
  - now rewrite dict_get_set_other.
Qed.

Lemma find_app {A} (f : A -> bool) a b :
  find f (a ++ b) = match find f a with Some x => Some x | None => find f b end.
Proof. induction a as [|x a IH]; simpl; auto. destruct (f x); auto. Qed.

(** [setdefault] keeps the first value recorded under a key. *)
Lemma record_candidates_get cs :
  forall fp k,
    dict_get k (record_candidates cs fp)
    = match dict_get k fp with
      | Some p => Some p
      | None => option_map snd (find (named k) cs)
      end.
Proof.
  unfold record_candidates.
  induction cs as [|[c p] cs IH]; intros fp k; cbn [fold_left find].
  - destruct (dict_get k fp); reflexivity.
  - rewrite IH. cbn [fst snd]. unfold dict_setdefault, named. cbn [fst].
    destruct (dict_get c fp) eqn:Ec.
    + destruct (dict_get k fp) eqn:Ek; auto.
      destruct (text_eqb k c) eqn:E; auto.
      apply text_eqb_eq in E. congruence.
    + destruct (text_eqb k c) eqn:E.
      * apply text_eqb_eq in E. subst c.
        rewrite dict_get_set_same, Ec. reflexivity.
      * apply text_eqb_neq in E. rewrite dict_get_set_other by assumption.
        reflexivity.
Qed.

(** Assignments in a row leave the last value written under a key. *)
Lemma dict_get_fold_set {V} (l : list (text * V)) :
  forall out k,
    dict_get k (fold_left (fun o nb => dict_set (fst nb) (snd nb) o) l out)
    = match find (named k) (rev l) with
      | Some nb => Some (snd nb)
      | None => dict_get k out
      end.
Proof.
  induction l as [|[n b] l IH]; intros out k; cbn [fold_left rev].
  - reflexivity.
  - rewrite IH, find_app. destruct (find (named k) (rev l)); auto.
    cbn [find fst snd]. unfold named. cbn [fst].
    destruct (text_eqb k n) eqn:E.
    + apply text_eqb_eq in E. subst n. apply dict_get_set_same.
    + apply text_eqb_neq in E. now apply dict_get_set_other.
Qed.

(** ** Segmentation *)

Section SegmenterFacts.
Context {U : Unicode}.

Lemma fold_known_hits ft hs :
  NoDup hs ->
  forall fp,
    (forall h, In h hs -> dict_get h fp = None) ->
    fold_left
      (fun fp h =>
         match re_search (known_rx h) ft with
         | Some m => dict_set h (m_start m) fp
         | None => fp
         end) hs fp
    = record_candidates (hits ft hs) fp.
Proof.
  induction 1 as [|h hs Hn Hd IH]; intros fp Hfp.
  - reflexivity.
  - cbn [fold_left hits flat_map].
    destruct (re_search (known_rx h) ft) as [m|].
    + unfold record_candidates. cbn [app fold_left fst snd].
      unfold dict_setdefault. rewrite (Hfp h) by now left.
      apply IH. intros h' Hh'. rewrite dict_get_set_other.
      * apply Hfp. now right.
      * intros ->. contradiction.
    + cbn [app]. apply IH. intros h' Hh'. apply Hfp. now right.
Qed.

Lemma KNOWN_ORDER_NoDup : NoDup KNOWN_ORDER.
Proof.
  unfold KNOWN_ORDER.
  repeat (constructor;
          [cbn [In]; intros H;
           repeat (destruct H as [H|H]; [vm_compute in H; discriminate H |]);
           exact H |]).
  constructor.
Qed.

Lemma known_positions_hits ft :
  known_positions ft = record_candidates (known_hits ft) [].
Proof.
  unfold known_positions, known_hits.
  apply fold_known_hits; [apply KNOWN_ORDER_NoDup | reflexivity].
Qed.

Lemma found_positions_all ft :
  found_positions ft
  = record_candidates (known_hits ft ++ caps_candidates ft) [].
Proof.
  unfold found_positions. rewrite known_positions_hits.
  unfold record_candidates. now rewrite fold_left_app.
Qed.

Lemma found_positions_nil : found_positions [] = [].
Proof. reflexivity. Qed.

Lemma bodies_fold ft ms :
  forall out,
    bodies ft ms out
    = fold_left (fun o nb => dict_set (fst nb) (snd nb) o)
                (mark_bodies ft ms) out.
Proof.
  induction ms as [|[[name st] en] ms IH]; intros out.
  - reflexivity.
  - cbn [bodies mark_bodies fold_left fst snd]. apply IH.
Qed.

(** C6. A text whose normal form is empty has no sections; a text in
    whose non-empty normal form no known heading stands on a line of its
    own and no generic all-caps candidate is found is returned whole under
    the single key "Full Report Text". *)
Theorem split_sections_fallback (txt : text) :
  (normalize_text txt = [] -> split_sections txt = [])
  /\ (normalize_text txt <> [] ->
      (forall h, In h KNOWN_ORDER ->
                 re_search (known_rx h) (normalize_text txt) = None) ->
      caps_candidates (normalize_text txt) = [] ->
      split_sections txt = [(py "Full Report Text", normalize_text txt)]).
Proof.
  unfold split_sections. split.
  - intros E. now rewrite E.
  - intros Hne Hk Hc.
    destruct (is_empty (normalize_text txt)) eqn:E;
      [apply is_empty_true in E; contradiction |].
    rewrite found_positions_all, Hc, app_nil_r.
    assert (Hh : known_hits (normalize_text txt) = []).
    { unfold known_hits, hits. generalize dependent KNOWN_ORDER.
      intros l Hl. induction l as [|h l IH]; auto.
      cbn [flat_map]. rewrite (Hl h) by now left.
      apply IH. intros h' Hh'. apply Hl. now right. }
    rewrite Hh. reflexivity.
Qed.

(** C5. The position recorded for a heading name is that of the first
    candidate of that name, known headings first and generic candidates
    after them in the order of the scan; and where headings are found the
    body kept under a name is the one that follows the last mark of that
    name. *)
Theorem first_position_last_body (txt k : text) :
  dict_get k (found_positions (normalize_text txt))
  = option_map snd
      (find (named k)
         (known_hits (normalize_text txt)
          ++ caps_candidates (normalize_text txt)))
  /\ (found_positions (normalize_text txt) <> [] ->
      dict_get k (split_sections txt)
      = option_map snd
          (find (named k)
             (rev (mark_bodies (normalize_text txt)
                     (marks (normalize_text txt)
                        (map fst
                           (sorted_by_pos
                              (found_positions (normalize_text txt))))))))).
Proof.
  split.
  - rewrite found_positions_all, record_candidates_get. reflexivity.
  - intros Hf. unfold split_sections.
    destruct (is_empty (normalize_text txt)) eqn:E.
    { apply is_empty_true in E. rewrite E in Hf. now elim Hf. }
    destruct (is_empty (found_positions (normalize_text txt))) eqn:E2.
    { apply is_empty_true in E2. contradiction. }
    rewrite bodies_fold, dict_get_fold_set.
    destruct (find _ _); reflexivity.
Qed.

End SegmenterFacts.

Section SegmenterWitness.
Local Existing Instance ascii_tables.

(** C6, witness: the empty text, and a text without any heading. *)
Lemma split_sections_fallback_witness :
  split_sections [] = []
  /\ split_sections (py "nothing to see") =
     [(py "Full Report Text", py "nothing to see")].
Proof.
  split.
  - apply (proj1 (split_sections_fallback [])). reflexivity.
  - apply (proj2 (split_sections_fallback (py "nothing to see"))).
    + vm_compute. discriminate.
    + intros h Hh. cbn [KNOWN_ORDER In] in Hh.
      repeat (destruct Hh as [<-|Hh]; [vm_compute; reflexivity |]).
      contradiction.
    + vm_compute. reflexivity.
Defined.

(** C5, witness: in ["DIGEST\na\nDIGEST\nb"] the name DIGEST is recorded
    at position 0 and keeps the body ["b"]. *)
Lemma first_position_last_body_witness :
  dict_get (py "DIGEST")
    (found_positions (normalize_text (py "DIGEST\na\nDIGEST\nb"))) = Some 0
  /\ dict_get (py "DIGEST") (split_sections (py "DIGEST\na\nDIGEST\nb"))
     = Some (py "b").
Proof.
  split.
  - rewrite (proj1 (first_position_last_body (py "DIGEST\na\nDIGEST\nb")
                      (py "DIGEST"))).
    vm_compute. reflexivity.
  - rewrite (proj2 (first_position_last_body (py "DIGEST\na\nDIGEST\nb")
                      (py "DIGEST"))).
    + vm_compute. reflexivity.
    + vm_compute. discriminate.
Defined.

End SegmenterWitness.

(** ** Greedy repetition and the scan *)

Section RepetitionFacts.
Context {U : Unicode}.
Variable R : Type.

(** A repetition that matched took some [n] characters of the set, within
    its bounds, and the rest of the pattern matched after them. *)
Lemma m_rep_sound (p : char -> bool) (k : text -> text -> option R) s :
  forall lo hi pre r,
    m_rep p lo hi k pre s = Some r ->
    exists n,
      lo <= n /\ (forall h, hi = Some h -> n <= h) /\ n <= length s
      /\ forallb p (firstn n s) = true
      /\ k (rev (firstn n s) ++ pre) (skipn n s) = Some r.
Proof.
  induction s as [|c s IH]; intros lo hi pre r H.
  - cbn [m_rep] in H. destruct lo; [| discriminate].
    exists 0. repeat split; auto. intros; lia.
  - cbn [m_rep] in H.
    assert (Stop : match lo with 0 => k pre (c :: s) | S _ => None end = Some r ->
                   exists n, lo <= n /\ (forall h, hi = Some h -> n <= h)
                     /\ n <= length (c :: s)
                     /\ forallb p (firstn n (c :: s)) = true
                     /\ k (rev (firstn n (c :: s)) ++ pre) (skipn n (c :: s))
                        = Some r).
    { intros E. destruct lo; [| discriminate].
      exists 0. repeat split; auto; try (intros; lia); cbn [length]; lia. }
    destruct (p c && room hi) eqn:E; [| now apply Stop].
    apply andb_true_iff in E as [Ec Er].
    destruct (m_rep p (pred lo) (less hi) k (c :: pre) s) as [r'|] eqn:E2;
      [| now apply Stop].
    injection H as ->.
    apply IH in E2 as (n & H1 & H2 & H3 & H4 & H5).
    exists (S n). repeat split.
    + lia.
    + intros h ->. destruct h; [discriminate |].
      specialize (H2 h eq_refl). lia.
    + cbn [length]. lia.
    + cbn [firstn forallb]. now rewrite Ec.
    + cbn [firstn skipn rev]. now rewrite <- app_assoc.
Qed.


(** A repetition matches as soon as the rest of the pattern matches
    after some admissible number of characters of the set. *)
Lemma m_rep_some (p : char -> bool) (k : text -> text -> option R) a :
  forall lo hi pre rest,
    forallb p a = true ->
    lo <= length a ->
    (forall h, hi = Some h -> length a <= h) ->
    is_some (k (rev a ++ pre) rest) = true ->
    is_some (m_rep p lo hi k pre (a ++ rest)) = true.
Proof.
  induction a as [|c a IH]; intros lo hi pre rest Hp Hlo Hhi Hk.
  - cbn [length] in Hlo. replace lo with 0 in * by lia.
    cbn [app rev] in *. destruct rest as [|c rest]; cbn [m_rep]; auto.
    destruct (p c && room hi); auto.
    destruct (m_rep p (pred 0) (less hi) k (c :: pre) rest); auto.
  - cbn [app m_rep]. cbn [forallb] in Hp.
    apply andb_true_iff in Hp as [Hc Hs]. rewrite Hc. cbn [andb].
    assert (Hr : room hi = true).
    { destruct hi as [[|h]|]; auto. specialize (Hhi 0 eq_refl).
      cbn [length] in Hhi. lia. }
    rewrite Hr.
    assert (E : is_some (m_rep p (pred lo) (less hi) k (c :: pre) (a ++ rest))
                = true).
    { apply IH; auto.
      - cbn [length] in Hlo. lia.
      - intros h Hh. destruct hi as [h0|]; [| discriminate].
        cbn [less option_map] in Hh. injection Hh as <-.
        specialize (Hhi h0 eq_refl). cbn [length] in Hhi. lia.
      - cbn [rev] in Hk. now rewrite <- app_assoc in Hk. }
    destruct (m_rep p (pred lo) (less hi) k (c :: pre) (a ++ rest));
      [reflexivity | discriminate].
Qed.

End RepetitionFacts.

Section ScanFacts.
Context {U : Unicode}.

(** Every match of a scan is the match of the pattern at some position
    of the subject. *)
Lemma finditer_sound r s :
  forall skip pre m,
    In m (finditer_from r skip pre s) ->
    exists a b len,
      rev pre ++ s = a ++ b
      /\ match_at r (rev a) b = Some len
      /\ m = mk_match (rev a) b len.
Proof.
  induction s as [|c s IH]; intros skip pre m H.
  - destruct skip; cbn [finditer_from] in H; [| contradiction].
    destruct (match_at r pre []) as [len|] eqn:E; [| contradiction].
    destruct H as [<-|[]].
    exists (rev pre), [], len. now rewrite rev_involutive.
  - destruct skip.
    + rewrite finditer_from_cons0 in H.
      destruct (match_at r pre (c :: s)) as [len|] eqn:E.
      * destruct H as [<-|H].
        -- exists (rev pre), (c :: s), len. now rewrite rev_involutive.
        -- apply IH in H as (a & b & l & H1 & H2 & H3).
           exists a, b, l. cbn [rev] in H1. rewrite <- app_assoc in H1. auto.
      * apply IH in H as (a & b & l & H1 & H2 & H3).
        exists a, b, l. cbn [rev] in H1. rewrite <- app_assoc in H1. auto.
    + cbn [finditer_from] in H.
      apply IH in H as (a & b & l & H1 & H2 & H3).
      exists a, b, l. cbn [rev] in H1. rewrite <- app_assoc in H1. auto.
Qed.

Lemma search_from_start r s :
  forall pre m, search_from r pre s = Some m -> length pre <= m_start m.
Proof.
  induction s as [|c s IH]; intros pre m H; cbn [search_from] in H.
  - destruct (match_at r pre []); [| discriminate].
    injection H as <-. cbn. lia.
  - destruct (match_at r pre (c :: s)).
    + injection H as <-. cbn. lia.
    + apply IH in H. cbn [length] in H. lia.
Qed.

End ScanFacts.

(** ** Generic heading candidates *)

Section CapsFacts.
Context {U : Unicode}.

Lemma match_at_caps pre s len :
  match_at CAPS_LINE pre s = Some len ->
  at_bol true pre = true
  /\ exists c rest n,
       s = c :: rest /\ caps_first c = true /\ len = S n
       /\ 3 <= n <= 40 /\ n <= length rest
       /\ forallb caps_rest (firstn n rest) = true
       /\ at_eol true (skipn n rest) = true.
Proof.
  unfold match_at, CAPS_LINE. cbn [seqs mt]. intros H.
  destruct (at_bol true pre); [| discriminate]. split; auto.
  destruct s as [|c rest]; [discriminate |].
  destruct (caps_first c) eqn:Ec; [| discriminate].
  apply m_rep_sound in H as (n & H1 & H2 & H3 & H4 & H5).
  specialize (H2 40 eq_refl).
  destruct (at_eol true (skipn n rest)) eqn:Ee; [| discriminate].
  injection H5 as <-.
  exists c, rest, n. repeat split; auto; try lia.
  rewrite length_app, length_rev, firstn_length_le by assumption.
  cbn [length]. lia.
Qed.





(** A generic candidate comes from a stretch of heading characters that
    runs from a line start to a line end. *)
Lemma caps_candidates_sound ft cap pos :
  In (cap, pos) (caps_candidates ft) ->
  exists a m b,
    ft = a ++ m ++ b /\ length a = pos
    /\ at_bol true (rev a) = true /\ at_eol true b = true
    /\ (exists c rest,
           m = c :: rest /\ caps_first c = true
           /\ forallb caps_rest rest = true)
    /\ 4 <= length m <= 41
    /\ cap = strip m /\ upper cap = cap /\ cap <> artifact.
Proof.
  intros H. unfold caps_candidates in H.
  apply filter_In in H as [H Hok]. cbn [fst] in Hok.
  apply in_map_iff in H as (m & Em & H).
  apply finditer_sound in H as (a & b & len & E1 & E2 & E3).
  cbn [rev app] in E1.
  apply match_at_caps in E2
    as (Hb & c & rest & n & F1 & F2 & F3 & F4 & F5 & F6 & F7).
  subst m b len. cbn [mk_match group0 m_start firstn] in Em.
  injection Em as <- <-.
  exists a, (c :: firstn n rest), (skipn n rest).
  unfold caps_ok in Hok. apply andb_true_iff in Hok as [Hu Ha].
  apply text_eqb_eq in Hu. apply negb_true_iff in Ha.
  apply text_eqb_neq in Ha.
  repeat split; auto.
  - rewrite E1. cbn [app]. now rewrite firstn_skipn.
  - now rewrite length_rev.
  - exists c, (firstn n rest). auto.
  - cbn [length]. rewrite firstn_length_le by assumption. lia.
  - cbn [length]. rewrite firstn_length_le by assumption. lia.
Qed.


End CapsFacts.

Section CapsWitness.
Local Existing Instance ascii_tables.


End CapsWitness.


(** ** Boilerplate suppression *)

Lemma split_nl_line l : ~ In NL l -> split_nl l = [l].
Proof.
  induction l as [|c l IH]; intros Hn; [reflexivity |].
  cbn [split_nl].
  assert (Hc : is_nl c = false).
  { unfold is_nl. apply N.eqb_neq. intros ->. apply Hn. now left. }
  rewrite Hc, IH; auto. intros H. apply Hn. now right.
Qed.

Lemma split_nl_app l x : ~ In NL l -> split_nl (l ++ NL :: x) = l :: split_nl x.
Proof.
  induction l as [|c l IH]; intros Hn; [reflexivity |].
  cbn [app split_nl].
  assert (Hc : is_nl c = false).
  { unfold is_nl. apply N.eqb_neq. intros ->. apply Hn. now left. }
  rewrite Hc, IH; auto. intros H. apply Hn. now right.
Qed.

Lemma split_nl_join ls :
  ls <> [] -> (forall l, In l ls -> ~ In NL l) -> split_nl (join_nl ls) = ls.
Proof.
  induction ls as [|l ls IH]; intros Hne Hl; [contradiction |].
  destruct ls as [|l2 ls].
  - cbn [join_nl]. apply split_nl_line. apply Hl. now left.
  - change (join_nl (l :: l2 :: ls)) with (l ++ NL :: join_nl (l2 :: ls)).
    rewrite split_nl_app by (apply Hl; now left).
    f_equal. apply IH; [discriminate |].
    intros x Hx. apply Hl. now right.
Qed.

Lemma rstrip_ends_word s c : is_space c = false -> rstrip (s ++ [c]) = s ++ [c].
Proof.
  intros H. unfold rstrip. rewrite rev_app_distr. cbn [rev app lstrip].
  rewrite H. cbn [rev]. now rewrite rev_involutive.
Qed.

Lemma digit_not_space c : is_ascii_digit c = true -> is_space c = false.
Proof.
  unfold is_ascii_digit, is_space, between. intros H.
  apply andb_true_iff in H as [H1 H2].
  apply N.leb_le in H1, H2. ncases.
Qed.

Lemma rstrip_ends_digits a ds :
  ds <> [] -> forallb is_ascii_digit ds = true -> rstrip (a ++ ds) = a ++ ds.
Proof.
  intros Hne Hd. destruct (exists_last Hne) as (ds' & d & ->).
  rewrite app_assoc. apply rstrip_ends_word. apply digit_not_space.
  rewrite forallb_app in Hd. apply andb_true_iff in Hd as [_ Hd].
  cbn [forallb] in Hd. now apply andb_true_iff in Hd as [Hd _].
Qed.

Lemma ci_eq_refl c : ci_eq c c = true.
Proof. unfold ci_eq. now rewrite N.eqb_refl. Qed.

Section CleanFacts.
Context {U : Unicode}.

Lemma ascii_digit_is_digit c : is_ascii_digit c = true -> is_digit c = true.
Proof.
  intros H. unfold is_digit.
  destruct (N.ltb_spec c 128); auto.
  unfold is_ascii_digit, between in H. apply andb_true_iff in H as [_ H].
  apply N.leb_le in H. lia.
Qed.

Lemma ascii_digits_are_digits ds :
  forallb is_ascii_digit ds = true -> forallb is_digit ds = true.
Proof.
  induction ds as [|d ds IH]; cbn [forallb]; auto.
  intros H. apply andb_true_iff in H as [H1 H2].
  now rewrite ascii_digit_is_digit, IH.
Qed.

Lemma search_is_some r pre s :
  is_some (match_at r pre s) = true -> is_some (search_from r pre s) = true.
Proof.
  destruct s; cbn [search_from]; destruct (match_at r pre _); auto.
  discriminate.
Qed.

Lemma mt_alt_l R r1 r2 (k : text -> text -> option R) pre s :
  is_some (mt r1 k pre s) = true -> is_some (mt (Alt r1 r2) k pre s) = true.
Proof. cbn [mt]. destruct (mt r1 k pre s); auto. discriminate. Qed.

Lemma mt_alt_r R r1 r2 (k : text -> text -> option R) pre s :
  is_some (mt r2 k pre s) = true -> is_some (mt (Alt r1 r2) k pre s) = true.
Proof. cbn [mt]. destruct (mt r1 k pre s); auto. Qed.

Lemma dropped_page_footer l : page_footer l -> dropped l = true.
Proof.
  intros (ds & Hne & Hd & ->). unfold dropped, re_search.
  apply search_is_some. unfold match_at, drop_rx, drop_patterns.
  cbn [alts]. do 6 apply mt_alt_r. apply mt_alt_l.
  change (py "Page " ++ ds) with (py "Page" ++ [32%N] ++ ds).
  change (py "Page") with [80; 97; 103; 101]%N.
  cbn [seqs lit_i chr_i mt app at_bol].
  rewrite !ci_eq_refl.
  apply (m_rep_some is_space _ [32%N] _ ds); auto.
  { intros h Hh. discriminate Hh. }
  cbv beta. rewrite <- (app_nil_r ds).
  apply m_rep_some.
  - now apply ascii_digits_are_digits.
  - destruct ds; [contradiction | cbn [length]; lia].
  - intros h Hh. discriminate Hh.
  - reflexivity.
Qed.

Lemma dropped_bare_docket l : bare_docket l -> dropped l = true.
Proof.
  intros (ds & Hlen & Hd & ->). unfold dropped, re_search.
  apply search_is_some. unfold match_at, drop_rx, drop_patterns.
  cbn [alts]. do 7 apply mt_alt_r. apply mt_alt_l.
  change (py "B-") with [66; 45]%N.
  cbn [seqs lit_i chr_i mt app at_bol].
  rewrite !ci_eq_refl.
  rewrite <- (app_nil_r ds).
  apply m_rep_some.
  - now apply ascii_digits_are_digits.
  - lia.
  - intros h Hh. injection Hh as <-. lia.
  - reflexivity.
Qed.

Lemma clean_via_lines txt : clean_report_text txt = clean_lines (split_nl txt).
Proof.
  unfold clean_report_text, clean_lines.
  destruct txt; [vm_compute |]; reflexivity.
Qed.

Lemma clean_lines_drop l1 l l2 :
  dropped (rstrip l) = true ->
  clean_lines (l1 ++ l :: l2) = clean_lines (l1 ++ l2).
Proof.
  intros H. unfold clean_lines.
  rewrite !map_app, !filter_app. cbn [map filter]. now rewrite H.
Qed.

Lemma clean_join_drop l1 l l2 :
  (forall x, In x (l1 ++ l :: l2) -> ~ In NL x) ->
  dropped (rstrip l) = true ->
  clean_report_text (join_nl (l1 ++ l :: l2))
  = clean_report_text (join_nl (l1 ++ l2)).
Proof.
  intros Hn Hd. rewrite !clean_via_lines.
  rewrite split_nl_join; auto.
  2:{ destruct l1; discriminate. }
  rewrite clean_lines_drop by assumption.
  assert (Hn' : forall y, In y (l1 ++ l2) -> ~ In NL y).
  { intros y Hy. apply Hn.
    apply in_app_or in Hy as [Hy|Hy]; apply in_or_app; auto.
    right. now right. }
  destruct l1 as [|a l1]; [destruct l2 as [|b l2] |].
  - vm_compute. reflexivity.
  - rewrite split_nl_join; [reflexivity | discriminate | exact Hn'].
  - rewrite split_nl_join; [reflexivity | discriminate | exact Hn'].
Qed.

End CleanFacts.

(** ** A DISCUSSION heading on the first line *)

Lemma DISCUSSION_py : py "DISCUSSION" = DISCUSSION.
Proof. reflexivity. Qed.

Lemma lstrip_app_cases a b :
  (lstrip (a ++ b) = lstrip b /\ lstrip a = [])
  \/ lstrip (a ++ b) = lstrip a ++ b.
Proof.
  induction a as [|x a IH]; cbn [app lstrip].
  - now left.
  - destruct (is_space x); [exact IH | now right].
Qed.

Lemma rstrip_cons_cases c w :
  rstrip (c :: w) = [] \/ rstrip (c :: w) = c :: rstrip w.
Proof.
  unfold rstrip. cbn [rev].
  destruct (lstrip_app_cases (rev w) [c]) as [[E1 E2]|E].
  - rewrite E1, E2. cbn [lstrip]. destruct (is_space c); [now left | now right].
  - rewrite E, rev_app_distr. now right.
Qed.

Lemma rstrip_after_DISCUSSION w :
  rstrip (DISCUSSION ++ NL :: w) = DISCUSSION
  \/ exists w', rstrip (DISCUSSION ++ NL :: w) = DISCUSSION ++ NL :: w'.
Proof.
  rewrite rstrip_app_word by reflexivity.
  destruct (rstrip_cons_cases NL w) as [E|E]; rewrite E.
  - left. apply app_nil_r.
  - right. now exists (rstrip w).
Qed.

Section FirstLineFacts.
Context {U : Unicode}.

(** One character of the subject at which the pattern does not match. *)
Ltac sub_step :=
  rewrite sub_from_cons0;
  match goal with
  | |- context [match_at ?r ?p ?s] =>
      replace (match_at r p s) with (@None nat) by reflexivity
  end.

Lemma collapse_newline pre x : exists y, collapse pre (NL :: x) = NL :: y.
Proof.
  destruct (@collapse_shape _ (length (NL :: x)) (NL :: x) pre (le_n _))
    as [H _].
  destruct (collapse pre (NL :: x)) as [|c y].
  - cbn [lead] in H. change (is_nl NL) with true in H. cbv iota in H. lia.
  - cbn [lead] in H. change (is_nl NL) with true in H. cbv iota in H.
    destruct (is_nl c) eqn:E; [| lia].
    unfold is_nl in E. apply N.eqb_eq in E. subst c. now exists y.
Qed.

Lemma sub_docket_newline pre x :
  exists y, sub_from docket_rx (fun _ => [NL]) 0 pre (NL :: x) = NL :: y.
Proof.
  rewrite sub_from_cons0. destruct (match_at docket_rx pre (NL :: x)).
  - cbn [app]. eexists. reflexivity.
  - eexists. reflexivity.
Qed.

Lemma normalize_text_DISCUSSION : normalize_text DISCUSSION = DISCUSSION.
Proof. reflexivity. Qed.

Lemma normalize_text_first_line x :
  first_line_is DISCUSSION (normalize_text (DISCUSSION ++ NL :: x)).
Proof.
  unfold normalize_text, DISCUSSION. cbn [app is_empty].
  change (remove_cr (68 :: 73 :: 83 :: 67 :: 85 :: 83 :: 83 :: 73 :: 79 :: 78
                        :: NL :: x)%N)
    with (68 :: 73 :: 83 :: 67 :: 85 :: 83 :: 83 :: 73 :: 79 :: 78
             :: NL :: remove_cr x)%N.
  unfold re_sub. do 11 sub_step.
  do 10 sub_step.
  match goal with
  | |- context [sub_from newlines_rx ?f 0 ?p (NL :: ?t)] =>
      destruct (collapse_newline p t) as [y Hy];
      unfold collapse in Hy; rewrite Hy
  end.
  unfold strip. cbn [lstrip].
  change (is_space 68%N) with false. cbv iota.
  change (68 :: 73 :: 83 :: 67 :: 85 :: 83 :: 83 :: 73 :: 79 :: 78
             :: NL :: y)%N
    with (DISCUSSION ++ NL :: y).
  destruct (rstrip_after_DISCUSSION y) as [E|[w E]]; rewrite E.
  - now left.
  - right. now exists w.
Qed.

Lemma normalize_text_keeps_first_line t :
  first_line_is DISCUSSION t ->
  first_line_is DISCUSSION (normalize_text t).
Proof.
  intros [->|[r ->]].
  - rewrite normalize_text_DISCUSSION. now left.
  - apply normalize_text_first_line.
Qed.

Lemma clean_report_text_keeps_first_line t :
  first_line_is DISCUSSION t ->
  first_line_is DISCUSSION (clean_report_text t).
Proof.
  intros [->|[r ->]].
  - left. reflexivity.
  - rewrite clean_via_lines. rewrite split_nl_app.
    2:{ unfold DISCUSSION, NL. cbn [In]. intros H.
        repeat (destruct H as [H|H]; [discriminate H |]). exact H. }
    unfold clean_lines. cbn [map filter].
    change (rstrip DISCUSSION) with DISCUSSION.
    change (dropped DISCUSSION) with false. cbn [negb].
    destruct (filter (fun l => negb (dropped l)) (map rstrip (split_nl r)))
      as [|k1 ks].
    + left. reflexivity.
    + change (join_nl (DISCUSSION :: k1 :: ks))
        with (DISCUSSION ++ NL :: join_nl (k1 :: ks)).
      generalize (join_nl (k1 :: ks)). intros y.
      unfold re_sub, DISCUSSION. cbn [app]. do 10 sub_step.
      match goal with
      | |- context [sub_from docket_rx ?f 0 ?p (NL :: ?t)] =>
          destruct (sub_docket_newline p t) as [z Hz]; rewrite Hz
      end.
      change (68 :: 73 :: 83 :: 67 :: 85 :: 83 :: 83 :: 73 :: 79 :: 78
                 :: NL :: z)%N
        with (DISCUSSION ++ NL :: z).
      apply normalize_text_first_line.
Qed.

End FirstLineFacts.

(** ** The order of the headings *)

Lemma rev_cons_app {A} (c : A) l pre : rev (c :: l) ++ pre = rev l ++ c :: pre.
Proof. cbn [rev]. now rewrite <- app_assoc. Qed.

Lemma insert_by_pos_In z l y : In y (insert_by_pos z l) <-> y = z \/ In y l.
Proof.
  induction l as [|x l IH]; cbn [insert_by_pos].
  - cbn [In]. intuition (subst; auto).
  - destruct (snd z <=? snd x); cbn [In]; [intuition (subst; auto) |].
    rewrite IH. intuition (subst; auto).
Qed.

Lemma sorted_by_pos_In l y : In y (sorted_by_pos l) <-> In y l.
Proof.
  induction l as [|x l IH]; cbn [sorted_by_pos]; [reflexivity |].
  rewrite insert_by_pos_In, IH. cbn [In]. intuition (subst; auto).
Qed.

(** An item goes in before the first item whose position is not smaller
    than its own. *)
Lemma insert_by_pos_split z t :
  exists u1 u2,
    t = u1 ++ u2 /\ insert_by_pos z t = u1 ++ z :: u2
    /\ (forall y, In y u1 -> snd y < snd z)
    /\ (forall y u, u2 = y :: u -> snd z <= snd y).
Proof.
  induction t as [|x t IH]; cbn [insert_by_pos].
  - exists [], []. split; [reflexivity | split; [reflexivity | split]].
    + intros y [].
    + intros y u E. discriminate E.
  - destruct (Nat.leb_spec (snd z) (snd x)).
    + exists [], (x :: t). split; [reflexivity | split; [reflexivity | split]].
      * intros y [].
      * intros y u E. injection E as <- <-. assumption.
    + destruct IH as (u1 & u2 & E1 & E2 & H1 & H2).
      exists (x :: u1), u2. split; [| split; [| split]].
      * cbn [app]. now f_equal.
      * cbn [app]. now rewrite E2.
      * intros y [<-|Hy]; auto.
      * exact H2.
Qed.

(** The sort is stable: what it puts before an item has a smaller
    position, or the same position and a place before the item in the
    list that is sorted. *)
Lemma sorted_by_pos_split l1 x l2 :
  exists s1 s2,
    sorted_by_pos (l1 ++ x :: l2) = s1 ++ x :: s2
    /\ forall y, In y s1 -> snd y < snd x \/ (snd y = snd x /\ In y l1).
Proof.
  induction l1 as [|z l1 IH]; cbn [app sorted_by_pos].
  - destruct (insert_by_pos_split x (sorted_by_pos l2))
      as (u1 & u2 & _ & E & H & _).
    exists u1, u2. split; [exact E |]. intros y Hy. left. now apply H.
  - destruct IH as (t1 & t2 & E & Ht). rewrite E.
    destruct (insert_by_pos_split z (t1 ++ x :: t2))
      as (u1 & u2 & E1 & E2 & H1 & H2).
    rewrite E2.
    assert (Before :
              forall l, t1 = u1 ++ l -> u2 = l ++ x :: t2 ->
                        snd z <= snd x).
    { intros l Ea Eb. destruct l as [|y0 l].
      - now apply (H2 x t2).
      - specialize (H2 y0 (l ++ x :: t2) Eb).
        destruct (Ht y0) as [Hy|[Hy _]]; [| lia | lia].
        rewrite Ea. apply in_or_app. right. now left. }
    apply app_eq_app in E1 as (l & [[Ea Eb]|[Ea Eb]]).
    + exists (u1 ++ z :: l), t2. split.
      * rewrite Eb, <- app_assoc. reflexivity.
      * intros y Hy. apply in_app_or in Hy as [Hy|[<-|Hy]].
        -- destruct (Ht y) as [?|[? ?]]; [| now left | right; split; auto].
           ++ rewrite Ea. apply in_or_app. now left.
           ++ now right.
        -- specialize (Before l Ea Eb).
           destruct (Nat.eq_dec (snd z) (snd x)); [right | left; lia].
           split; [assumption | now left].
        -- destruct (Ht y) as [?|[? ?]]; [| now left | right; split; auto].
           ++ rewrite Ea. apply in_or_app. now right.
           ++ now right.
    + destruct l as [|x' l].
      * rewrite app_nil_r in Ea. cbn [app] in Eb. subst u1 u2.
        exists (t1 ++ [z]), t2. split.
        -- now rewrite <- app_assoc.
        -- intros y Hy. apply in_app_or in Hy as [Hy|[<-|[]]].
           ++ destruct (Ht y Hy) as [?|[? ?]]; [now left | right; split; auto].
              now right.
           ++ assert (snd z <= snd x) by now apply (H2 x t2).
              destruct (Nat.eq_dec (snd z) (snd x)); [right | left; lia].
              split; [assumption | now left].
      * cbn [app] in Eb. injection Eb as <- Eb.
        exists t1, (l ++ z :: u2). split.
        -- rewrite Ea, <- app_assoc. reflexivity.
        -- intros y Hy.
           destruct (Ht y Hy) as [?|[? ?]]; [now left | right; split; auto].
           now right.
Qed.

(** ** Stretches of heading characters *)

Lemma caps_first_rest c : caps_first c = true -> caps_rest c = true.
Proof. unfold caps_first, caps_rest. intros H. now rewrite H. Qed.

Lemma caps_first_not_space c : caps_first c = true -> is_space c = false.
Proof.
  unfold caps_first, is_ascii_upper, is_ascii_digit, is_space, between.
  intros H. apply orb_true_iff in H as [H|H];
    apply andb_true_iff in H as [H1 H2]; apply N.leb_le in H1, H2; ncases.
Qed.

Lemma space_caps_rest c : is_space c = true -> caps_rest c = true.
Proof.
  unfold caps_rest. intros H. rewrite H.
  now rewrite orb_true_r.
Qed.

Lemma heading_like_app_spaces h ws :
  heading_like h = true -> forallb is_space ws = true ->
  heading_like (h ++ ws) = true.
Proof.
  destruct h as [|c h]; [discriminate |]. cbn [heading_like app].
  intros H Hw. apply andb_true_iff in H as [Hc Hr]. rewrite Hc. cbn [andb].
  change (c :: h ++ ws) with ((c :: h) ++ ws).
  rewrite forallb_app, Hr. cbn [andb].
  rewrite forallb_forall in *. intros x Hx. apply space_caps_rest. auto.
Qed.

Lemma heading_like_firstn m n :
  heading_like m = true -> 0 < n -> heading_like (firstn n m) = true.
Proof.
  destruct m as [|c m]; [discriminate |].
  destruct n as [|n]; [lia |]. intros H _. cbn [firstn heading_like] in *.
  apply andb_true_iff in H as [Hc Hr]. rewrite Hc. cbn [andb].
  change (c :: firstn n m) with (firstn (S n) (c :: m)).
  rewrite <- (firstn_skipn (S n) (c :: m)) in Hr.
  rewrite forallb_app in Hr. now apply andb_true_iff in Hr as [Hr _].
Qed.

Lemma strip_heading_like c rest :
  caps_first c = true -> forallb caps_rest rest = true ->
  heading_like (strip (c :: rest)) = true
  /\ exists w, c :: rest = strip (c :: rest) ++ w
               /\ forallb is_space w = true.
Proof.
  intros Hc Hr. pose proof (caps_first_not_space _ Hc) as Hs.
  unfold strip. cbn [lstrip]. rewrite Hs.
  rewrite rstrip_cons_word by assumption.
  destruct (rstrip_prefix_spaces rest) as (w & Hw & Hws).
  split.
  - cbn [heading_like forallb]. rewrite Hc, (caps_first_rest _ Hc).
    cbn [andb]. rewrite Hw in Hr. rewrite forallb_app in Hr.
    now apply andb_true_iff in Hr as [Hr _].
  - exists w. split; [| assumption]. cbn [app]. now f_equal.
Qed.

Lemma heading_run_split a :
  forall pre,
    heading_run pre a = false ->
    forall a1 a2,
      a = a1 ++ a2 -> at_bol true (rev a1 ++ pre) = true ->
      heading_like a2 = false.
Proof.
  induction a as [|c a IH]; intros pre H a1 a2 E Hb.
  - symmetry in E. apply app_eq_nil in E as [_ ->]. reflexivity.
  - cbn [heading_run] in H. apply orb_false_iff in H as [H1 H2].
    destruct a1 as [|c1 a1].
    + cbn [app rev] in *. subst a2. rewrite Hb in H1. exact H1.
    + cbn [app] in E. injection E as <- E.
      apply (IH (c :: pre) H2 a1 a2 E). now rewrite <- rev_cons_app.
Qed.

Lemma DISCUSSION_chars c :
  In c DISCUSSION -> is_space c = false /\ is_nl c = false.
Proof.
  unfold DISCUSSION. cbn [In]. intros H.
  repeat (destruct H as [<-|H]; [split; reflexivity |]). contradiction.
Qed.

Section HeadingKey.
Context {U : Unicode}.

Lemma split_sections_segment t : split_sections t = segment (normalize_text t).
Proof. reflexivity. Qed.

Lemma clean_report_text_kept t :
  t <> [] ->
  clean_report_text t
  = normalize_text (re_sub docket_rx (fun _ => [NL]) (join_nl (kept_lines t))).
Proof. destruct t; [contradiction | reflexivity]. Qed.

Lemma kept_lines_DISCUSSION t :
  In DISCUSSION (split_nl t) -> In DISCUSSION (kept_lines t).
Proof.
  intros H. unfold kept_lines. apply filter_In. split.
  - change DISCUSSION with (rstrip DISCUSSION) at 1. now apply in_map.
  - reflexivity.
Qed.

(** *** Literals and alternatives *)

Lemma mt_lit_sound R h :
  forall (k : text -> text -> option R) pre s r,
    mt (lit h) k pre s = Some r ->
    exists s', s = h ++ s' /\ k (rev h ++ pre) s' = Some r.
Proof.
  induction h as [|c h IH]; intros k pre s r H.
  - exists s. auto.
  - destruct h as [|c2 h].
    + cbn [lit chr mt] in H. destruct s as [|x s]; [discriminate |].
      destruct (N.eqb_spec c x) as [<-|]; [| discriminate].
      exists s. auto.
    + change (lit (c :: c2 :: h)) with (Seq (chr c) (lit (c2 :: h))) in H.
      cbn [mt chr] in H. destruct s as [|x s]; [discriminate |].
      destruct (N.eqb_spec c x) as [<-|]; [| discriminate].
      apply IH in H as (s' & -> & H). exists s'. split; [reflexivity |].
      now rewrite rev_cons_app.
Qed.

Lemma mt_lit_complete R h :
  forall (k : text -> text -> option R) pre s',
    mt (lit h) k pre (h ++ s') = k (rev h ++ pre) s'.
Proof.
  induction h as [|c h IH]; intros k pre s'.
  - reflexivity.
  - destruct h as [|c2 h].
    + cbn [lit chr mt app]. now rewrite N.eqb_refl.
    + change (lit (c :: c2 :: h)) with (Seq (chr c) (lit (c2 :: h))).
      change ((c :: c2 :: h) ++ s') with (c :: (c2 :: h) ++ s').
      cbn [mt chr]. rewrite N.eqb_refl, IH. now rewrite !rev_cons_app.
Qed.

Lemma mt_alts_cons R r rs (k : text -> text -> option R) pre s :
  rs <> [] ->
  mt (alts (r :: rs)) k pre s
  = match mt r k pre s with
    | Some x => Some x
    | None => mt (alts rs) k pre s
    end.
Proof. intros H. destruct rs; [now elim H | reflexivity]. Qed.

Lemma mt_alts_head R r1 rs (k : text -> text -> option R) pre s x :
  mt r1 k pre s = Some x -> mt (alts (r1 :: rs)) k pre s = Some x.
Proof.
  intros H. destruct rs; cbn [alts mt]; [assumption | now rewrite H].
Qed.

(** A match of an alternation of literals is the match of one of them. *)
Lemma mt_alts_lit_sound R hs :
  forall (k : text -> text -> option R) pre s r,
    hs <> [] ->
    mt (alts (map lit hs)) k pre s = Some r ->
    exists h, In h hs /\ mt (lit h) k pre s = Some r.
Proof.
  induction hs as [|h hs IH]; intros k pre s r Hne H; [contradiction |].
  destruct hs as [|h2 hs].
  - exists h. split; [now left | exact H].
  - cbn [map] in H. rewrite mt_alts_cons in H by discriminate.
    destruct (mt (lit h) k pre s) eqn:E.
    + exists h. split; [now left | congruence].
    + destruct (IH k pre s r) as (h' & Hin & Hm); [discriminate | exact H |].
      exists h'. split; [now right | exact Hm].
Qed.

(** Alternatives that fail are passed over. *)
Lemma mt_alts_lit_first R hs1 :
  forall h hs2 (k : text -> text -> option R) pre s,
    (forall h', In h' hs1 -> mt (lit h') k pre s = None) ->
    mt (alts (map lit (hs1 ++ h :: hs2))) k pre s
    = mt (alts (map lit (h :: hs2))) k pre s.
Proof.
  induction hs1 as [|h1 hs1 IH]; intros h hs2 k pre s H; [reflexivity |].
  cbn [app map]. rewrite mt_alts_cons.
  - rewrite (H h1) by now left. apply IH. intros h' Hh. apply H. now right.
  - destruct hs1; discriminate.
Qed.

(** *** Matches of the heading patterns *)

Lemma match_sections_sound hs pre s len :
  hs <> [] ->
  match_at (sections_rx hs) pre s = Some len ->
  at_bol true pre = true
  /\ exists h ws rest,
       In h hs /\ s = h ++ ws ++ rest /\ forallb is_space ws = true
       /\ at_eol true rest = true /\ len = length h + length ws.
Proof.
  intros Hne H. unfold match_at, sections_rx in H. cbn [seqs mt] in H.
  destruct (at_bol true pre) eqn:Hb; [| discriminate]. split; auto.
  apply mt_alts_lit_sound in H as (h & Hin & H); [| exact Hne].
  apply mt_lit_sound in H as (s1 & -> & H).
  unfold spaces in H. cbn [mt] in H.
  apply m_rep_sound in H as (n & _ & _ & H3 & H4 & H5).
  destruct (at_eol true (skipn n s1)) eqn:He; [| discriminate].
  injection H5 as <-.
  exists h, (firstn n s1), (skipn n s1). repeat split; auto.
  - now rewrite firstn_skipn.
  - rewrite !length_app, !length_rev, firstn_length_le by assumption. lia.
Qed.

Lemma known_matches_at h pre ws rest :
  at_bol true pre = true -> forallb is_space ws = true ->
  at_eol true rest = true ->
  is_some (match_at (known_rx h) pre (h ++ ws ++ rest)) = true.
Proof.
  intros Hb Hw He. unfold match_at, known_rx. cbn [seqs mt]. rewrite Hb.
  rewrite mt_lit_complete. unfold spaces. cbn [mt].
  apply m_rep_some; auto; try lia; try (intros h0 E; discriminate E).
  now rewrite He.
Qed.

(** [re.search] gives the leftmost match. *)
Lemma search_leftmost r a :
  forall pre b,
    is_some (match_at r (rev a ++ pre) b) = true ->
    exists m, search_from r pre (a ++ b) = Some m
              /\ m_start m <= length pre + length a.
Proof.
  induction a as [|c a IH]; intros pre b H.
  - cbn [rev app] in *.
    destruct (match_at r pre b) as [len|] eqn:E; [| discriminate].
    exists (mk_match pre b len). split; [| cbn; lia].
    destruct b; cbn [search_from]; now rewrite E.
  - cbn [app search_from]. destruct (match_at r pre (c :: a ++ b)) as [len|].
    + eexists. split; [reflexivity | cbn; lia].
    + rewrite rev_cons_app in H. apply IH in H as (m & E & Hm).
      exists m. split; [exact E | cbn [length] in Hm; cbn [length]; lia].
Qed.

Lemma finditer_head r pre s len :
  match_at r pre s = Some len ->
  exists rest, finditer_from r 0 pre s = mk_match pre s len :: rest.
Proof.
  intros H. destruct s; cbn [finditer_from]; rewrite H; eexists; reflexivity.
Qed.

(** The scan tries every position that no earlier match runs over. *)
Lemma finditer_reaches r a :
  forall skip pre b,
    skip <= length a ->
    (forall a1 a2 len,
        a = a1 ++ a2 -> a2 <> [] ->
        match_at r (rev a1 ++ pre) (a2 ++ b) = Some len -> len <= length a2) ->
    exists ms,
      finditer_from r skip pre (a ++ b)
      = ms ++ finditer_from r 0 (rev a ++ pre) b.
Proof.
  induction a as [|c a IH]; intros skip pre b Hs H.
  - cbn [length] in Hs. replace skip with 0 by lia. now exists [].
  - assert (Tr : forall a1 a2 len,
               a = a1 ++ a2 -> a2 <> [] ->
               match_at r (rev a1 ++ c :: pre) (a2 ++ b) = Some len ->
               len <= length a2).
    { intros a1 a2 len Ea Hne Hm. apply (H (c :: a1) a2 len); auto.
      - cbn [app]. now f_equal.
      - now rewrite rev_cons_app. }
    cbn [app]. destruct skip as [|skip].
    + rewrite finditer_from_cons0.
      destruct (match_at r pre (c :: a ++ b)) as [len|] eqn:E.
      * assert (len <= length (c :: a)).
        { apply (H [] (c :: a) len); auto. discriminate. }
        destruct (IH (len - 1) (c :: pre) b) as [ms Hms]; auto.
        { cbn [length] in *. lia. }
        exists (mk_match pre (c :: a ++ b) len :: ms).
        cbn [app]. now rewrite Hms, rev_cons_app.
      * destruct (IH 0 (c :: pre) b) as [ms Hms]; auto; [lia |].
        exists ms. now rewrite Hms, rev_cons_app.
    + cbn [finditer_from].
      destruct (IH skip (c :: pre) b) as [ms Hms]; auto.
      { cbn [length] in Hs. lia. }
      exists ms. now rewrite Hms, rev_cons_app.
Qed.

(** *** What the first two loops record *)

Lemma record_candidates_extends cs :
  forall fp, exists ext, record_candidates cs fp = fp ++ ext.
Proof.
  unfold record_candidates.
  induction cs as [|[k v] cs IH]; intros fp; cbn [fold_left fst snd].
  - exists []. now rewrite app_nil_r.
  - unfold dict_setdefault. destruct (dict_get k fp) eqn:E.
    + apply IH.
    + rewrite dict_set_new by assumption.
      destruct (IH (fp ++ [(k, v)])) as [ext Hext].
      exists ((k, v) :: ext). etransitivity; [exact Hext |].
      now rewrite <- app_assoc.
Qed.

Lemma record_candidates_In cs :
  forall fp x, In x (record_candidates cs fp) -> In x fp \/ In x cs.
Proof.
  unfold record_candidates.
  induction cs as [|[k v] cs IH]; intros fp x H; cbn [fold_left fst snd] in H.
  - now left.
  - apply IH in H as [H|H]; [| right; now right].
    unfold dict_setdefault in H. destruct (dict_get k fp) eqn:E; [now left |].
    rewrite dict_set_new in H by assumption.
    apply in_app_or in H as [H|[<-|[]]]; [now left | right; now left].
Qed.

Lemma found_positions_In ft h q :
  In (h, q) (found_positions ft) ->
  (In h KNOWN_ORDER
   /\ exists m, re_search (known_rx h) ft = Some m /\ q = m_start m)
  \/ In (h, q) (caps_candidates ft).
Proof.
  rewrite found_positions_all. intros H.
  apply record_candidates_In in H as [[]|H].
  apply in_app_or in H as [H|H]; [left | now right].
  unfold known_hits, hits in H. apply in_flat_map in H as (h' & Hh & H).
  destruct (re_search (known_rx h') ft) as [m|] eqn:E; [| contradiction].
  destruct H as [H|[]]. injection H as <- <-. split; auto. now exists m.
Qed.

Lemma found_names_heading_like ft h q :
  In (h, q) (found_positions ft) -> heading_like h = true.
Proof.
  intros H. apply found_positions_In in H as [[Hk _]|H].
  - unfold KNOWN_ORDER in Hk. cbn [In] in Hk.
    repeat (destruct Hk as [<-|Hk]; [vm_compute; reflexivity |]).
    contradiction.
  - apply caps_candidates_sound in H
      as (a & m & b & _ & _ & _ & _ & (c & rest & -> & Hc & Hr) & _ & -> & _).
    now apply strip_heading_like.
Qed.

(** DISCUSSION is recorded at its first standalone line, after DIGEST and
    BACKGROUND at most. *)
Lemma found_positions_around ft m0 :
  re_search (known_rx DISCUSSION) ft = Some m0 ->
  exists a b,
    found_positions ft = a ++ (DISCUSSION, m_start m0) :: b
    /\ forall y, In y a -> fst y = py "DIGEST" \/ fst y = py "BACKGROUND".
Proof.
  intros Em. rewrite found_positions_all. unfold known_hits, hits, KNOWN_ORDER.
  cbn [flat_map]. change (py "DISCUSSION") with DISCUSSION. rewrite Em.
  rewrite <- !app_assoc. cbn [app].
  match goal with
  | |- context [(DISCUSSION, m_start m0) :: ?T] => generalize T
  end.
  intros T.
  destruct (re_search (known_rx (py "DIGEST")) ft) as [m1|];
  destruct (re_search (known_rx (py "BACKGROUND")) ft) as [m2|]; cbn [app].
  - destruct (record_candidates_extends T
                [(py "DIGEST", m_start m1); (py "BACKGROUND", m_start m2);
                 (DISCUSSION, m_start m0)]) as [ext E].
    exists [(py "DIGEST", m_start m1); (py "BACKGROUND", m_start m2)], ext.
    split; [exact E |]. intros y [<-|[<-|[]]]; auto.
  - destruct (record_candidates_extends T
                [(py "DIGEST", m_start m1); (DISCUSSION, m_start m0)])
      as [ext E].
    exists [(py "DIGEST", m_start m1)], ext.
    split; [exact E |]. intros y [<-|[]]; auto.
  - destruct (record_candidates_extends T
                [(py "BACKGROUND", m_start m2); (DISCUSSION, m_start m0)])
      as [ext E].
    exists [(py "BACKGROUND", m_start m2)], ext.
    split; [exact E |]. intros y [<-|[]]; auto.
  - destruct (record_candidates_extends T [(DISCUSSION, m_start m0)])
      as [ext E].
    exists [], ext. split; [exact E |]. intros y [].
Qed.

(** *** The pattern of the headings at a DISCUSSION line *)

(** A literal that matches at a DISCUSSION line, with [\s*$] after it, is
    DISCUSSION or goes on over the end of the line. *)
Lemma lit_at_DISCUSSION R h (k : text -> text -> option R) pre tail r :
  at_eol true tail = true ->
  mt (lit h) (mt spaces (mt (Eol true) k)) pre (DISCUSSION ++ tail) = Some r ->
  h = DISCUSSION \/ exists x, h = DISCUSSION ++ NL :: x.
Proof.
  intros He H. apply mt_lit_sound in H as (s1 & E & H).
  unfold spaces in H. cbn [mt] in H.
  apply m_rep_sound in H as (n & _ & _ & Hn & Hs & Hk).
  destruct (at_eol true (skipn n s1)) eqn:Hee; [| discriminate]. clear Hk.
  apply app_eq_app in E as (l & [[E1 E2]|[E1 E2]]).
  - destruct l as [|c l]; [left; now rewrite app_nil_r in E1 |]. exfalso.
    destruct (@DISCUSSION_chars c) as [Hsp Hnl].
    { rewrite E1. apply in_or_app. right. now left. }
    subst s1. destruct n; cbn [firstn skipn app forallb at_eol] in *.
    + rewrite Hnl in Hee. discriminate.
    + rewrite Hsp in Hs. discriminate.
  - destruct l as [|c l]; [left; now rewrite app_nil_r in E1 |]. right.
    subst tail. cbn [app at_eol] in He. apply andb_true_iff in He as [He _].
    unfold is_nl in He. apply N.eqb_eq in He. subst c. now exists l.
Qed.

(** No heading sorted before DISCUSSION matches at a DISCUSSION line. *)
Lemma earlier_names_fail R ft m0 y (k : text -> text -> option R) pre tail :
  at_eol true tail = true ->
  re_search (known_rx DISCUSSION) ft = Some m0 ->
  In y (found_positions ft) ->
  snd y < m_start m0
  \/ (snd y = m_start m0
      /\ (fst y = py "DIGEST" \/ fst y = py "BACKGROUND")) ->
  mt (lit (fst y)) (mt spaces (mt (Eol true) k)) pre (DISCUSSION ++ tail)
  = None.
Proof.
  intros He Em Hy Hpos.
  destruct (mt (lit (fst y)) _ pre (DISCUSSION ++ tail)) eqn:E;
    [exfalso | reflexivity].
  apply lit_at_DISCUSSION in E; [| exact He].
  destruct y as [h q]. cbn [fst snd] in *.
  destruct Hpos as [Hlt | [_ [->| ->]]].
  2,3: destruct E as [E|[x E]]; vm_compute in E; discriminate E.
  apply found_positions_In in Hy as [[Hk (m & Es & ->)]|Hc].
  - destruct E as [->|[x ->]].
    + rewrite Em in Es. injection Es as <-. lia.
    + unfold KNOWN_ORDER in Hk. cbn [In] in Hk.
      repeat (destruct Hk as [Hk|Hk]; [vm_compute in Hk; discriminate Hk |]).
      contradiction.
  - apply caps_candidates_sound in Hc
      as (a' & m & b' & Eft & Hlen & Hb & Heb
          & (c & rest & -> & Hc1 & Hr) & _ & Hcap & _).
    destruct (@strip_heading_like c rest Hc1 Hr) as [_ (w & Hw & Hws)].
    rewrite <- Hcap in Hw.
    assert (Hs : is_some (match_at (known_rx DISCUSSION) (rev a' ++ [])
                            (h ++ w ++ b')) = true).
    { rewrite app_nil_r. destruct E as [->|[x ->]].
      - now apply known_matches_at.
      - rewrite <- app_assoc.
        now apply (known_matches_at DISCUSSION (rev a') []
                     (NL :: x ++ w ++ b')). }
    apply search_leftmost in Hs as (m' & Es & Hm').
    rewrite (app_assoc h w b'), <- Hw, <- Eft in Es.
    unfold re_search in Em. rewrite Em in Es. injection Es as <-.
    cbn [length] in Hm'. lia.
Qed.

Lemma spaces_eol_after h pre0 tail :
  at_eol true tail = true ->
  exists n,
    m_rep is_space 0 None
      (fun (pre s : text) =>
         if at_eol true s then Some (length pre - length pre0) else None)
      (rev h ++ pre0) tail
    = Some (length h + n)
    /\ n <= length tail
    /\ forallb is_space (firstn n tail) = true.
Proof.
  intros He.
  destruct (m_rep is_space 0 None _ (rev h ++ pre0) tail) as [len|] eqn:E.
  - pose proof E as E'.
    apply m_rep_sound in E' as (n & _ & _ & H3 & H4 & H5).
    destruct (at_eol true (skipn n tail)); [| discriminate].
    injection H5 as H5. exists n. repeat split; auto.
    f_equal. rewrite <- H5.
    rewrite !length_app, !length_rev, firstn_length_le by assumption. lia.
  - exfalso.
    pose proof (@m_rep_some _ is_space
                  (fun (pre s : text) =>
                     if at_eol true s
                     then Some (length pre - length pre0) else None)
                  [] 0 None (rev h ++ pre0) tail
                  eq_refl (le_n 0)) as H.
    cbn [app] in H. rewrite E in H.
    assert (is_some (@None nat) = true); [| discriminate].
    apply H; [intros h0 Hh; discriminate Hh |]. cbn [rev app].
    now rewrite He.
Qed.

(** At a DISCUSSION line the pattern of the headings matches the line. *)
Lemma match_sections_at ft m0 s1 s2 pre tail :
  at_bol true pre = true ->
  at_eol true tail = true ->
  re_search (known_rx DISCUSSION) ft = Some m0 ->
  (forall y, In y s1 ->
     In y (found_positions ft)
     /\ (snd y < m_start m0
         \/ (snd y = m_start m0
             /\ (fst y = py "DIGEST" \/ fst y = py "BACKGROUND")))) ->
  exists len,
    match_at (sections_rx (map fst (s1 ++ (DISCUSSION, m_start m0) :: s2)))
      pre (DISCUSSION ++ tail) = Some len
    /\ strip (firstn len (DISCUSSION ++ tail)) = DISCUSSION.
Proof.
  intros Hb He Em Hs1.
  destruct (spaces_eol_after DISCUSSION pre tail He) as (n & E & Hn & Hs).
  exists (length DISCUSSION + n). split.
  - unfold match_at, sections_rx. cbn [seqs mt]. rewrite Hb.
    rewrite map_app. cbn [map fst]. rewrite mt_alts_lit_first.
    + apply mt_alts_head. rewrite mt_lit_complete. exact E.
    + intros h' Hh. apply in_map_iff in Hh as (y & <- & Hy).
      destruct (Hs1 y Hy) as [Hin Hpos].
      now apply earlier_names_fail with (ft := ft) (m0 := m0).
  - rewrite firstn_app_2. unfold strip.
    replace (lstrip (DISCUSSION ++ firstn n tail))
      with (DISCUSSION ++ firstn n tail) by reflexivity.
    rewrite rstrip_app_word by reflexivity.
    rewrite rstrip_all_space by assumption. apply app_nil_r.
Qed.

(** No match of the pattern of the headings runs over a line start that
    no stretch of heading characters reaches. *)
Lemma no_match_across hs a a1 a2 b len :
  hs <> [] ->
  (forall h, In h hs -> heading_like h = true) ->
  heading_run [] a = false ->
  a = a1 ++ a2 -> a2 <> [] ->
  match_at (sections_rx hs) (rev a1 ++ []) (a2 ++ b) = Some len ->
  len <= length a2.
Proof.
  intros Hne Hh Hrun Ea Hn Hm.
  apply match_sections_sound in Hm
    as (Hb & h & ws & rest & Hin & Es & Hws & _ & ->); [| exact Hne].
  destruct (Nat.le_gt_cases (length h + length ws) (length a2)) as [|Hgt];
    [assumption | exfalso].
  assert (Hl : heading_like a2 = true).
  { replace a2 with (firstn (length a2) (h ++ ws)).
    - apply heading_like_firstn.
      + apply heading_like_app_spaces; auto.
      + destruct a2; [contradiction | cbn [length]; lia].
    - rewrite app_assoc in Es.
      assert (F : firstn (length a2) (a2 ++ b)
                  = firstn (length a2) ((h ++ ws) ++ rest)) by now rewrite Es.
      rewrite firstn_app, Nat.sub_diag, firstn_all in F.
      cbn [firstn] in F. rewrite app_nil_r in F.
      rewrite firstn_app in F.
      replace (length a2 - length (h ++ ws)) with 0 in F
        by (rewrite length_app; lia).
      cbn [firstn] in F. rewrite app_nil_r in F. now symmetry. }
  rewrite (@heading_run_split a [] Hrun a1 a2 Ea Hb) in Hl. discriminate.
Qed.

Lemma bodies_keeps ft ms :
  forall out k, dict_get k out <> None -> dict_get k (bodies ft ms out) <> None.
Proof.
  intros out k H. rewrite bodies_fold, dict_get_fold_set.
  destruct (find _ _); [discriminate | assumption].
Qed.

Lemma bodies_has_mark ft ms name st en :
  In (name, st, en) ms ->
  forall out, dict_get name (bodies ft ms out) <> None.
Proof.
  induction ms as [|[[n s] e] ms IH]; intros H out; [contradiction |].
  cbn [bodies]. destruct H as [H|H].
  - injection H as -> -> ->. apply bodies_keeps.
    rewrite dict_get_set_same. discriminate.
  - now apply IH.
Qed.

(** A DISCUSSION line that no stretch of heading characters reaches is a
    heading of the segmentation. *)
Lemma segment_heading_key ft a tail :
  ft = a ++ DISCUSSION ++ tail ->
  at_bol true (rev a) = true -> at_eol true tail = true ->
  heading_run [] a = false ->
  dict_get DISCUSSION (segment ft) <> None.
Proof.
  intros Eft Hb He Hrun.
  destruct (search_leftmost (known_rx DISCUSSION) a [] (DISCUSSION ++ tail))
    as (m0 & Em & _).
  { rewrite app_nil_r.
    now apply (known_matches_at DISCUSSION (rev a) [] tail). }
  rewrite <- Eft in Em. change (re_search (known_rx DISCUSSION) ft = Some m0) in Em.
  destruct (@found_positions_around ft m0 Em) as (fa & fb & Efp & Hfa).
  unfold segment.
  replace (is_empty ft) with false by (rewrite Eft; now destruct a).
  rewrite Efp.
  replace (is_empty (fa ++ (DISCUSSION, m_start m0) :: fb)) with false
    by (now destruct fa).
  destruct (sorted_by_pos_split fa (DISCUSSION, m_start m0) fb)
    as (s1 & s2 & Es & Hs1).
  assert (Hin : forall y, In y (s1 ++ (DISCUSSION, m_start m0) :: s2) ->
                          In y (found_positions ft)).
  { intros y Hy. rewrite Efp. apply sorted_by_pos_In. now rewrite Es. }
  rewrite Es.
  destruct (@match_sections_at ft m0 s1 s2 (rev a) tail Hb He Em)
    as (len & Elen & Estrip).
  { intros y Hy. split.
    - apply Hin. apply in_or_app. now left.
    - cbn [snd] in Hs1. destruct (Hs1 y Hy) as [?|[? ?]]; auto. }
  unfold marks, re_finditer.
  destruct (@finditer_reaches
              (sections_rx (map fst (s1 ++ (DISCUSSION, m_start m0) :: s2)))
              a 0 [] (DISCUSSION ++ tail)) as [ms Hms]; [lia | |].
  { intros a1 a2 len' Ea Hn Hm.
    eapply no_match_across; [| | exact Hrun | exact Ea | exact Hn | exact Hm].
    - destruct s1; discriminate.
    - intros h Hh. apply in_map_iff in Hh as ([h' q] & <- & Hy).
      apply Hin in Hy. now apply found_names_heading_like in Hy. }
  rewrite Eft at 2. rewrite Hms, app_nil_r.
  destruct (@finditer_head _ _ _ _ Elen) as [rest ->].
  rewrite map_app. cbn [map mk_match group0 m_start m_end]. rewrite Estrip.
  eapply bodies_has_mark. apply in_or_app. right. left. reflexivity.
Qed.

(** C8 (amended). A "Page N" footer line and a bare docket-number line
    leave no trace: cleaning a text that has such a line gives what
    cleaning the text without that line gives.  A DISCUSSION line is
    never one of the lines the cleaning drops.  In the text the segmenter
    works on, the normal form of the cleaned text, a DISCUSSION line that
    no stretch of heading characters begun at an earlier line start runs
    up to is a heading key of the sections.  A DISCUSSION line that is the
    first line of the text is still the first line of the cleaned text,
    and is such a line. *)
Theorem boilerplate_dropped_heading_kept :
  (forall l1 l l2,
      (forall x, In x (l1 ++ l :: l2) -> ~ In NL x) ->
      page_footer l \/ bare_docket l ->
      clean_report_text (join_nl (l1 ++ l :: l2))
      = clean_report_text (join_nl (l1 ++ l2)))
  /\ (forall t,
        t <> [] ->
        clean_report_text t
        = normalize_text
            (re_sub docket_rx (fun _ => [NL]) (join_nl (kept_lines t))))
  /\ (forall t,
        In (py "DISCUSSION") (split_nl t) ->
        In (py "DISCUSSION") (kept_lines t))
  /\ (forall t a tail,
        normalize_text (clean_report_text t) = a ++ py "DISCUSSION" ++ tail ->
        at_bol true (rev a) = true ->
        at_eol true tail = true ->
        heading_run [] a = false ->
        dict_get (py "DISCUSSION") (split_sections (clean_report_text t))
        <> None)
  /\ (forall t,
        first_line_is (py "DISCUSSION") t ->
        first_line_is (py "DISCUSSION") (clean_report_text t)
        /\ dict_get (py "DISCUSSION") (split_sections (clean_report_text t))
           <> None).
Proof.
  split; [| split; [| split; [| split]]].
  - intros l1 l l2 Hn Hl. apply clean_join_drop; auto.
    destruct Hl as [Hl|Hl].
    + pose proof Hl as (ds & Hne & Hd & ->).
      rewrite rstrip_ends_digits by assumption.
      now apply dropped_page_footer.
    + pose proof Hl as (ds & Hlen & Hd & ->).
      rewrite rstrip_ends_digits; auto.
      * now apply dropped_bare_docket.
      * destruct ds; [cbn [length] in Hlen; lia | discriminate].
  - apply clean_report_text_kept.
  - intros t. rewrite DISCUSSION_py. apply kept_lines_DISCUSSION.
  - intros t a tail E Hb He Hrun. rewrite DISCUSSION_py in *.
    rewrite split_sections_segment.
    exact (segment_heading_key _ _ E Hb He Hrun).
  - intros t Ht. rewrite DISCUSSION_py in *.
    apply clean_report_text_keeps_first_line in Ht.
    split; [exact Ht |].
    rewrite split_sections_segment.
    apply normalize_text_keeps_first_line in Ht.
    destruct Ht as [E|[r E]].
    + apply (segment_heading_key [] []); auto; now rewrite app_nil_r.
    + now apply (segment_heading_key [] (NL :: r)).
Qed.

End HeadingKey.

Section CleanWitness.
Local Existing Instance ascii_tables.

(** C8, witness: a footer between two lines, a DISCUSSION heading in the
    middle of a decision, and a text that opens with the heading. *)
Lemma boilerplate_dropped_heading_kept_witness :
  clean_report_text (join_nl ([py "x"] ++ py "Page 4" :: [py "y"]))
  = clean_report_text (join_nl ([py "x"] ++ [py "y"]))
  /\ In (py "DISCUSSION")
        (kept_lines (py "The agency disagrees.\nDISCUSSION\nWe deny it."))
  /\ dict_get (py "DISCUSSION")
       (split_sections
          (clean_report_text
             (py "The agency disagrees.\nPage 2\n\nDISCUSSION\n\nWe deny it.")))
     <> None
  /\ first_line_is (py "DISCUSSION")
       (clean_report_text (py "DISCUSSION\nThe protest is denied."))
  /\ dict_get (py "DISCUSSION")
       (split_sections (clean_report_text (py "DISCUSSION\nThe protest is denied.")))
     <> None.
Proof.
  pose proof boilerplate_dropped_heading_kept as (H1 & _ & H3 & H4 & H5).
  split; [| split; [| split]].
  - apply H1.
    + intros x Hx. cbn [app In] in Hx.
      repeat (destruct Hx as [<-|Hx];
              [vm_compute; intros H;
               repeat (destruct H as [H|H]; [discriminate H |]); exact H |]).
      contradiction.
    + left. exists [52%N]. split; [discriminate | split; reflexivity].
  - apply H3. vm_compute. right. now left.
  - apply (H4 _ (py "The agency disagrees.\n\n") (py "\n\nWe deny it.")).
    + vm_compute. reflexivity.
    + vm_compute. reflexivity.
    + vm_compute. reflexivity.
    + vm_compute. reflexivity.
  - apply H5.
    right. exists (py "The protest is denied."). vm_compute. reflexivity.
Defined.

End CleanWitness.

(** C8, counterexample: in ["ABCD\nDISCUSSION"] nothing is boilerplate and
    the cleaned text is the text itself, but [CAPS_LINE] matches the two
    lines as one stretch, which comes first among the headings, so the
    only key of the sections is ["ABCD\nDISCUSSION"]. *)
Lemma discussion_line_not_a_key :
  ~ (forall (U : Unicode) (t : text),
        In (py "DISCUSSION") (split_nl t) ->
        In (py "DISCUSSION") (split_nl (clean_report_text t))
        /\ dict_get (py "DISCUSSION") (split_sections (clean_report_text t))
           <> None).
Proof.
  intros H.
  destruct (H ascii_tables (py "ABCD\nDISCUSSION")) as [_ Hk].
  - vm_compute. right. now left.
  - apply Hk. vm_compute. reflexivity.
Qed.

(** ** Result links *)

Lemma collect_loop_sound anchors :
  forall links seen u,
    In u (collect_loop anchors links seen) ->
    In u links
    \/ exists a, In a anchors
                 /\ contains (py "/products/") (href a) = true
                 /\ a_text a <> []
                 /\ u = absolute (href a).
Proof.
  induction anchors as [|a anchors IH]; intros links seen u H.
  - now left.
  - cbn [collect_loop] in H.
    destruct (negb (is_empty (href a)) && contains (py "/products/") (href a)
              && negb (is_empty (a_text a)) && negb (mem (href a) seen)) eqn:E.
    + apply IH in H as [H|(b & Hb & H)].
      * apply in_app_or in H as [H|[<-|[]]]; [now left |].
        right. exists a.
        apply andb_true_iff in E as [E _].
        apply andb_true_iff in E as [E Et].
        apply andb_true_iff in E as [_ Ec].
        repeat split; auto; [now left |].
        apply negb_true_iff, is_empty_false in Et. exact Et.
      * right. exists b. split; [now right | exact H].
    + apply IH in H as [H|(b & Hb & H)]; [now left |].
      right. exists b. split; [now right | exact H].
Qed.

(** Every link returned comes from an anchor of the page whose href holds
    "/products/" and whose text is not empty, and is that href made
    absolute. *)
Lemma collect_result_links_sound soup u :
  In u (collect_result_links_from_page soup) ->
  exists a, In a (main_anchors soup)
            /\ contains (py "/products/") (href a) = true
            /\ a_text a <> []
            /\ u = absolute (href a).
Proof.
  intros H. apply collect_loop_sound in H as [[]|(a & Ha & H)].
  exists a. split; [| exact H].
  unfold select_products in Ha. now apply filter_In in Ha as [Ha _].
Qed.

Lemma absolute_relative h :
  startswith (py "/") h = true -> absolute h = py "https://www.gao.gov" ++ h.
Proof. intros H. unfold absolute. now rewrite H. Qed.

(** C3, the code at the failing input: the set of seen links is asked
    for the href as written and told the absolute one, so a relative
    href met twice is listed twice. *)
Theorem collect_result_links_repeats_relative_href :
  collect_result_links_from_page page_with_repeated_link
  = [ py "https://www.gao.gov/products/b-423001";
      py "https://www.gao.gov/products/b-423001" ]
  /\ ~ NoDup (collect_result_links_from_page page_with_repeated_link).
Proof.
  assert (E : collect_result_links_from_page page_with_repeated_link
              = [ py "https://www.gao.gov/products/b-423001";
                  py "https://www.gao.gov/products/b-423001" ])
    by (vm_compute; reflexivity).
  split; [exact E |].
  rewrite E. intros H. inversion H as [|x l Hx _]; subst.
  apply Hx. now left.
Qed.

(** ** Acquisition layer *)

Arguments base_headers : simpl never.
Arguments py : simpl never.
Arguments dict_update : simpl never.
Arguments dict_set : simpl never.
Arguments contains : simpl never.
Arguments nth : simpl never.

(** Case analysis on the script, the draws and the status codes. *)
Ltac crack :=
  match goal with
  | |- context [match ?x with _ => _ end] => is_var x; destruct x
  | |- context [(status_code ?r =? ?c)%Z] =>
      destruct (Z.eqb_spec (status_code r) c)
  end.

Ltac run_acquisition :=
  cbv beta delta [get_html try_except _fetch session_get build_session warm_up
    get_with _rand_ua set_user_agent adopt print bind ret gets modify];
  cbn;
  repeat (crack; cbn).

Lemma dict_update_nil {V} (d : dict V) : dict_update d [] = d.
Proof. reflexivity. Qed.

Lemma get_html_never_raises u w : exists o w', get_html u w = (inl o, w').
Proof.
  destruct w as [s n d q l f]. run_acquisition.
  all: eexists; eexists; reflexivity.
Qed.










(** ** Pipeline Driver *)

Section DriverFacts.
Context {U : Unicode}.
Variable locked : text -> bool.
Variables out_csv out_xlsx : text.

Lemma lift_keeps {A} (m : M World A) d :
  records (snd (lift m d)) = records d
  /\ processed (snd (lift m d)) = processed d.
Proof. unfold lift. destruct (m (world d)). split; reflexivity. Qed.

Lemma scrape_returns u w :
  exists rec w', scrape_item_with_bs u w = (inl rec, w').
Proof.
  unfold scrape_item_with_bs, bind.
  destruct (get_html_never_raises u w) as (o & w' & E). rewrite E.
  destruct o as [soup|].
  - destruct (get_title_file_date_from_doc soup) as [[t f] d].
    eexists. eexists. reflexivity.
  - eexists. eexists. reflexivity.
Qed.


Lemma flush_keeps warn d :
  records (snd (flush locked warn out_csv out_xlsx d)) = records d
  /\ processed (snd (flush locked warn out_csv out_xlsx d)) = processed d.
Proof.
  unfold flush, bind, gets. apply lift_keeps.
Qed.


(** One turn of the loop: the record scraped is appended, the count goes
    up by one, and the records are flushed. *)
Lemma process_url_spec u d :
  exists rec w1,
    scrape_item_with_bs u (world d) = (inl rec, w1)
    /\ process_url locked out_csv out_xlsx u d
       = flush locked WARN_excel_locked out_csv out_xlsx
           {| world := w1;
              records := records d ++ [rec];
              processed := (processed d + 1)%Z |}.
Proof.
  destruct (scrape_returns u (world d)) as (rec & w1 & E).
  exists rec, w1. split; [exact E |].
  unfold process_url, bind at 1, lift at 1. rewrite E.
  unfold bind, modify. reflexivity.
Qed.

Lemma process_url_keeps u d :
  exists rec,
    fst (scrape_item_with_bs u (world d)) = inl rec
    /\ records (snd (process_url locked out_csv out_xlsx u d))
       = records d ++ [rec]
    /\ processed (snd (process_url locked out_csv out_xlsx u d))
       = (processed d + 1)%Z.
Proof.
  destruct (process_url_spec u d) as (rec & w1 & E1 & E2).
  exists rec. rewrite E1, E2.
  split; [reflexivity |]. apply flush_keeps.
Qed.

End DriverFacts.

Section BudgetFacts.
Context {U : Unicode}.
Variable locked : text -> bool.
Variables out_csv out_xlsx : text.

Local Notation "'for_links_'" := (for_links locked out_csv out_xlsx).
Local Notation "'process_url_'" := (process_url locked out_csv out_xlsx).

Lemma for_links_cons upto u rest d :
  for_links_ upto (u :: rest) d
  = if budget_reached upto (processed d)
    then (lift (print (INFO_upto upto)) ;;; raise StopIteration) d
    else match process_url_ u d with
         | (inl _, d1) => for_links_ upto rest d1
         | (inr e, d1) => (inr e, d1)
         end.
Proof.
  cbn [for_links]. unfold bind at 1, gets.
  destruct (budget_reached upto (processed d)); reflexivity.
Qed.

(** Without a budget the loop takes the links one after the other. *)
Lemma for_links_unbounded_cons u rest d :
  for_links_ 0 (u :: rest) d
  = match process_url_ u d with
    | (inl _, d1) => for_links_ 0 rest d1
    | (inr e, d1) => (inr e, d1)
    end.
Proof. rewrite for_links_cons. reflexivity. Qed.



Section Budget.
Variable N : nat.
Hypothesis N_pos : 0 < N.


End Budget.

End BudgetFacts.

Section PagesFacts.
Context {U : Unicode}.
Variable locked : text -> bool.
Variables out_csv out_xlsx : text.
Variable max_pages : Z.

Local Notation "'for_links_'" := (for_links locked out_csv out_xlsx).
Local Notation "'pages_' fuel upto" :=
  (pages locked fuel out_csv out_xlsx max_pages upto)
  (at level 10, fuel at level 9, upto at level 9).

Lemma pages_unfold fuel upto page_url page_num d :
  pages_ (S fuel) upto page_url page_num d
  = if is_empty page_url then (inl Finished, d)
    else
      match lift (get_html page_url) d with
      | (inl None, d1) =>
          (inl Finished, snd (lift (print (WARN_skipping_page page_url)) d1))
      | (inl (Some soup), d1) =>
          if is_empty (collect_result_links_from_page soup)
          then (inl Finished, snd (lift (print INFO_no_links) d1))
          else
            match for_links_ upto (collect_result_links_from_page soup) d1 with
            | (inl _, d2) =>
                after_links locked out_csv out_xlsx max_pages fuel upto soup
                  page_num d2
            | (inr e, d2) => (inr e, d2)
            end
      | (inr e, d1) => (inr e, d1)
      end.
Proof.
  cbn [pages]. destruct (is_empty page_url); [reflexivity |].
  unfold bind at 1. destruct (lift (get_html page_url) d) as [[[soup|]|e] d1];
    try reflexivity.
  destruct (is_empty (collect_result_links_from_page soup)); reflexivity.
Qed.



Section Budget.
Variable N : nat.
Hypothesis N_pos : 0 < N.

Lemma firstn_all_app {A} (l ext : list A) n :
  length l = n -> firstn n (l ++ ext) = l.
Proof.
  intros <-. rewrite firstn_app, Nat.sub_diag, firstn_all. cbn.
  apply app_nil_r.
Qed.


End Budget.

End PagesFacts.

Section RunFacts.
Context {U : Unicode}.
Variable locked : text -> bool.
Variables out_csv out_xlsx : text.
Variable max_pages : Z.

Local Notation "'pages_' fuel upto" :=
  (pages locked fuel out_csv out_xlsx max_pages upto)
  (at level 10, fuel at level 9, upto at level 9).
Local Notation "'run_' fuel search_url upto" :=
  (run locked fuel search_url out_csv out_xlsx max_pages upto)
  (at level 10, fuel at level 9, search_url at level 9, upto at level 9).
Local Notation "'flush_'" := (flush locked WARN_final_locked out_csv out_xlsx).

Lemma build_session_returns w : exists s w', build_session w = (inl s, w').
Proof.
  destruct w as [s n d q l f].
  cbv beta delta [build_session warm_up try_except get_with _rand_ua bind ret];
    cbn; repeat (crack; cbn).
  all: eexists; eexists; reflexivity.
Qed.


Lemma run_unfold fuel search_url upto w :
  run_ fuel search_url upto w
  = try_finally
      (try_except (pages_ fuel upto search_url 1%Z) (fun _ => true) run_handler)
      flush_ (started w).
Proof.
  unfold run, run_from, started, bind.
  destruct (build_session_returns w) as (s & w' & E).
  unfold lift at 1 3. cbn [world]. rewrite E. reflexivity.
Qed.

Lemma run_handler_keeps e d :
  records (snd (run_handler e d)) = records d
  /\ exists x, fst (run_handler e d) = inl x /\ x = Finished.
Proof.
  destruct e; cbn; split; eauto.
Qed.



Section Budget.
Variable N : nat.
Hypothesis N_pos : 0 < N.


End Budget.

End RunFacts.

Section DriverTheorems.
Context {U : Unicode}.
Variable locked : text -> bool.
Variables out_csv out_xlsx : text.



End DriverTheorems.

(** ** The driver on scripted networks *)

Section DriverWitness.
Local Existing Instance ascii_tables.



End DriverWitness.

(* ================================================================= *)
(** * Further properties *)

(** ** What the normaliser and the cleaner return *)

Lemma no3_no_triple s :
  no3 s = true -> forall a b, s <> a ++ NL :: NL :: NL :: b.
Proof.
  intros H a b E. rewrite E in H. apply no3_app_r in H.
  cbn [no3 lead] in H. change (is_nl NL) with true in H. cbv iota in H.
  apply andb_true_iff in H as [H _]. apply Nat.ltb_lt in H. lia.
Qed.

Lemma split_nl_Forall (P : char -> Prop) x :
  Forall P x -> Forall (Forall P) (split_nl x).
Proof.
  induction 1 as [|c x Hc Hx IH]; cbn [split_nl].
  - repeat constructor.
  - destruct (is_nl c); [constructor; auto |].
    destruct (split_nl x) as [|l ls]; [repeat constructor; auto |].
    inversion IH; subst. constructor; auto.
Qed.

Lemma join_nl_Forall (P : char -> Prop) ls :
  P NL -> Forall (Forall P) ls -> Forall P (join_nl ls).
Proof.
  intros Hn. induction 1 as [|l ls Hl Hls IH]; [constructor |].
  destruct ls as [|l2 ls]; [exact Hl |].
  change (join_nl (l :: l2 :: ls)) with (l ++ NL :: join_nl (l2 :: ls)).
  apply Forall_app. split; [exact Hl | constructor; auto].
Qed.

Lemma rstrip_Forall (P : char -> Prop) l : Forall P l -> Forall P (rstrip l).
Proof.
  intros H. destruct (rstrip_prefix l) as [r E]. rewrite E in H.
  now apply Forall_app in H as [H _].
Qed.

Lemma filter_idem {A} (f : A -> bool) l : filter f (filter f l) = filter f l.
Proof.
  induction l as [|x l IH]; [reflexivity |]. cbn [filter].
  destruct (f x) eqn:E; [cbn [filter]; rewrite E; now f_equal | exact IH].
Qed.

Lemma filter_forallb {A} (f : A -> bool) l : forallb f (filter f l) = true.
Proof.
  induction l as [|x l IH]; [reflexivity |]. cbn [filter].
  destruct (f x) eqn:E; [cbn [forallb]; now rewrite E | exact IH].
Qed.

Lemma filter_shorter {A} (f : A -> bool) l : length (filter f l) <= length l.
Proof.
  induction l as [|x l IH]; [reflexivity |]. cbn [filter].
  destruct (f x); cbn [length]; lia.
Qed.

Lemma strip_all_space s : forallb is_space s = true -> strip s = [].
Proof. intros H. unfold strip. now rewrite lstrip_all_space. Qed.

Lemma strip_word (c : char) (w : text) :
  forallb (fun x => negb (is_space x)) (c :: w) = true -> strip (c :: w) = c :: w.
Proof.
  intros H. unfold strip. cbn [lstrip].
  pose proof H as H'. cbn [forallb] in H'. apply andb_true_iff in H' as [Hc _].
  destruct (is_space c); [discriminate |].
  rewrite <- (app_nil_r (c :: w)) at 1. rewrite rstrip_app_word by exact H.
  apply app_nil_r.
Qed.

Section ShapeFacts.
Context {U : Unicode}.

Lemma sanitize_is_filter t :
  sanitize_for_excel (Some t) = filter kept_char t.
Proof.
  unfold sanitize_for_excel, re_sub. rewrite sub_any_delete.
  apply filter_ext. intros c. apply control_class_kept.
Qed.

Lemma normalize_text_tidy x : tidy (normalize_text x).
Proof.
  split; [apply normalize_text_no_cr |].
  split; [apply no3_no_triple, normalize_text_no3 |].
  apply normalize_text_stripped.
Qed.

Lemma clean_report_text_tidy x : tidy (clean_report_text x).
Proof.
  unfold clean_report_text. destruct (is_empty x).
  - split; [constructor | split; [| reflexivity]].
    intros a b E. destruct a; discriminate E.
  - apply normalize_text_tidy.
Qed.

Lemma normalize_text_Forall (P : char -> Prop) x :
  P NL -> Forall P x -> Forall P (normalize_text x).
Proof.
  intros Hn H. unfold normalize_text. destruct (is_empty x); [constructor |].
  apply strip_Forall. unfold re_sub. apply sub_Forall.
  { intros _ _. repeat constructor; exact Hn. }
  apply sub_Forall; [apply groups_1_2_Forall |].
  unfold remove_cr. apply Forall_forall. intros c Hc.
  apply filter_In in Hc as [Hc _]. rewrite Forall_forall in H. auto.
Qed.

Lemma clean_report_text_Forall (P : char -> Prop) x :
  P NL -> Forall P x -> Forall P (clean_report_text x).
Proof.
  intros Hn H. unfold clean_report_text. destruct (is_empty x); [constructor |].
  apply normalize_text_Forall; [exact Hn |]. unfold re_sub. apply sub_Forall.
  { intros _ _. repeat constructor; exact Hn. }
  apply join_nl_Forall; [exact Hn |].
  apply Forall_forall. intros l Hl. apply filter_In in Hl as [Hl _].
  apply in_map_iff in Hl as (l0 & <- & Hl0). apply rstrip_Forall.
  pose proof (split_nl_Forall H) as Hs. rewrite Forall_forall in Hs. auto.
Qed.

(** X1. Whatever the input, [normalize_text] and [clean_report_text]
    return a text without carriage return, without three newlines in a
    row, and without white space at its start or end. *)
Theorem cleaned_text_is_tidy (x : text) :
  tidy (normalize_text x) /\ tidy (clean_report_text x).
Proof. split; [apply normalize_text_tidy | apply clean_report_text_tidy]. Qed.

(** X2. [normalize_text] and [clean_report_text] write no character of
    their own but the newline: a property of characters that holds of
    the newline and of every character of the input holds of every
    character of the output. *)
Theorem cleaning_adds_no_characters (P : char -> Prop) (x : text) :
  P NL -> Forall P x ->
  Forall P (normalize_text x) /\ Forall P (clean_report_text x).
Proof.
  intros Hn H. split;
    [now apply normalize_text_Forall | now apply clean_report_text_Forall].
Qed.

Lemma all_space_Forall x :
  forallb is_space x = true -> Forall (fun c => is_space c = true) x.
Proof. intros H. apply Forall_forall. now apply forallb_forall. Qed.

Lemma Forall_all_space x :
  Forall (fun c => is_space c = true) x -> forallb is_space x = true.
Proof. intros H. apply forallb_forall. now apply Forall_forall. Qed.

Lemma normalize_text_blank x :
  forallb is_space x = true -> normalize_text x = [].
Proof.
  intros H. rewrite <- normalize_text_stripped. apply strip_all_space.
  apply Forall_all_space. apply normalize_text_Forall; [reflexivity |].
  now apply all_space_Forall.
Qed.

Lemma clean_report_text_blank x :
  forallb is_space x = true -> clean_report_text x = [].
Proof.
  intros H. destruct (clean_report_text_tidy x) as (_ & _ & <-).
  apply strip_all_space. apply Forall_all_space.
  apply clean_report_text_Forall; [reflexivity |]. now apply all_space_Forall.
Qed.

(** X3. A text of white space only is normalised and cleaned to the
    empty string and has no sections, not even the fallback one. *)
Theorem blank_text_gives_nothing (x : text) :
  forallb is_space x = true ->
  normalize_text x = [] /\ clean_report_text x = []
  /\ split_sections x = [] /\ split_sections (clean_report_text x) = [].
Proof.
  intros H. pose proof (normalize_text_blank x H) as En.
  pose proof (clean_report_text_blank x H) as Ec.
  split; [exact En | split; [exact Ec | split]].
  - unfold split_sections. now rewrite En.
  - now rewrite Ec.
Qed.

(** X4. The sanitizers are idempotent, return a string of kept
    characters only, and never return a longer string than they were
    given. *)
Theorem sanitize_idempotent (s : option text) :
  sanitize_for_excel (Some (sanitize_for_excel s)) = sanitize_for_excel s
  /\ sanitize_for_json (Some (sanitize_for_json s)) = sanitize_for_json s
  /\ forallb kept_char (sanitize_for_excel s) = true
  /\ length (sanitize_for_excel s)
     <= match s with Some t => length t | None => 0 end.
Proof.
  assert (E : sanitize_for_excel (Some (sanitize_for_excel s))
              = sanitize_for_excel s).
  { destruct s as [t|]; [| reflexivity].
    rewrite !sanitize_is_filter. apply filter_idem. }
  split; [exact E | split; [exact E | split]].
  - destruct s as [t|]; [| reflexivity].
    rewrite sanitize_is_filter. apply filter_forallb.
  - destruct s as [t|]; [| reflexivity].
    rewrite sanitize_is_filter. apply filter_shorter.
Qed.

End ShapeFacts.

Section ShapeWitness.
Local Existing Instance ascii_tables.

(** X2, witness: no capital A appears where there was none. *)
Lemma cleaning_adds_no_characters_witness :
  Forall (fun c => c <> 65%N) (normalize_text (py "b-\nc\n\n\n\nd"))
  /\ Forall (fun c => c <> 65%N) (clean_report_text (py "b-\nc\n\n\n\nd")).
Proof.
  apply (@cleaning_adds_no_characters _ (fun c => c <> 65%N)).
  - discriminate.
  - vm_compute. repeat constructor; discriminate.
Defined.

(** X3, witness: spaces, tabs and empty lines. *)
Lemma blank_text_gives_nothing_witness :
  normalize_text (py " \n\t \n") = []
  /\ clean_report_text (py " \n\t \n") = []
  /\ split_sections (py " \n\t \n") = []
  /\ split_sections (clean_report_text (py " \n\t \n")) = [].
Proof. apply blank_text_gives_nothing. vm_compute. reflexivity. Defined.

End ShapeWitness.

(** ** Healing a hyphenated line break *)

Lemma no_nl_no3 s : Forall (fun c => c <> NL) s -> no3 s = true.
Proof.
  induction 1 as [|c s Hc _ IH]; [reflexivity |].
  cbn [no3 lead]. destruct (N.eqb_spec c NL) as [E|_]; [contradiction |].
  unfold is_nl. destruct (N.eqb_spec c NL) as [E|_]; [contradiction |].
  exact IH.
Qed.

Section HealFacts.
Context {U : Unicode}.

Lemma word_char_plain c :
  word_char c = true ->
  is_word c = true /\ is_space c = false
  /\ c <> c_ "-" /\ c <> NL /\ c <> CR.
Proof.
  unfold word_char. intros H. apply andb_true_iff in H as [Hw Hs].
  apply negb_true_iff in Hs. repeat split; auto.
  - intros ->. vm_compute in Hw. discriminate Hw.
  - intros ->. vm_compute in Hs. discriminate Hs.
  - intros ->. vm_compute in Hs. discriminate Hs.
Qed.

Lemma match_at_dehyphen_none pre c s :
  match s with d :: _ => d <> c_ "-" | [] => True end ->
  match_at dehyphen_rx pre (c :: s) = None.
Proof.
  intros H. unfold match_at, dehyphen_rx. cbn [seqs mt chr].
  destruct (is_word c); [| reflexivity].
  destruct s as [|d s]; [reflexivity |].
  destruct (N.eqb_spec (c_ "-") d) as [E|_]; [now elim H | reflexivity].
Qed.

Lemma sub_dehyphen_plain s :
  Forall (fun c => c <> c_ "-") s ->
  forall pre, sub_from dehyphen_rx groups_1_2 0 pre s = s.
Proof.
  induction 1 as [|c s Hc Hs IH]; intros pre; [reflexivity |].
  rewrite sub_from_cons0, match_at_dehyphen_none.
  - f_equal. apply IH.
  - destruct s; [exact I | now inversion Hs].
Qed.

Lemma sub_dehyphen_break u :
  forall pre a b v,
    Forall (fun c => c <> c_ "-") (u ++ [a]) ->
    Forall (fun c => c <> c_ "-") v ->
    is_word a = true -> is_word b = true ->
    sub_from dehyphen_rx groups_1_2 0 pre (u ++ a :: c_ "-" :: NL :: b :: v)
    = u ++ a :: b :: v.
Proof.
  induction u as [|x u IH]; intros pre a b v Hu Hv Ha Hb.
  - cbn [app]. rewrite sub_from_cons0.
    replace (match_at dehyphen_rx pre (a :: c_ "-" :: NL :: b :: v))
      with (Some 4).
    + cbn [firstn groups_1_2 skipn app Nat.eqb Nat.sub sub_from].
      now rewrite sub_dehyphen_plain.
    + unfold match_at, dehyphen_rx. cbn [seqs mt chr].
      rewrite Ha, Hb, !N.eqb_refl. f_equal. cbn [length]. lia.
  - cbn [app]. rewrite sub_from_cons0, match_at_dehyphen_none.
    + f_equal. apply IH; auto. now inversion Hu.
    + inversion Hu as [|? ? _ Hu']; subst.
      destruct u; cbn [app] in *; now inversion Hu'.
Qed.

(** X5. A word broken over two lines by a hyphen is put together again:
    when [w1] and [w2] are non-empty runs of word characters that are
    not white space, [normalize_text] turns [w1], hyphen, newline, [w2]
    into [w1 w2]. *)
Theorem normalize_text_heals_break (w1 w2 : text) :
  w1 <> [] -> w2 <> [] ->
  forallb word_char w1 = true -> forallb word_char w2 = true ->
  normalize_text (w1 ++ py "-\n" ++ w2) = w1 ++ w2.
Proof.
  intros H1 H2 F1 F2.
  assert (Hp : forall w, forallb word_char w = true ->
                         Forall (fun c => word_char c = true) w).
  { intros w Hw. apply Forall_forall. now apply forallb_forall. }
  apply Hp in F1, F2.
  assert (F : Forall (fun c => word_char c = true) (w1 ++ w2))
    by (apply Forall_app; now split).
  destruct (exists_last H1) as (u & a & ->).
  destruct w2 as [|b v]; [contradiction |].
  change (py "-\n") with [c_ "-"; NL].
  rewrite <- !app_assoc. cbn [app].
  unfold normalize_text.
  replace (is_empty (u ++ a :: c_ "-" :: NL :: b :: v)) with false
    by now destruct u.
  rewrite remove_cr_fixed.
  2:{ apply Forall_app in F1 as [Fu Fa]. inversion Fa; subst.
      inversion F2; subst.
      apply Forall_app; split.
      - eapply Forall_impl; [| exact Fu]. intros c Hc.
        now apply word_char_plain in Hc.
      - constructor; [now apply word_char_plain |].
        constructor; [discriminate |]. constructor; [discriminate |].
        constructor; [now apply word_char_plain |].
        eapply Forall_impl; [| eassumption]. intros c Hc.
        now apply word_char_plain in Hc. }
  unfold re_sub. rewrite sub_dehyphen_break.
  - rewrite <- app_assoc in F. cbn [app] in F.
    rewrite sub_no_match.
    + destruct u as [|x u]; cbn [app] in *; apply strip_word;
        apply forallb_forall; intros c Hc; rewrite Forall_forall in F;
        apply F in Hc; apply word_char_plain in Hc as (_ & -> & _);
        reflexivity.
    + apply no3_search. apply no_nl_no3.
      eapply Forall_impl; [| exact F]. intros c Hc.
      now apply word_char_plain in Hc.
  - eapply Forall_impl; [| exact F1]. intros c Hc.
    now apply word_char_plain in Hc.
  - inversion F2; subst. eapply Forall_impl; [| eassumption].
    intros c Hc. now apply word_char_plain in Hc.
  - apply Forall_app in F1 as [_ Fa]. inversion Fa; subst.
    now apply word_char_plain.
  - inversion F2; subst. now apply word_char_plain.
Qed.

End HealFacts.

Section HealWitness.
Local Existing Instance ascii_tables.

(** X5, witness: "procure-", newline, "ment". *)
Lemma normalize_text_heals_break_witness :
  normalize_text (py "procure" ++ py "-\n" ++ py "ment")
  = py "procure" ++ py "ment".
Proof.
  apply normalize_text_heals_break;
    try (vm_compute; discriminate); vm_compute; reflexivity.
Defined.

End HealWitness.

(** ** The entries of the segmentation *)

Lemma lstrip_app_spaces a b :
  forallb is_space a = true -> lstrip (a ++ b) = lstrip b.
Proof.
  induction a as [|c a IH]; [reflexivity |]. cbn [forallb app lstrip].
  intros H. apply andb_true_iff in H as [Hc Ha]. rewrite Hc. auto.
Qed.

Lemma rstrip_app_spaces h ws :
  forallb is_space ws = true -> rstrip (h ++ ws) = rstrip h.
Proof.
  intros H. unfold rstrip. rewrite rev_app_distr, lstrip_app_spaces; auto.
  rewrite forallb_forall in *. intros c Hc. apply H. now apply in_rev.
Qed.

Lemma strip_heading_spaces h ws :
  heading_like h = true -> strip h = h -> forallb is_space ws = true ->
  strip (h ++ ws) = h.
Proof.
  destruct h as [|c h]; [discriminate |]. intros Hl Hs Hw.
  cbn [heading_like] in Hl. apply andb_true_iff in Hl as [Hc _].
  apply caps_first_not_space in Hc.
  unfold strip in *. cbn [app lstrip] in *. rewrite Hc in *.
  change (c :: h ++ ws) with ((c :: h) ++ ws).
  now rewrite rstrip_app_spaces.
Qed.

Lemma dict_set_In {V} k (v : V) d k0 v0 :
  In (k0, v0) (dict_set k v d) -> (k0 = k /\ v0 = v) \/ In (k0, v0) d.
Proof.
  induction d as [|[k' v'] d IH].
  - intros [E|[]]. injection E as <- <-. now left.
  - change (dict_set k v ((k', v') :: d))
      with (if text_eqb k k' then (k', v) :: d else (k', v') :: dict_set k v d).
    destruct (text_eqb k k') eqn:E.
    + apply text_eqb_eq in E. subst k'. intros [H|H].
      * injection H as <- <-. now left.
      * right. now right.
    + intros [H|H]; [right; now left |].
      apply IH in H as [H|H]; [now left | right; now right].
Qed.

Lemma fold_dict_set_In {V} (l : list (text * V)) :
  forall out x,
    In x (fold_left (fun o nb => dict_set (fst nb) (snd nb) o) l out) ->
    In x l \/ In x out.
Proof.
  induction l as [|[n b] l IH]; intros out [k v] H; cbn [fold_left] in H.
  - now right.
  - apply IH in H as [H|H]; [left; now right |].
    cbn [fst snd] in H. apply dict_set_In in H as [[-> ->]|H];
      [left; now left | now right].
Qed.

Lemma mark_bodies_In ft ms k v :
  In (k, v) (mark_bodies ft ms) ->
  exists st en stop, In (k, st, en) ms /\ v = strip (slice en stop ft).
Proof.
  induction ms as [|[[n s] e] ms IH]; [intros [] |].
  cbn [mark_bodies]. intros [H|H].
  - injection H as <- <-. eexists s, e, _. split; [now left | reflexivity].
  - apply IH in H as (st & en & stop & H1 & H2).
    exists st, en, stop. split; [now right | exact H2].
Qed.

Lemma slice_piece a b ft : piece_of (slice a b ft) ft.
Proof.
  unfold slice, piece_of.
  exists (firstn a ft), (skipn (b - a) (skipn a ft)).
  now rewrite firstn_skipn, firstn_skipn.
Qed.

Lemma strip_piece s t : piece_of s t -> piece_of (strip s) t.
Proof.
  intros (a & b & ->). destruct (strip_infix s) as (l & r & E).
  exists (a ++ l), (r ++ b). rewrite E at 1. now rewrite <- !app_assoc.
Qed.

Lemma nl_is_space c : is_nl c = true -> is_space c = true.
Proof. unfold is_nl. intros H. apply N.eqb_eq in H. now subst. Qed.

Section EntriesFacts.
Context {U : Unicode}.

(** What [re.search] returns is the match at some position. *)
Lemma search_from_sound r s :
  forall pre m,
    search_from r pre s = Some m ->
    exists a b len,
      rev pre ++ s = a ++ b
      /\ match_at r (rev a) b = Some len
      /\ m = mk_match (rev a) b len.
Proof.
  induction s as [|c s IH]; intros pre m H; cbn [search_from] in H.
  - destruct (match_at r pre []) as [len|] eqn:E; [| discriminate].
    injection H as <-. exists (rev pre), [], len.
    now rewrite rev_involutive.
  - destruct (match_at r pre (c :: s)) as [len|] eqn:E.
    + injection H as <-. exists (rev pre), (c :: s), len.
      now rewrite rev_involutive.
    + apply IH in H as (a & b & len & H1 & H2 & H3).
      exists a, b, len. cbn [rev] in H1. rewrite <- app_assoc in H1. auto.
Qed.

Lemma mt_alts_lit_complete R hs h (k : text -> text -> option R) pre s :
  In h hs -> is_some (mt (lit h) k pre s) = true ->
  is_some (mt (alts (map lit hs)) k pre s) = true.
Proof.
  induction hs as [|h0 hs IH]; [intros [] |]. intros Hin Hs.
  destruct hs as [|h2 hs].
  - destruct Hin as [->|[]]. exact Hs.
  - cbn [map]. rewrite mt_alts_cons by discriminate.
    destruct (mt (lit h0) k pre s) eqn:E; [reflexivity |].
    destruct Hin as [->|Hin]; [rewrite E in Hs; discriminate Hs |].
    now apply IH.
Qed.

Lemma sections_rx_matches hs h pre ws rest :
  In h hs -> at_bol true pre = true -> forallb is_space ws = true ->
  at_eol true rest = true ->
  is_some (match_at (sections_rx hs) pre (h ++ ws ++ rest)) = true.
Proof.
  intros Hin Hb Hw He. unfold match_at, sections_rx. cbn [seqs mt].
  rewrite Hb. apply mt_alts_lit_complete with (h := h); [exact Hin |].
  rewrite mt_lit_complete. unfold spaces. cbn [mt].
  apply m_rep_some; auto; try lia; try (intros h0 E; discriminate E).
  now rewrite He.
Qed.

Lemma finditer_nonempty r a :
  forall pre b,
    is_some (match_at r (rev a ++ pre) b) = true ->
    finditer_from r 0 pre (a ++ b) <> [].
Proof.
  induction a as [|c a IH]; intros pre b H.
  - cbn [rev app] in *.
    destruct (match_at r pre b) as [len|] eqn:E; [| discriminate].
    destruct (@finditer_head _ r pre b len E) as [rest ->]. discriminate.
  - cbn [app]. rewrite finditer_from_cons0.
    destruct (match_at r pre (c :: a ++ b)); [discriminate |].
    apply IH. now rewrite <- rev_cons_app.
Qed.

Lemma found_names_stripped ft h q :
  In (h, q) (found_positions ft) -> strip h = h.
Proof.
  intros H. apply found_positions_In in H as [[Hk _]|H].
  - unfold KNOWN_ORDER in Hk. cbn [In] in Hk.
    repeat (destruct Hk as [<-|Hk]; [vm_compute; reflexivity |]).
    contradiction.
  - apply caps_candidates_sound in H
      as (a & m & b & _ & _ & _ & _ & _ & _ & -> & _).
    apply strip_idem.
Qed.

(** A mark carries the name of one of the headings of the pattern. *)
Lemma marks_names ft ordered name st en :
  ordered <> [] ->
  (forall h, In h ordered -> heading_like h = true /\ strip h = h) ->
  In (name, st, en) (marks ft ordered) -> In name ordered.
Proof.
  intros Hne Hh H. unfold marks in H.
  apply in_map_iff in H as (m & E & H). injection E as <- _ _.
  apply finditer_sound in H as (a & b & len & _ & Hm & ->).
  apply match_sections_sound in Hm
    as (_ & h & ws & rest & Hin & -> & Hws & _ & ->); [| exact Hne].
  cbn [mk_match group0]. rewrite app_assoc, <- length_app.
  rewrite firstn_app, Nat.sub_diag, firstn_all. cbn [firstn].
  rewrite app_nil_r. destruct (Hh h Hin) as [Hl Hs].
  now rewrite strip_heading_spaces.
Qed.

Lemma segment_entries ft k v :
  In (k, v) (segment ft) ->
  (k = py "Full Report Text" /\ v = ft /\ found_positions ft = [])
  \/ ((exists q, In (k, q) (found_positions ft))
      /\ exists en stop, v = strip (slice en stop ft)).
Proof.
  unfold segment. destruct (is_empty ft); [intros [] |].
  destruct (found_positions ft) as [|y fp] eqn:Efp; cbn [is_empty].
  - intros [E|[]]. injection E as <- <-. now left.
  - intros H. right. rewrite bodies_fold in H.
    apply fold_dict_set_In in H as [H|[]].
    apply mark_bodies_In in H as (st & en & stop & Hin & ->).
    split; [| now exists en, stop].
    apply marks_names in Hin.
    + apply in_map_iff in Hin as ([k' q] & <- & Hin).
      apply -> sorted_by_pos_In in Hin. now exists q.
    + intros E. apply map_eq_nil in E.
      assert (Hy : In y (sorted_by_pos (y :: fp)))
        by (apply sorted_by_pos_In; now left).
      rewrite E in Hy. exact Hy.
    + intros h Hh. apply in_map_iff in Hh as ([h' q] & <- & Hh).
      apply -> sorted_by_pos_In in Hh. rewrite <- Efp in Hh.
      split; [eapply found_names_heading_like | eapply found_names_stripped];
        exact Hh.
Qed.

(** X6. A key of the sections is the fallback key, with the whole
    normalised text under it and no heading found, or it is a heading the
    first two loops recorded: a known heading that stands on a line of
    its own, or a generic candidate.  A heading key starts with an
    uppercase letter or a digit, is made of heading characters and has no
    white space at its ends. *)
Theorem split_sections_keys (txt k v : text) :
  In (k, v) (split_sections txt) ->
  (k = py "Full Report Text" /\ v = normalize_text txt
   /\ found_positions (normalize_text txt) = [])
  \/ (((In k KNOWN_ORDER
        /\ re_search (known_rx k) (normalize_text txt) <> None)
       \/ In k (map fst (caps_candidates (normalize_text txt))))
      /\ heading_like k = true /\ strip k = k).
Proof.
  rewrite split_sections_segment. intros H.
  apply segment_entries in H as [H|[[q Hq] _]]; [now left | right].
  split; [| split; [eapply found_names_heading_like
                   | eapply found_names_stripped]; exact Hq].
  apply found_positions_In in Hq as [[Hk (m & -> & _)]|Hc].
  - left. split; [exact Hk | discriminate].
  - right. apply in_map_iff. now exists (k, q).
Qed.

(** X7. A section body is a contiguous piece of the normalised text
    without white space at its ends: the segmenter neither writes nor
    rearranges text. *)
Theorem split_sections_bodies (txt k v : text) :
  In (k, v) (split_sections txt) ->
  strip v = v /\ piece_of v (normalize_text txt).
Proof.
  rewrite split_sections_segment. intros H.
  apply segment_entries in H as [(_ & -> & _)|[_ (en & stop & ->)]].
  - split; [apply normalize_text_stripped |]. exists [], [].
    now rewrite app_nil_r.
  - split; [apply strip_idem |]. apply strip_piece, slice_piece.
Qed.

(** A heading recorded by the first two loops is matched by the pattern
    of the headings where it was found. *)
Lemma found_entry_matches ft h q hs :
  In (h, q) (found_positions ft) -> In h hs ->
  exists a b,
    ft = a ++ b /\ is_some (match_at (sections_rx hs) (rev a) b) = true.
Proof.
  intros H Hin. apply found_positions_In in H as [[_ (m & Es & _)]|Hc].
  - apply search_from_sound in Es as (a & b & len & E & Hm & _).
    cbn [rev app] in E. exists a, b. split; [exact E |].
    change (known_rx h) with (sections_rx [h]) in Hm.
    apply match_sections_sound in Hm
      as (Hb & h' & ws & rest & [<-|[]] & -> & Hws & He & _);
      [| discriminate].
    now apply sections_rx_matches.
  - apply caps_candidates_sound in Hc
      as (a & m & b & -> & _ & Hb & He
          & (c & rest & -> & Hc1 & Hr) & _ & Hcap & _).
    destruct (@strip_heading_like c rest Hc1 Hr) as [_ (w & Hw & Hws)].
    rewrite <- Hcap in Hw. exists a, ((c :: rest) ++ b).
    split; [reflexivity |]. rewrite Hw, <- app_assoc.
    now apply sections_rx_matches.
Qed.

Lemma segment_nonempty ft : ft <> [] -> segment ft <> [].
Proof.
  intros Hne. unfold segment.
  replace (is_empty ft) with false by (now destruct ft).
  destruct (found_positions ft) as [|[h q] fp] eqn:Efp; cbn [is_empty];
    [discriminate |].
  assert (Hin : In h (map fst (sorted_by_pos ((h, q) :: fp)))).
  { apply in_map_iff. exists (h, q). split; [reflexivity |].
    apply sorted_by_pos_In. now left. }
  assert (Hfp : In (h, q) (found_positions ft)) by (rewrite Efp; now left).
  destruct (@found_entry_matches ft h q _ Hfp Hin) as (a & b & E & Hm).
  unfold marks, re_finditer.
  assert (Hf : finditer_from
                 (sections_rx (map fst (sorted_by_pos ((h, q) :: fp))))
                 0 [] ft <> []).
  { rewrite E. apply finditer_nonempty. now rewrite app_nil_r. }
  destruct (finditer_from _ 0 [] ft) as [|m ms]; [contradiction |].
  cbn [map]. intros Eb.
  apply (@bodies_has_mark ft
           ((strip (group0 m), m_start m, m_end m)
              :: map (fun m0 => (strip (group0 m0), m_start m0, m_end m0)) ms)
           (strip (group0 m)) (m_start m) (m_end m) (or_introl eq_refl) []).
  now rewrite Eb.
Qed.

(** X8. A text whose normal form is not empty always has at least one
    section: the fallback entry, or an entry for the first heading
    met. *)
Theorem split_sections_nonempty (txt : text) :
  normalize_text txt <> [] -> split_sections txt <> [].
Proof. rewrite split_sections_segment. apply segment_nonempty. Qed.

End EntriesFacts.

Section EntriesWitness.
Local Existing Instance ascii_tables.

(** X6, witness: the key of a known heading. *)
Lemma split_sections_keys_witness :
  let txt := py "Intro\nDIGEST\nDenied." in
  (py "DIGEST" = py "Full Report Text" /\ py "Denied." = normalize_text txt
   /\ found_positions (normalize_text txt) = [])
  \/ (((In (py "DIGEST") KNOWN_ORDER
        /\ re_search (known_rx (py "DIGEST")) (normalize_text txt) <> None)
       \/ In (py "DIGEST") (map fst (caps_candidates (normalize_text txt))))
      /\ heading_like (py "DIGEST") = true /\ strip (py "DIGEST") = py "DIGEST").
Proof.
  intros txt. apply split_sections_keys. vm_compute. now left.
Defined.

(** X7, witness: the body under DIGEST. *)
Lemma split_sections_bodies_witness :
  strip (py "Denied.") = py "Denied."
  /\ piece_of (py "Denied.") (normalize_text (py "Intro\nDIGEST\nDenied.\n")).
Proof.
  apply (@split_sections_bodies _ (py "Intro\nDIGEST\nDenied.\n")
           (py "DIGEST") (py "Denied.")).
  vm_compute. now left.
Defined.

(** X8, witness: a text without headings. *)
Lemma split_sections_nonempty_witness :
  split_sections (py "The protest is denied.") <> [].
Proof. apply split_sections_nonempty. vm_compute. discriminate. Defined.

End EntriesWitness.

(** ** Every known heading on a line of its own *)

Lemma dict_get_snoc_other {V} k h (p : V) fp :
  k <> h -> dict_get h fp = None ->
  dict_get k (fp ++ [(h, p)]) = dict_get k fp.
Proof.
  intros Hk Hh. rewrite <- (dict_set_new h p fp Hh).
  now apply dict_get_set_other.
Qed.

Section KnownHeadings.
Context {U : Unicode}.

Lemma hits_keys ft l y : In y (hits ft l) -> In (fst y) l.
Proof.
  unfold hits. intros H. apply in_flat_map in H as (h & Hh & H).
  destruct (re_search (known_rx h) ft); [| contradiction].
  destruct H as [<-|[]]. exact Hh.
Qed.

(** The first loop records its hits in the order of [KNOWN_ORDER]. *)
Lemma record_candidates_hits ft l :
  NoDup l ->
  forall fp,
    (forall k, In k l -> dict_get k fp = None) ->
    record_candidates (hits ft l) fp = fp ++ hits ft l.
Proof.
  induction 1 as [|h l Hn Hd IH]; intros fp Hfp.
  - cbn. now rewrite app_nil_r.
  - unfold hits. cbn [flat_map]. fold (hits ft l).
    destruct (re_search (known_rx h) ft) as [m|]; cbn [app].
    + unfold record_candidates. cbn [fold_left fst snd].
      unfold dict_setdefault. rewrite (Hfp h) by now left.
      rewrite dict_set_new by (apply Hfp; now left).
      fold (record_candidates (hits ft l) (fp ++ [(h, m_start m)])).
      rewrite IH.
      * now rewrite <- app_assoc.
      * intros k Hk. rewrite dict_get_snoc_other.
        -- apply Hfp. now right.
        -- intros ->. contradiction.
        -- apply Hfp. now left.
    + apply IH. intros k Hk. apply Hfp. now right.
Qed.

(** A known heading that is found is recorded after the hits of the
    known headings listed before it, and before everything else. *)
Lemma found_positions_known_around ft h m0 :
  In h KNOWN_ORDER ->
  re_search (known_rx h) ft = Some m0 ->
  exists a b,
    found_positions ft = a ++ (h, m_start m0) :: b
    /\ forall y, In y a -> In (fst y) KNOWN_ORDER /\ fst y <> h.
Proof.
  intros Hk Em. unfold found_positions. rewrite known_positions_hits.
  unfold known_hits.
  rewrite record_candidates_hits;
    [| apply KNOWN_ORDER_NoDup | reflexivity].
  cbn [app].
  pose proof KNOWN_ORDER_NoDup as Hnd.
  destruct (in_split _ _ Hk) as (l1 & l2 & E). rewrite E in Hnd |- *.
  apply NoDup_remove_2 in Hnd.
  unfold hits. rewrite flat_map_app. cbn [flat_map]. rewrite Em.
  fold (hits ft l1). fold (hits ft l2).
  destruct (record_candidates_extends (caps_candidates ft)
              (hits ft l1 ++ [(h, m_start m0)] ++ hits ft l2)) as [ext Eext].
  rewrite Eext. exists (hits ft l1), (hits ft l2 ++ ext). split.
  - now rewrite <- !app_assoc.
  - intros y Hy. apply hits_keys in Hy. split.
    + apply in_or_app. now left.
    + intros Ey. apply Hnd. rewrite <- Ey. apply in_or_app. now left.
Qed.

Lemma known_plain h :
  In h KNOWN_ORDER ->
  h <> [] /\ forallb (fun c => negb (is_space c)) h = true.
Proof.
  unfold KNOWN_ORDER. cbn [In]. intros H.
  repeat (destruct H as [<-|H];
          [split; [vm_compute; discriminate | vm_compute; reflexivity] |]).
  contradiction.
Qed.

(** A literal that matches at a line of characters that are not white
    space, with [\s*$] after it, is the line or goes on over its end. *)
Lemma lit_at_line R l h (k : text -> text -> option R) pre tail r :
  forallb (fun c => negb (is_space c)) l = true ->
  at_eol true tail = true ->
  mt (lit h) (mt spaces (mt (Eol true) k)) pre (l ++ tail) = Some r ->
  h = l \/ exists x, h = l ++ NL :: x.
Proof.
  intros Hl He H. apply mt_lit_sound in H as (s1 & E & H).
  unfold spaces in H. cbn [mt] in H.
  apply m_rep_sound in H as (n & _ & _ & Hn & Hs & Hk).
  destruct (at_eol true (skipn n s1)) eqn:Hee; [| discriminate]. clear Hk.
  apply app_eq_app in E as (x & [[E1 E2]|[E1 E2]]).
  - destruct x as [|c x]; [left; now rewrite app_nil_r in E1 |]. exfalso.
    assert (Hsp : is_space c = false).
    { rewrite forallb_forall in Hl. apply negb_true_iff, Hl.
      rewrite E1. apply in_or_app. right. now left. }
    assert (Hnl : is_nl c = false).
    { destruct (is_nl c) eqn:Ec; [| reflexivity].
      apply nl_is_space in Ec. congruence. }
    subst s1. destruct n; cbn [firstn skipn app forallb at_eol] in *.
    + rewrite Hnl in Hee. discriminate.
    + rewrite Hsp in Hs. discriminate.
  - destruct x as [|c x]; [left; now rewrite app_nil_r in E1 |]. right.
    subst tail. cbn [app at_eol] in He. apply andb_true_iff in He as [He _].
    unfold is_nl in He. apply N.eqb_eq in He. subst c. now exists x.
Qed.

Lemma newline_not_plain l x :
  forallb (fun c => negb (is_space c)) (l ++ NL :: x) = true -> False.
Proof.
  rewrite forallb_app. cbn [forallb]. change (is_space NL) with true.
  cbn [negb andb]. rewrite andb_false_r. discriminate.
Qed.

(** No heading sorted before a known heading matches at a line of that
    heading. *)
Lemma earlier_names_fail_known R ft h m0 y
    (k : text -> text -> option R) pre tail :
  In h KNOWN_ORDER ->
  at_eol true tail = true ->
  re_search (known_rx h) ft = Some m0 ->
  In y (found_positions ft) ->
  snd y < m_start m0
  \/ (snd y = m_start m0 /\ In (fst y) KNOWN_ORDER /\ fst y <> h) ->
  mt (lit (fst y)) (mt spaces (mt (Eol true) k)) pre (h ++ tail) = None.
Proof.
  intros Hk He Em Hy Hpos. destruct (@known_plain h Hk) as [Hne Hpl].
  destruct (mt (lit (fst y)) _ pre (h ++ tail)) eqn:E;
    [exfalso | reflexivity].
  apply lit_at_line in E; [| exact Hpl | exact He].
  destruct y as [h' q]. cbn [fst snd] in *.
  destruct Hpos as [Hlt | (_ & Hk' & Hd)].
  2:{ destruct E as [E|[x E]]; [contradiction |]. subst h'.
      destruct (@known_plain _ Hk') as [_ Hp]. now apply newline_not_plain in Hp. }
  apply found_positions_In in Hy as [[Hk' (m & Es & ->)]|Hc].
  - destruct E as [->|[x ->]].
    + rewrite Em in Es. injection Es as <-. lia.
    + destruct (@known_plain _ Hk') as [_ Hp]. now apply newline_not_plain in Hp.
  - apply caps_candidates_sound in Hc
      as (a' & m & b' & Eft & Hlen & Hb & Heb
          & (c & rest & -> & Hc1 & Hr) & _ & Hcap & _).
    destruct (@strip_heading_like c rest Hc1 Hr) as [_ (w & Hw & Hws)].
    rewrite <- Hcap in Hw.
    assert (Hs : is_some (match_at (known_rx h) (rev a' ++ [])
                            (h' ++ w ++ b')) = true).
    { rewrite app_nil_r. destruct E as [->|[x ->]].
      - now apply known_matches_at.
      - rewrite <- app_assoc.
        now apply (known_matches_at h (rev a') [] (NL :: x ++ w ++ b')). }
    apply search_leftmost in Hs as (m' & Es & Hm').
    rewrite (app_assoc h' w b'), <- Hw, <- Eft in Es.
    unfold re_search in Em. rewrite Em in Es. injection Es as <-.
    cbn [length] in Hm'. lia.
Qed.

Lemma match_sections_at_known ft h m0 s1 s2 pre tail :
  In h KNOWN_ORDER ->
  at_bol true pre = true ->
  at_eol true tail = true ->
  re_search (known_rx h) ft = Some m0 ->
  (forall y, In y s1 ->
     In y (found_positions ft)
     /\ (snd y < m_start m0
         \/ (snd y = m_start m0 /\ In (fst y) KNOWN_ORDER /\ fst y <> h))) ->
  exists len,
    match_at (sections_rx (map fst (s1 ++ (h, m_start m0) :: s2)))
      pre (h ++ tail) = Some len
    /\ strip (firstn len (h ++ tail)) = h.
Proof.
  intros Hk Hb He Em Hs1. destruct (@known_plain h Hk) as [Hne Hpl].
  destruct (spaces_eol_after h pre tail He) as (n & E & Hn & Hs).
  exists (length h + n). split.
  - unfold match_at, sections_rx. cbn [seqs mt]. rewrite Hb.
    rewrite map_app. cbn [map fst]. rewrite mt_alts_lit_first.
    + apply mt_alts_head. rewrite mt_lit_complete. exact E.
    + intros h' Hh. apply in_map_iff in Hh as (y & <- & Hy).
      destruct (Hs1 y Hy) as [Hin Hpos].
      now apply earlier_names_fail_known with (ft := ft) (h := h) (m0 := m0).
  - rewrite firstn_app_2. unfold strip.
    destruct h as [|c h]; [contradiction |].
    pose proof Hpl as Hc. cbn [forallb] in Hc.
    apply andb_true_iff in Hc as [Hc _]. apply negb_true_iff in Hc.
    cbn [app lstrip]. rewrite Hc.
    change (c :: h ++ firstn n tail) with ((c :: h) ++ firstn n tail).
    rewrite rstrip_app_word by exact Hpl.
    rewrite rstrip_all_space by assumption. apply app_nil_r.
Qed.

Lemma segment_known_heading_key ft h a tail :
  In h KNOWN_ORDER ->
  ft = a ++ h ++ tail ->
  at_bol true (rev a) = true -> at_eol true tail = true ->
  heading_run [] a = false ->
  dict_get h (segment ft) <> None.
Proof.
  intros Hk Eft Hb He Hrun. destruct (@known_plain h Hk) as [Hne Hpl].
  destruct (search_leftmost (known_rx h) a [] (h ++ tail)) as (m0 & Em & _).
  { rewrite app_nil_r. now apply (known_matches_at h (rev a) [] tail). }
  rewrite <- Eft in Em. change (re_search (known_rx h) ft = Some m0) in Em.
  destruct (@found_positions_known_around ft h m0 Hk Em)
    as (fa & fb & Efp & Hfa).
  unfold segment.
  replace (is_empty ft) with false
    by (rewrite Eft; destruct a; [now destruct h | reflexivity]).
  rewrite Efp.
  replace (is_empty (fa ++ (h, m_start m0) :: fb)) with false
    by (now destruct fa).
  destruct (sorted_by_pos_split fa (h, m_start m0) fb)
    as (s1 & s2 & Es & Hs1).
  assert (Hin : forall y, In y (s1 ++ (h, m_start m0) :: s2) ->
                          In y (found_positions ft)).
  { intros y Hy. rewrite Efp. apply sorted_by_pos_In. now rewrite Es. }
  rewrite Es.
  destruct (@match_sections_at_known ft h m0 s1 s2 (rev a) tail Hk Hb He Em)
    as (len & Elen & Estrip).
  { intros y Hy. split.
    - apply Hin. apply in_or_app. now left.
    - cbn [snd] in Hs1. destruct (Hs1 y Hy) as [?|[? ?]]; auto. }
  unfold marks, re_finditer.
  destruct (@finditer_reaches _
              (sections_rx (map fst (s1 ++ (h, m_start m0) :: s2)))
              a 0 [] (h ++ tail)) as [ms Hms]; [lia | |].
  { intros a1 a2 len' Ea Hn Hm.
    eapply no_match_across; [| | exact Hrun | exact Ea | exact Hn | exact Hm].
    - destruct s1; discriminate.
    - intros h0 Hh. apply in_map_iff in Hh as ([h' q] & <- & Hy).
      apply Hin in Hy. now apply found_names_heading_like in Hy. }
  rewrite Eft at 2. rewrite Hms, app_nil_r.
  destruct (@finditer_head _ _ _ _ _ Elen) as [rest ->].
  rewrite map_app. cbn [map mk_match group0 m_start m_end]. rewrite Estrip.
  eapply bodies_has_mark. apply in_or_app. right. left. reflexivity.
Qed.

(** X9. Each of the eight known headings becomes a key of the sections
    when, in the normalised text, it stands on a line of its own that no
    stretch of heading characters begun at an earlier line start runs up
    to. *)
Theorem known_heading_is_key (txt h a tail : text) :
  In h KNOWN_ORDER ->
  normalize_text txt = a ++ h ++ tail ->
  at_bol true (rev a) = true ->
  at_eol true tail = true ->
  heading_run [] a = false ->
  dict_get h (split_sections txt) <> None.
Proof.
  intros Hk E Hb He Hrun. rewrite split_sections_segment.
  exact (@segment_known_heading_key _ h a tail Hk E Hb He Hrun).
Qed.

End KnownHeadings.

Section KnownHeadingsWitness.
Local Existing Instance ascii_tables.

(** X9, witness: CONCLUSIONS after a DIGEST section. *)
Lemma known_heading_is_key_witness :
  dict_get (py "CONCLUSIONS")
    (split_sections (py "DIGEST\nThe protest is denied.\n\nCONCLUSIONS\nDenied."))
  <> None.
Proof.
  apply (@known_heading_is_key _ _ (py "CONCLUSIONS")
           (py "DIGEST\nThe protest is denied.\n\n") (py "\nDenied."));
    vm_compute; try reflexivity.
  do 6 right. now left.
Defined.

End KnownHeadingsWitness.

(** ** The links the crawler returns *)


Lemma contains_nonempty n s : n <> [] -> contains n s = true -> s <> [].
Proof.
  intros Hn H ->. destruct n; [contradiction |].
  vm_compute in H. discriminate H.
Qed.


Lemma absolute_fixed h :
  startswith (py "/") h = false -> absolute h = h.
Proof. intros H. unfold absolute. now rewrite H. Qed.


Lemma mem_In x l : mem x l = true <-> In x l.
Proof.
  unfold mem. rewrite existsb_exists. split.
  - intros (y & Hy & E). apply text_eqb_eq in E. now subst.
  - intros H. exists x. split; [exact H | apply text_eqb_refl].
Qed.

Lemma collect_loop_keeps anchors :
  forall links seen u,
    In u links -> In u (collect_loop anchors links seen).
Proof.
  induction anchors as [|a anchors IH]; intros links seen u H; [exact H |].
  cbn [collect_loop].
  destruct (negb (is_empty (href a)) && contains (py "/products/") (href a)
            && negb (is_empty (a_text a)) && negb (mem (href a) seen)).
  - apply IH. apply in_or_app. now left.
  - now apply IH.
Qed.

(** On anchors whose hrefs are absolute the set of seen links is the
    list of links, and no link is listed twice. *)
Lemma collect_loop_absolute anchors :
  forall links seen,
    (forall a, In a anchors -> startswith (py "/") (href a) = false) ->
    (forall x, In x seen <-> In x links) ->
    NoDup links ->
    NoDup (collect_loop anchors links seen)
    /\ forall a, In a anchors ->
         contains (py "/products/") (href a) = true -> a_text a <> [] ->
         In (href a) (collect_loop anchors links seen).
Proof.
  induction anchors as [|a anchors IH]; intros links seen Habs Hseen Hnd.
  - split; [exact Hnd | intros a []].
  - cbn [collect_loop].
    assert (Habs' : forall b, In b anchors ->
                              startswith (py "/") (href b) = false)
      by (intros b Hb; apply Habs; now right).
    destruct (negb (is_empty (href a)) && contains (py "/products/") (href a)
              && negb (is_empty (a_text a)) && negb (mem (href a) seen)) eqn:E.
    + rewrite absolute_fixed by (apply Habs; now left).
      apply andb_true_iff in E as [_ Em]. apply negb_true_iff in Em.
      assert (Hn : ~ In (href a) links).
      { intros Hl. apply Hseen, mem_In in Hl. congruence. }
      destruct (IH (links ++ [href a]) (href a :: seen) Habs') as [N1 N2].
      * intros x. cbn [In]. rewrite in_app_iff, Hseen. cbn [In]. tauto.
      * apply NoDup_app; [exact Hnd | repeat constructor; intros [] |].
        intros x Hx [<-|[]]. contradiction.
      * split; [exact N1 |]. intros b [<-|Hb] Hc Ht; [| now apply N2].
        apply collect_loop_keeps. apply in_or_app. right. now left.
    + destruct (IH links seen Habs' Hseen Hnd) as [N1 N2].
      split; [exact N1 |]. intros b [<-|Hb] Hc Ht; [| now apply N2].
      apply collect_loop_keeps. apply Hseen, mem_In.
      rewrite Hc in E. apply is_empty_false in Ht. rewrite Ht in E.
      assert (Hh : is_empty (href a) = false).
      { apply is_empty_false. eapply contains_nonempty; [| exact Hc].
        vm_compute. discriminate. }
      rewrite Hh in E. cbn [negb andb] in E.
      now apply negb_false_iff in E.
Qed.


(** X11. On a page all of whose hrefs are absolute the result has no
    repeated link, and it holds exactly the hrefs, containing
    "/products/", of the anchors with a text. *)
Theorem collect_result_links_exact (soup : Soup) :
  (forall a, In a (main_anchors soup) ->
             startswith (py "/") (href a) = false) ->
  NoDup (collect_result_links_from_page soup)
  /\ forall u,
       In u (collect_result_links_from_page soup)
       <-> exists a, In a (main_anchors soup)
                     /\ contains (py "/products/") (href a) = true
                     /\ a_text a <> [] /\ href a = u.
Proof.
  intros Habs.
  destruct (@collect_loop_absolute (select_products soup) [] []) as [N1 N2].
  - intros a Ha. apply Habs. unfold select_products in Ha.
    now apply filter_In in Ha as [Ha _].
  - reflexivity.
  - constructor.
  - split; [exact N1 |]. intros u. split.
    + intros H. apply collect_result_links_sound in H as (a & Ha & Hc & Ht & ->).
      exists a. repeat split; auto. symmetry. now apply absolute_fixed, Habs.
    + intros (a & Ha & Hc & Ht & <-). apply N2; auto.
      unfold select_products. apply filter_In. now split.
Qed.


(** X11, witness: two anchors with the same absolute href. *)
Lemma collect_result_links_exact_witness :
  let a := {| href := py "https://www.gao.gov/products/b-1";
              a_text := py "B-1" |} in
  let soup := {| main_anchors := [a; a]; next_anchor := None;
                 h1 := None; main_text := []; decision_text := [] |} in
  NoDup (collect_result_links_from_page soup).
Proof.
  intros a soup. apply collect_result_links_exact.
  intros b [<-|[<-|[]]]; vm_compute; reflexivity.
Defined.

(** ** The fields read from a document *)

Section ExtractorFacts.
Context {U : Unicode}.
Variable R : Type.

Lemma mt_seq r1 r2 (k : text -> text -> option R) pre s :
  mt (Seq r1 r2) k pre s = mt r1 (mt r2 k) pre s.
Proof. reflexivity. Qed.

Lemma mt_opt_cases r (k : text -> text -> option R) pre s x :
  mt (Opt r) k pre s = Some x -> mt r k pre s = Some x \/ k pre s = Some x.
Proof. cbn [mt]. destruct (mt r k pre s); intros H; [left | right]; exact H. Qed.

Lemma mt_any_split p (k : text -> text -> option R) pre s x :
  mt (Any p) k pre s = Some x ->
  exists c b, s = c :: b /\ p c = true /\ k (c :: pre) b = Some x.
Proof.
  cbn [mt]. destruct s as [|c b]; [discriminate |].
  destruct (p c) eqn:E; [| discriminate]. intros H. now exists c, b.
Qed.

Lemma mt_rep_split p lo hi (k : text -> text -> option R) pre s x :
  mt (Rep p lo hi) k pre s = Some x ->
  exists a b,
    s = a ++ b /\ forallb p a = true /\ lo <= length a
    /\ (forall h, hi = Some h -> length a <= h)
    /\ k (rev a ++ pre) b = Some x.
Proof.
  cbn [mt]. intros H. apply m_rep_sound in H as (n & H1 & H2 & H3 & H4 & H5).
  exists (firstn n s), (skipn n s).
  rewrite firstn_skipn, firstn_length_le by assumption. auto.
Qed.

End ExtractorFacts.

Section ExtractorMatches.
Context {U : Unicode}.

Lemma match_at_file pre s len :
  match_at file_rx pre s = Some len ->
  exists ds sfx,
    firstn len s = py "B-" ++ ds ++ sfx
    /\ 4 <= length ds <= 7 /\ forallb is_digit ds = true
    /\ (sfx = []
        \/ exists ds2, sfx = c_ "." :: ds2 /\ ds2 <> []
                       /\ forallb is_digit ds2 = true).
Proof.
  unfold match_at, file_rx. cbn [seqs]. rewrite mt_seq. intros H.
  apply mt_lit_sound in H as (s1 & -> & H). rewrite mt_seq in H.
  apply mt_rep_split in H as (ds & s2 & -> & Hd & Hlo & Hhi & H).
  specialize (Hhi 7 eq_refl).
  apply mt_opt_cases in H as [H|H].
  - rewrite mt_seq in H. unfold chr in H.
    apply mt_any_split in H as (c & s3 & -> & Hc & H).
    apply N.eqb_eq in Hc. subst c.
    apply mt_rep_split in H as (ds2 & s4 & -> & Hd2 & Hlo2 & _ & H).
    injection H as <-. exists ds, (c_ "." :: ds2). split; [| split; [lia |]].
    + replace (py "B-" ++ ds ++ c_ "." :: ds2 ++ s4)
        with ((py "B-" ++ ds ++ c_ "." :: ds2) ++ s4)
        by (rewrite <- !app_assoc; reflexivity).
      apply firstn_all_app.
      repeat (rewrite !length_app || rewrite !length_rev || cbn [length]).
      change (length (py "B-")) with 2. lia.
    + split; [exact Hd | right]. exists ds2. repeat split; auto.
      intros ->. cbn [length] in Hlo2. lia.
  - injection H as <-. exists ds, []. split; [| split; [lia | now split; [| left]]].
    rewrite app_nil_r, app_assoc. apply firstn_all_app.
    repeat (rewrite !length_app || rewrite !length_rev || cbn [length]).
    change (length (py "B-")) with 2. lia.
Qed.

Lemma match_at_date pre s len :
  match_at date_rx pre s = Some len ->
  exists mon ws1 d ws2 y,
    firstn len s = mon ++ ws1 ++ d ++ c_ "," :: ws2 ++ y
    /\ In mon month_names
    /\ ws1 <> [] /\ forallb is_space ws1 = true
    /\ 1 <= length d <= 2 /\ forallb is_digit d = true
    /\ ws2 <> [] /\ forallb is_space ws2 = true
    /\ length y = 4 /\ forallb is_digit y = true.
Proof.
  unfold match_at, date_rx. cbn [seqs]. rewrite mt_seq. intros H.
  apply mt_alts_lit_sound in H as (mon & Hm & H); [| discriminate].
  apply mt_lit_sound in H as (s1 & -> & H). rewrite mt_seq in H.
  apply mt_rep_split in H as (ws1 & s2 & -> & Hw1 & L1 & _ & H).
  rewrite mt_seq in H.
  apply mt_rep_split in H as (d & s3 & -> & Hd & Ld & Hd2 & H).
  specialize (Hd2 2 eq_refl). rewrite mt_seq in H. unfold chr in H.
  apply mt_any_split in H as (c & s4 & -> & Hc & H).
  apply N.eqb_eq in Hc. subst c. rewrite mt_seq in H.
  apply mt_rep_split in H as (ws2 & s5 & -> & Hw2 & L2 & _ & H).
  apply mt_rep_split in H as (y & s6 & -> & Hy & Ly & Hy2 & H).
  specialize (Hy2 4 eq_refl). injection H as <-.
  exists mon, ws1, d, ws2, y.
  split; [| repeat split; auto; try lia;
            intros ->; cbn [length] in *; lia].
  replace (mon ++ ws1 ++ d ++ c_ "," :: ws2 ++ y ++ s6)
    with ((mon ++ ws1 ++ d ++ c_ "," :: ws2 ++ y) ++ s6)
    by (rewrite <- !app_assoc; cbn [app]; rewrite <- !app_assoc; reflexivity).
  apply firstn_all_app.
  repeat (rewrite !length_app || rewrite !length_rev || cbn [length]). lia.
Qed.

Lemma search_piece r s m :
  re_search r s = Some m ->
  piece_of (group0 m) s
  /\ exists pre b len,
       match_at r pre b = Some len /\ group0 m = firstn len b.
Proof.
  intros H. apply search_from_sound in H as (a & b & len & E & Hm & ->).
  cbn [rev app] in E. cbn [mk_match group0]. split.
  - exists a, (skipn len b). now rewrite firstn_skipn.
  - now exists (rev a), b, len.
Qed.

(** X12. The file number read from a document is empty or a piece of the
    page text of the form "B-", four to seven digits and, possibly, a dot
    and more digits; the date is empty or a piece of the page text made
    of a month abbreviation, white space, one or two digits, a comma,
    white space and four digits. *)
Theorem extracted_fields_wellformed (soup : Soup) :
  let '(_, file_no, date) := get_title_file_date_from_doc soup in
  (file_no = []
   \/ (piece_of file_no (main_text soup)
       /\ exists ds sfx,
            file_no = py "B-" ++ ds ++ sfx
            /\ 4 <= length ds <= 7 /\ forallb is_digit ds = true
            /\ (sfx = []
                \/ exists ds2, sfx = c_ "." :: ds2 /\ ds2 <> []
                               /\ forallb is_digit ds2 = true)))
  /\ (date = []
      \/ (piece_of date (main_text soup)
          /\ exists mon ws1 d ws2 y,
               date = mon ++ ws1 ++ d ++ c_ "," :: ws2 ++ y
               /\ In mon month_names
               /\ ws1 <> [] /\ forallb is_space ws1 = true
               /\ 1 <= length d <= 2 /\ forallb is_digit d = true
               /\ ws2 <> [] /\ forallb is_space ws2 = true
               /\ length y = 4 /\ forallb is_digit y = true)).
Proof.
  unfold get_title_file_date_from_doc, group0_or_empty. split.
  - destruct (re_search file_rx (main_text soup)) as [m|] eqn:E;
      [right | now left].
    apply search_piece in E as [Hp (pre & b & len & Hm & Eg)].
    rewrite Eg in *. split; [exact Hp |]. now apply match_at_file in Hm.
  - destruct (re_search date_rx (main_text soup)) as [m|] eqn:E;
      [right | now left].
    apply search_piece in E as [Hp (pre & b & len & Hm & Eg)].
    rewrite Eg in *. split; [exact Hp |]. now apply match_at_date in Hm.
Qed.

Lemma get_html_files u w : files (snd (get_html u w)) = files w.
Proof. destruct w as [s n d q l f]. run_acquisition. all: reflexivity. Qed.

Lemma scrape_record_spec (u : text) (w : World) :
  exists rec w',
    scrape_item_with_bs u w = (inl rec, w')
    /\ url (base rec) = u
    /\ pdf_pages rec = None
    /\ sections rec = segment (full_text rec)
    /\ tidy (full_text rec)
    /\ files w' = files w.
Proof.
  unfold scrape_item_with_bs, bind.
  pose proof (get_html_files u w) as Hf.
  destruct (get_html_never_raises u w) as (o & w' & E). rewrite E in *.
  cbn [snd] in Hf. destruct o as [soup|].
  - destruct (get_title_file_date_from_doc soup) as [[t f] d].
    eexists. eexists. split; [reflexivity |]. cbn [base url pdf_pages
      sections full_text]. repeat split; auto; apply normalize_text_tidy.
  - eexists. eexists. split; [reflexivity |]. cbn.
    repeat split; auto. intros a b Eab. destruct a; discriminate Eab.
Qed.

(** X13. [scrape_item_with_bs] always returns a record, whatever the
    network does: it carries the URL asked for and no page count, its
    sections are the segmentation of its own full text, its full text is
    tidy, and no file is touched. *)
Theorem scrape_record_invariants (u : text) (w : World) :
  exists rec w',
    scrape_item_with_bs u w = (inl rec, w')
    /\ url (base rec) = u
    /\ pdf_pages rec = None
    /\ sections rec = segment (full_text rec)
    /\ tidy (full_text rec)
    /\ files w' = files w.
Proof. apply scrape_record_spec. Qed.

End ExtractorMatches.

(** ** The requests of the acquisition layer *)

Lemma next_ua_known ds : In (next_ua ds) _UAS.
Proof.
  unfold next_ua. destruct ds as [|d ds]; apply nth_In.
  - cbn [_UAS length]. lia.
  - change (length _UAS) with 4. apply Nat.mod_upper_bound. lia.
Qed.

Lemma build_session_spec (w : World) :
  exists s w',
    build_session w = (inl s, w')
    /\ headers s = base_headers (next_ua (dice w))
    /\ sent w'
       = sent w
         ++ map (fun u => {| rq_url := u;
                             rq_headers := base_headers (next_ua (dice w)) |})
                warm_urls
    /\ cookies s
       = dict_update (dict_update [] (cookies_of (hd (Failed []) (net w))))
                     (cookies_of (hd (Failed []) (tl (net w))))
    /\ net w' = skipn 2 (net w)
    /\ dice w' = tl (dice w)
    /\ log w' = log w /\ files w' = files w /\ session w' = session w.
Proof.
  destruct w as [s n d q l f]. cbn [dice net sent log files session].
  cbv beta delta [build_session warm_up try_except get_with _rand_ua bind ret];
    cbn; repeat (crack; cbn).
  all: eexists; eexists; (split; [reflexivity |]).
  all: cbn [headers cookies sent net dice log files session with_sent
            with_net with_dice].
  all: (split; [reflexivity |]).
  all: (split; [rewrite <- ?app_assoc; reflexivity |]).
  all: repeat split; reflexivity.
Qed.

(** X14. [build_session] cannot fail.  It draws one user agent of the
    four, sends the two warm-up requests, in order, with the headers it
    has set, keeps the cookies of the answers it gets, and prints
    nothing. *)
Theorem build_session_warms_up (w : World) :
  exists s w',
    build_session w = (inl s, w')
    /\ headers s = base_headers (next_ua (dice w))
    /\ In (next_ua (dice w)) _UAS
    /\ sent w'
       = sent w
         ++ map (fun u => {| rq_url := u;
                             rq_headers := base_headers (next_ua (dice w)) |})
                warm_urls
    /\ cookies s
       = dict_update (dict_update [] (cookies_of (hd (Failed []) (net w))))
                     (cookies_of (hd (Failed []) (tl (net w))))
    /\ net w' = skipn 2 (net w)
    /\ dice w' = tl (dice w)
    /\ log w' = log w /\ files w' = files w /\ session w' = session w.
Proof.
  destruct (build_session_spec w) as (s & w' & E & H1 & H).
  exists s, w'. split; [exact E |]. split; [exact H1 |].
  split; [apply next_ua_known | exact H].
Qed.


Ltac pick_url :=
  lazymatch goal with
  | |- ?a = ?b \/ ?c = ?d \/ ?e = ?f \/ False =>
      first [ constr_eq a b; left; reflexivity
            | constr_eq c d; right; left; reflexivity
            | constr_eq e f; right; right; left; reflexivity ]
  end.

(** X15. One call of [get_html] sends at least one and at most five
    requests: the first for the page asked for, the others for that page
    or for the two warm-up pages.  It draws at most two user agents and
    touches no file. *)
Theorem get_html_sends_few_requests (u : text) (w : World) :
  exists rq rest,
    sent (snd (get_html u w)) = sent w ++ rq :: rest
    /\ rq_url rq = u
    /\ length rest <= 4
    /\ Forall (fun r => rq_url r = u \/ In (rq_url r) warm_urls) rest
    /\ length (dice w) <= length (dice (snd (get_html u w))) + 2
    /\ files (snd (get_html u w)) = files w.
Proof.
  destruct w as [s n d q l f]. cbn [sent dice files].
  run_acquisition.
  all: eexists; eexists; (split; [rewrite <- ?app_assoc; reflexivity |]).
  all: (split; [reflexivity |]).
  all: cbn [length app]; (split; [lia |]).
  all: (split; [
                repeat (constructor; [cbn [rq_url]; pick_url |]); constructor |]).
  all: split; [cbn [length]; lia | reflexivity].
Qed.

(** ** Writing the outputs *)


Section OutputFacts.
Context {U : Unicode}.
Variable locked : text -> bool.







Variable warn : exn -> log_line.
Variables out_csv out_xlsx : text.





End OutputFacts.

(** ** The run as a whole *)

Section RunExtras.
Context {U : Unicode}.
Variable locked : text -> bool.
Variables out_csv out_xlsx : text.
Variable max_pages : Z.

Lemma scrape_url u w rec :
  fst (scrape_item_with_bs u w) = inl rec -> url (base rec) = u.
Proof.
  destruct (scrape_record_spec u w) as (r & w' & E & Hu & _).
  rewrite E. cbn [fst]. intros H. injection H as <-. exact Hu.
Qed.

Lemma for_links_urls links :
  forall d,
    exists ext,
      records (snd (for_links locked out_csv out_xlsx 0 links d))
      = records d ++ ext
      /\ map (fun r => url (base r)) ext = firstn (length ext) links
      /\ (forall t, fst (for_links locked out_csv out_xlsx 0 links d) = inl t ->
                    map (fun r => url (base r)) ext = links).
Proof.
  induction links as [|u links IH]; intros d.
  - exists []. cbn. rewrite app_nil_r. auto.
  - rewrite for_links_unbounded_cons.
    destruct (process_url_keeps locked out_csv out_xlsx u d)
      as (rec & Hs & Hr & _).
    apply scrape_url in Hs.
    destruct (process_url locked out_csv out_xlsx u d) as [[[]|e] d1];
      cbn [snd fst] in *.
    + destruct (IH d1) as (ext & E1 & E2 & E3).
      exists (rec :: ext). rewrite E1, Hr, <- app_assoc.
      cbn [map length firstn app]. rewrite Hs, E2. repeat split; auto.
      intros t Ht. f_equal. rewrite <- E2. exact (E3 t Ht).
    + exists [rec]. cbn [map length firstn]. rewrite Hs.
      repeat split; auto. intros t Ht. discriminate Ht.
Qed.

(** X18. Without a budget the loop over the links of a page makes one
    record per link, in the order of the links, each carrying the URL of
    its link; it stops early only if writing the outputs raises, and
    then the records still follow the links taken so far. *)
Theorem rows_follow_links (links : list text) (d : Driver) :
  exists ext,
    records (snd (for_links locked out_csv out_xlsx 0 links d))
    = records d ++ ext
    /\ map (fun r => url (base r)) ext = firstn (length ext) links
    /\ (forall t, fst (for_links locked out_csv out_xlsx 0 links d) = inl t ->
                  map (fun r => url (base r)) ext = links).
Proof. apply for_links_urls. Qed.

Lemma run_result fuel search_url upto w :
  exists d1 x,
    fst (run locked fuel search_url out_csv out_xlsx max_pages upto w)
    = match fst (flush locked WARN_final_locked out_csv out_xlsx d1) with
      | inl _ => inl x
      | inr e => inr e
      end
    /\ (x = OutOfFuel ->
        fst (pages locked fuel out_csv out_xlsx max_pages upto search_url 1%Z
               (started w)) = inl OutOfFuel).
Proof.
  rewrite run_unfold. unfold try_finally, try_except.
  destruct (pages locked fuel out_csv out_xlsx max_pages upto search_url 1%Z
              (started w)) as [[x|e] d1].
  - exists d1, x. split; [| intros ->; reflexivity].
    destruct (flush locked WARN_final_locked out_csv out_xlsx d1)
      as [[[]|e] d2]; reflexivity.
  - destruct (run_handler_keeps e d1) as [_ (x & Hx & ->)].
    destruct (run_handler e d1) as [r d2]. cbn [fst] in Hx. subst r.
    exists d2, Finished. split; [| discriminate].
    destruct (flush locked WARN_final_locked out_csv out_xlsx d2)
      as [[[]|e'] d3]; reflexivity.
Qed.


Lemma pages_within_max_pages fuel :
  forall upto page_url page_num d,
    (0 < max_pages)%Z -> 0 < fuel ->
    (max_pages - page_num < Z.of_nat fuel)%Z ->
    fst (pages locked fuel out_csv out_xlsx max_pages upto page_url page_num d)
    <> inl OutOfFuel.
Proof.
  induction fuel as [|fuel IH]; intros upto page_url page_num d Hm Hf Hlt;
    [lia |].
  rewrite pages_unfold.
  destruct (is_empty page_url); [discriminate |].
  destruct (lift (get_html page_url) d) as [[[soup|]|e] d1];
    cbn [fst]; try discriminate.
  destruct (is_empty (collect_result_links_from_page soup));
    [discriminate |].
  destruct (for_links locked out_csv out_xlsx upto
              (collect_result_links_from_page soup) d1) as [[[]|e] d2];
    [| discriminate].
  unfold after_links.
  destruct (Z.eqb_spec max_pages 0); [lia |]. cbn [negb andb].
  destruct (Z.ltb_spec max_pages (page_num + 1)); [discriminate |].
  destruct (get_next_page soup) as [nxt|]; [| discriminate].
  apply IH; lia.
Qed.

(** X20. With a page limit [max_pages] > 0 the crawl ends within
    [max_pages] index pages, whatever the site links to: fuel for that
    many pages is never used up. *)
Theorem max_pages_bounds_the_crawl (fuel : nat) (search_url : text)
    (upto : Z) (w : World) :
  (0 < max_pages)%Z -> (max_pages <= Z.of_nat fuel)%Z ->
  fst (run locked fuel search_url out_csv out_xlsx max_pages upto w)
  <> inl OutOfFuel.
Proof.
  intros Hm Hf.
  destruct (run_result fuel search_url upto w) as (d1 & x & E & Hx).
  rewrite E.
  destruct (fst (flush locked WARN_final_locked out_csv out_xlsx d1));
    [| discriminate].
  intros H. injection H as ->.
  apply (pages_within_max_pages (fuel := fuel) upto search_url 1%Z (started w));
    auto; lia.
Qed.

End RunExtras.

(** ** Paths and sheet names *)

Lemma rfind_from_spec c s :
  forall i last,
    (~ In c s /\ rfind_from c s i last = last)
    \/ (exists a b,
          s = a ++ c :: b /\ ~ In c b
          /\ rfind_from c s i last = (i + Z.of_nat (length a))%Z).
Proof.
  induction s as [|x s IH]; intros i last.
  - left. split; [intros [] | reflexivity].
  - cbn [rfind_from].
    destruct (IH (i + 1)%Z (if (x =? c)%N then i else last))
      as [[Hn E]|(a & b & -> & Hb & E)].
    + destruct (N.eqb_spec x c) as [->|Hx].
      * right. exists [], s. repeat split; auto. rewrite E. cbn. lia.
      * left. split; [| exact E]. intros [H|H]; auto.
    + right. exists (x :: a), b. repeat split; auto.
      rewrite E. cbn [length]. lia.
Qed.

Lemma rfind_lower c s : (-1 <= rfind c s)%Z.
Proof.
  unfold rfind.
  destruct (rfind_from_spec c s 0 (-1)) as [[_ ->]|(a & b & _ & _ & ->)]; lia.
Qed.

Lemma later_suffix {A} (a a' b b' : list A) x y :
  a ++ x :: b = a' ++ y :: b' -> length a' < length a ->
  exists m, b' = m ++ x :: b.
Proof.
  intros E L. apply app_eq_app in E as (l & [[E1 E2]|[E1 E2]]).
  - destruct l as [|z l].
    + rewrite app_nil_r in E1. subst. lia.
    + cbn [app] in E2. injection E2 as _ E2. now exists l.
  - subst a'. rewrite length_app in L. lia.
Qed.

(** X21. [os.path.splitext], as the fallback name uses it, cuts a path
    in two parts that give the path back when put together; the second
    part is empty or starts with the last dot of the path and holds no
    slash.  The fallback name is eight characters longer than the path,
    so it is never the path itself. *)
Theorem splitext_round_trip (p : text) :
  fst (splitext p) ++ snd (splitext p) = p
  /\ (snd (splitext p) = []
      \/ exists e, snd (splitext p) = c_ "." :: e
                   /\ ~ In (c_ ".") e /\ ~ In (c_ "/") e)
  /\ length (partial_name p) = length p + 8
  /\ partial_name p <> p.
Proof.
  assert (H12 : fst (splitext p) ++ snd (splitext p) = p
                /\ (snd (splitext p) = []
                    \/ exists e, snd (splitext p) = c_ "." :: e
                                 /\ ~ In (c_ ".") e /\ ~ In (c_ "/") e)).
  { unfold splitext.
    destruct ((rfind (c_ "/") p <? rfind (c_ ".") p)%Z
              && negb (forallb (N.eqb (c_ "."))
                         (slice (Z.to_nat (rfind (c_ "/") p + 1))
                            (Z.to_nat (rfind (c_ ".") p)) p))) eqn:E;
      cbn [fst snd].
    2:{ split; [apply app_nil_r | now left]. }
    split; [apply firstn_skipn | right].
    apply andb_true_iff in E as [E _]. apply Z.ltb_lt in E.
    pose proof (rfind_lower (c_ "/") p) as Hs.
    unfold rfind in *.
    destruct (rfind_from_spec (c_ ".") p 0 (-1))
      as [[_ Ed]|(a & b & Ep & Hb & Ed)]; [lia |].
    rewrite Ed in *. cbn [Z.add]. rewrite Nat2Z.id.
    exists b. split; [| split; [exact Hb |]].
    - rewrite Ep, skipn_app, Nat.sub_diag, skipn_all. reflexivity.
    - destruct (rfind_from_spec (c_ "/") p 0 (-1))
        as [[Hn _]|(a' & b' & Ep' & Hb' & Es)].
      + intros H. apply Hn. rewrite Ep. apply in_or_app. right. now right.
      + rewrite Es in E. rewrite Ep in Ep'.
        destruct (@later_suffix _ _ _ _ _ _ _ Ep') as [m ->]; [lia |].
        intros H. apply Hb'. apply in_or_app. right. now right. }
  destruct H12 as [H1 H2]. split; [exact H1 | split; [exact H2 |]].
  assert (L : length (partial_name p) = length p + 8).
  { unfold partial_name. destruct (splitext p) as [b ext].
    cbn [fst snd] in H1. rewrite <- H1, !length_app.
    change (length (py "_partial")) with 8. lia. }
  split; [exact L |]. intros E. rewrite E in L. lia.
Qed.

Lemma or_else_nonempty a b : b <> [] -> or_else a b <> [].
Proof.
  intros H. unfold or_else. destruct a; [exact H | discriminate].
Qed.

Lemma or_else_keeps a b : a <> [] -> or_else a b = a.
Proof.
  intros H. unfold or_else. destruct a; [contradiction | reflexivity].
Qed.

Lemma firstn_nonempty {A} n (l : list A) : l <> [] -> firstn (S n) l <> [].
Proof.
  intros H. destruct l; [contradiction | discriminate].
Qed.

Lemma item_name_nonempty idx : item_name idx <> [].
Proof.
  unfold item_name. change (py "Item ") with [73; 116; 101; 109; 32]%N.
  discriminate.
Qed.

Section SheetFacts.
Context {U : Unicode}.

(** Replacing the characters of a set by one character is a map. *)
Lemma sub_any_map p x s :
  forall pre,
    sub_from (Any p) (fun _ => [x]) 0 pre s
    = map (fun c => if p c then x else c) s.
Proof.
  induction s as [|c s IH]; intros pre.
  - reflexivity.
  - rewrite sub_from_cons0, match_at_any. simpl.
    destruct (p c); simpl; now rewrite IH.
Qed.

(** X22. The name given to the sheet of an item is never empty, is at
    most 31 characters long and holds none of the seven characters the
    pattern replaces; the second [or] of the source is never needed. *)
Theorem sheet_names_valid (row : master_row) (idx : nat) :
  sheet_name_of row idx <> []
  /\ length (sheet_name_of row idx) <= 31
  /\ forallb (fun c => negb (sheet_class c)) (sheet_name_of row idx) = true
  /\ sheet_name_of row idx
     = firstn 31
         (map (fun c => if sheet_class c then c_ "_" else c)
            (or_else (x_file_number row)
               (or_else (x_title row) (item_name idx)))).
Proof.
  unfold sheet_name_of, re_sub. change (py "_") with [c_ "_"].
  rewrite sub_any_map.
  set (b := or_else (x_file_number row) (or_else (x_title row) (item_name idx))).
  set (m := map (fun c => if sheet_class c then c_ "_" else c) b).
  assert (Hb : b <> []).
  { apply or_else_nonempty, or_else_nonempty, item_name_nonempty. }
  assert (Hm : firstn 31 m <> []).
  { apply firstn_nonempty. subst m. destruct b; [contradiction | discriminate]. }
  rewrite (or_else_keeps _ Hm).
  split; [exact Hm |]. split; [apply firstn_le_length |].
  split; [| reflexivity].
  apply forallb_forall. intros y Hy.
  assert (Hy' : In y m).
  { rewrite <- (firstn_skipn 31). apply in_or_app. now left. }
  apply in_map_iff in Hy' as (z & <- & _).
  destruct (sheet_class z) eqn:E; [reflexivity | now rewrite E].
Qed.

Lemma pref_not_fallback k :
  In k KNOWN_ORDER_PREF -> text_eqb k (py "Full Report Text") = false.
Proof.
  unfold KNOWN_ORDER_PREF. cbn [In]. intros H.
  repeat (destruct H as [<-|H]; [vm_compute; reflexivity |]).
  contradiction.
Qed.

(** X23. A decision in which no heading is found is exported without
    sections: the fallback entry is left out of the metadata of the CSV
    row, and the six section columns of the Master sheet are empty. *)
Theorem headingless_text_exports_no_sections (txt : text)
    (rec : DecisionRecord) :
  found_positions (normalize_text txt) = [] ->
  sections rec = split_sections txt ->
  meta_sections (file_metadata (upload_row_of rec)) = []
  /\ x_sections (master_row_of rec) = map (fun _ => []) KNOWN_ORDER_PREF.
Proof.
  intros Hfp Hs. unfold upload_row_of, master_row_of.
  cbn [file_metadata meta_sections x_sections]. rewrite Hs.
  unfold split_sections. destruct (is_empty (normalize_text txt)).
  - split; [reflexivity |]. apply map_ext. intros k. reflexivity.
  - rewrite Hfp. cbn [is_empty]. split.
    + unfold sections_clean. cbn [filter fst snd].
      rewrite text_eqb_refl. cbn [negb]. rewrite andb_false_r. reflexivity.
    + apply map_ext_in. intros k Hk. unfold get_or_empty. cbn [dict_get].
      now rewrite (pref_not_fallback Hk).
Qed.

End SheetFacts.

(** ** The outputs and the run on scripted worlds *)

Section OutputWitness.
Local Existing Instance ascii_tables.



(** X18, witness: one link asked of the network that is down. *)
Lemma rows_follow_links_witness :
  let u := py "https://www.gao.gov/products/b-1" in
  let d := {| world := offline; records := []; processed := 0%Z |} in
  exists ext,
    records (snd (for_links unlocked (py "out.csv") (py "out.xlsx") 0 [u] d))
    = records d ++ ext
    /\ map (fun r => url (base r)) ext = [u].
Proof.
  intros u d.
  destruct (@rows_follow_links _ unlocked (py "out.csv") (py "out.xlsx") [u] d)
    as (ext & E1 & _ & E3).
  exists ext. split; [exact E1 |].
  apply (E3 tt). vm_compute. reflexivity.
Defined.


(** X20, witness: a limit of one page on a site of two pages. *)
Lemma max_pages_bounds_the_crawl_witness :
  fst (run unlocked 1 (py "https://www.gao.gov/search") (py "out.csv")
         (py "out.xlsx") 1 0 two_pages)
  <> inl OutOfFuel.
Proof.
  apply (@max_pages_bounds_the_crawl _ unlocked (py "out.csv") (py "out.xlsx")
           1%Z 1 (py "https://www.gao.gov/search") 0%Z two_pages); lia.
Defined.

(** X23, witness: a decision text in lower case. *)
Lemma headingless_text_exports_no_sections_witness :
  let txt := py "the protest is denied." in
  let rec := {| base := {| url := py "https://www.gao.gov/products/b-1";
                           title := []; file_number := []; date := [] |};
                pdf_pages := None;
                full_text := normalize_text txt;
                sections := split_sections txt |} in
  meta_sections (file_metadata (upload_row_of rec)) = []
  /\ x_sections (master_row_of rec) = map (fun _ => []) KNOWN_ORDER_PREF.
Proof.
  intros txt rec.
  apply (@headingless_text_exports_no_sections _ txt rec).
  - vm_compute. reflexivity.
  - reflexivity.
Defined.

End OutputWitness.
